(** * RStudio launcher plugin SDK: message protocol and supervised processes

    A shallow embedding of [sdk/src/api/Response.cpp] and
    [sdk/src/system/Process.cpp], and of the request decoder as section 4.1
    of the specification describes it, with the properties of the
    natural-language specification stated and settled against them.

    Conventions.  A C++ unsigned integer of [w] bits is a [Z] in
    [0, 2^w) with the wrap-around written out; process-wide or per-object
    mutable state is passed explicitly; system calls are answered by a script
    of outcomes that the function consumes, and what the function asks of the
    system is recorded as a trace.  A loop that the source does not bound is
    given fuel, and running out of it is a result of its own. *)

From Stdlib Require Import ZArith Lia Bool List String Ascii DecimalString.
From stdpp Require Import base list strings gmap.

Local Open Scope Z_scope.

(** ** Machine integers *)

Definition uint64_modulus : Z := 2 ^ 64.
Definition uint32_modulus : Z := 2 ^ 32.

(** [static_cast<uint64_t>] and [static_cast<uint32_t>]. *)
Definition to_uint64 (z : Z) : Z := z mod uint64_modulus.
Definition to_uint32 (z : Z) : Z := z mod uint32_modulus.

(** [static_cast<int>] / [static_cast<int32_t>] on a two's complement machine. *)
Definition to_int32 (z : Z) : Z :=
  let r := z mod uint32_modulus in
  if r <? 2 ^ 31 then r else r - uint32_modulus.

(** [std::string::empty] and [std::vector::empty]. *)
Definition string_empty (s : string) : bool :=
  match s with EmptyString => true | String _ _ => false end.

Definition vector_empty {A} (v : list A) : bool :=
  match v with [] => true | _ :: _ => false end.

(** * JSON values

    [json/Json.hpp] wraps rapidjson: an object is a sequence of members in
    insertion order, and both [Object::insert] and assignment through
    [operator[]] replace the value of a member that is already there and
    append a new member otherwise. *)

Module json.

#[local] Set Warnings "-register-all".

Inductive Value : Type :=
| Null
| Bool (b : bool)
| Int (z : Z)
| Str (s : string)
| Arr (items : list Value)
| Obj (members : list (string * Value)).

Definition Array : Type := list Value.
Definition Object : Type := list (string * Value).

(** [obj[name] = v] and [obj.insert(name, v)]. *)
Fixpoint insert (name : string) (v : Value) (obj : Object) : Object :=
  match obj with
  | [] => [(name, v)]
  | (k, w) :: rest =>
      if String.eqb k name then (k, v) :: rest else (k, w) :: insert name v rest
  end.

(** [obj.find(name)]: the member's value, or [None] for [obj.end()]. *)
Fixpoint find (name : string) (obj : Object) : option Value :=
  match obj with
  | [] => None
  | (k, w) :: rest => if String.eqb k name then Some w else find name rest
  end.

(** [json::toJsonArray] on a container of strings. *)
Definition toJsonArray (l : list string) : Value := Arr (List.map Str l).

(** [std::to_string] on an integer. *)
Definition Z_to_string (z : Z) : string :=
  DecimalString.NilZero.string_of_int (Z.to_int z).

Definition dquote : ascii := "034"%char.
Definition backslash : ascii := "092"%char.

Definition hex_digit (n : nat) : ascii :=
  List.nth n (list_ascii_of_string "0123456789ABCDEF") "0"%char.

(** Modelled from the spec: [json::Object::write] of [json/Json.hpp], which
    is not among the sources.  The specification only says that the launch
    profile is passed as JSON; the writer below is the compact form of the
    JSON grammar, members in insertion order, with the quote, the backslash
    and the control characters of a string escaped. *)
Definition escape_char (c : ascii) : string :=
  let n := nat_of_ascii c in
  if Ascii.eqb c dquote then String backslash (String dquote EmptyString)
  else if Ascii.eqb c backslash then String backslash (String backslash EmptyString)
  else if Nat.eqb n 8 then String backslash "b"
  else if Nat.eqb n 9 then String backslash "t"
  else if Nat.eqb n 10 then String backslash "n"
  else if Nat.eqb n 12 then String backslash "f"
  else if Nat.eqb n 13 then String backslash "r"
  else if Nat.ltb n 32 then
    String backslash
      (String "u" (String "0" (String "0"
         (String (hex_digit (Nat.div n 16)) (String (hex_digit (Nat.modulo n 16)) EmptyString)))))
  else String c EmptyString.

Fixpoint escape_string (s : string) : string :=
  match s with
  | EmptyString => EmptyString
  | String c rest => escape_char c +:+ escape_string rest
  end.

Definition write_string (s : string) : string :=
  String dquote (escape_string s +:+ String dquote EmptyString).

Fixpoint write (v : Value) : string :=
  match v with
  | Null => "null"
  | Bool true => "true"
  | Bool false => "false"
  | Int z => Z_to_string z
  | Str s => write_string s
  | Arr items => "[" +:+ String.concat "," (List.map write items) +:+ "]"
  | Obj members =>
      "{" +:+ String.concat ","
               (List.map (fun m => write_string (fst m) +:+ ":" +:+ write (snd m)) members)
          +:+ "}"
  end.

(** The [toJson] member function of the value classes of the API. *)
Class ToJson (A : Type) := toJson : A -> Value.

End json.

(** * Response.cpp *)

Module Response.

(** [Response::Type].  The enumeration is declared in [api/Response.hpp]; the
    translation unit names the four enumerators below, every further one is
    an [OTHER] with its tag. *)
Inductive Type_ : Set :=
| ERROR
| HEARTBEAT
| BOOTSTRAP
| CLUSTER_INFO
| OTHER (tag : Z).

(** The test of the constructor:
    [(in_responseType == Type::HEARTBEAT) || (in_responseType == Type::ERROR)]. *)
Definition is_heartbeat_or_error (t : Type_) : bool :=
  match t with
  | HEARTBEAT | ERROR => true
  | _ => false
  end.

(** [struct Response::Impl].  [ResponseType] is kept as the enumerator; the
    [static_cast<int>] is applied where the value is written out. *)
Record Impl : Set := mkImpl {
  ResponseType : Type_;
  RequestId : Z;
  ResponseId : Z
}.

(** [std::atomic_uint64_t Response::Impl::NEXT_RESPONSE_ID { 0 }]. *)
Definition NEXT_RESPONSE_ID_init : Z := 0.

(** [std::atomic_uint64_t::fetch_add]: the old value is returned, the stored
    value is the sum modulo [2^64]. *)
Definition fetch_add (delta : Z) (counter : Z) : Z * Z :=
  (counter, to_uint64 (counter + delta)).

(** [Response::Impl::Impl], the counter before and after. *)
Definition Impl_new (in_responseType : Type_) (in_requestId : Z)
    (NEXT_RESPONSE_ID : Z) : Impl * Z :=
  if is_heartbeat_or_error in_responseType
  then (mkImpl in_responseType in_requestId 0, NEXT_RESPONSE_ID)
  else
    let '(id, next) := fetch_add 1 NEXT_RESPONSE_ID in
    (mkImpl in_responseType in_requestId id, next).

(** [Response::Response] only allocates the [Impl]. *)
Definition Response_new := Impl_new.

(** The subclasses' constructors, as far as the base class is concerned. *)
Definition BootstrapResponse_new (in_requestId : Z) := Response_new BOOTSTRAP in_requestId.
Definition ErrorResponse_new (in_requestId : Z) := Response_new ERROR in_requestId.
Definition HeartbeatResponse_new := Response_new HEARTBEAT 0.
Definition ClusterInfoResponse_base (in_requestId : Z) := Response_new CLUSTER_INFO in_requestId.

(** A process constructs responses one after the other: the requests are
    pairs of a type and a request id, the counter is threaded through. *)
Fixpoint construct_all (reqs : list (Type_ * Z)) (counter : Z) : list Impl * Z :=
  match reqs with
  | [] => ([], counter)
  | (t, rid) :: rest =>
      let '(r, c1) := Response_new t rid counter in
      let '(rs, c2) := construct_all rest c1 in
      (r :: rs, c2)
  end.

(** The counter values a process can be in. *)
Inductive reachable : Z -> Prop :=
| reachable_init : reachable NEXT_RESPONSE_ID_init
| reachable_step counter t rid :
    reachable counter -> reachable (snd (Response_new t rid counter)).

Definition substantive (r : Impl) : bool := negb (is_heartbeat_or_error (ResponseType r)).

Definition substantive_req (q : Type_ * Z) : bool := negb (is_heartbeat_or_error (fst q)).

(** ** Encoding *)

(** Modelled from the spec: the field names of [api/Constants.hpp], which is
    not among the sources; section 6 of the specification lists the names of
    the outbound document. *)
Definition FIELD_MESSAGE_TYPE : string := "messageType".
Definition FIELD_REQUEST_ID : string := "requestId".
Definition FIELD_RESPONSE_ID : string := "responseId".
Definition FIELD_CONTAINER_SUPPORT : string := "containerSupport".
Definition FIELD_DEFAULT_IMAGE : string := "defaultImage".
Definition FIELD_ALLOW_UNKNOWN_IMAGES : string := "allowUnknownImages".
Definition FIELD_IMAGES : string := "images".
Definition FIELD_QUEUES : string := "queues".
Definition FIELD_CONFIG : string := "config".
Definition FIELD_RESOURCE_LIMITS : string := "resourceLimits".
Definition FIELD_PLACEMENT_CONSTRAINTS : string := "placementConstraints".

Section Encoding.

(** The value of [static_cast<int>] on an enumerator, fixed by the
    declaration of [Response::Type] in [api/Response.hpp]. *)
Variable Type_to_int : Type_ -> Z.

(** [JobConfig], [PlacementConstraint] and [ResourceLimit] are declared in
    [api/Job.hpp]; the encoder only calls their [toJson]. *)
Context {JobConfig PlacementConstraint ResourceLimit : Type}.
Context `{!json.ToJson JobConfig, !json.ToJson PlacementConstraint,
          !json.ToJson ResourceLimit}.

(** [Response::toJson]. *)
Definition Response_toJson (r : Impl) : json.Object :=
  let jsonObject := [] in
  let jsonObject := json.insert FIELD_MESSAGE_TYPE (json.Int (Type_to_int (ResponseType r))) jsonObject in
  let jsonObject := json.insert FIELD_REQUEST_ID (json.Int (RequestId r)) jsonObject in
  let jsonObject := json.insert FIELD_RESPONSE_ID (json.Int (ResponseId r)) jsonObject in
  jsonObject.

(** [struct ClusterInfoResponse::Impl].  [ContainerImages] is a
    [std::set<std::string>], held as the list of its elements in order. *)
Record ClusterInfoImpl : Type := mkClusterInfoImpl {
  AllowUnknownImages : bool;
  Config : list JobConfig;
  ContainerImages : list string;
  DefaultImage : string;
  PlacementConstraints : list PlacementConstraint;
  Queues : list string;
  ResourceLimits : list ResourceLimit;
  SupportsContainers : bool
}.

(** The first constructor of [ClusterInfoResponse::Impl]: no containers.
    [ContainerImages] and [DefaultImage] are default-initialised. *)
Definition ClusterInfoImpl_new
    (in_queues : list string) (in_resourceLimits : list ResourceLimit)
    (in_placementConstraints : list PlacementConstraint)
    (in_config : list JobConfig) : ClusterInfoImpl :=
  {| AllowUnknownImages := false;
     Config := in_config;
     ContainerImages := [];
     DefaultImage := EmptyString;
     PlacementConstraints := in_placementConstraints;
     Queues := in_queues;
     ResourceLimits := in_resourceLimits;
     SupportsContainers := false |}.

(** The second constructor: containers. *)
Definition ClusterInfoImpl_new_containers
    (in_containerImages : list string) (in_defaultImage : string)
    (in_allowUnknownImages : bool)
    (in_queues : list string) (in_resourceLimits : list ResourceLimit)
    (in_placementConstraints : list PlacementConstraint)
    (in_config : list JobConfig) : ClusterInfoImpl :=
  {| AllowUnknownImages := in_allowUnknownImages;
     Config := in_config;
     ContainerImages := in_containerImages;
     DefaultImage := in_defaultImage;
     PlacementConstraints := in_placementConstraints;
     Queues := in_queues;
     ResourceLimits := in_resourceLimits;
     SupportsContainers := true |}.

(** A [ClusterInfoResponse]: the base object and its own [m_impl]. *)
Record ClusterInfoResponse : Type := mkClusterInfoResponse {
  m_responseImpl : Impl;
  m_impl : ClusterInfoImpl
}.

(** The two public constructors; the base constructor draws the id. *)
Definition ClusterInfoResponse_new (in_requestId : Z)
    (in_queues : list string) (in_resourceLimits : list ResourceLimit)
    (in_placementConstraints : list PlacementConstraint)
    (in_config : list JobConfig) (NEXT_RESPONSE_ID : Z) : ClusterInfoResponse * Z :=
  let '(base, next) := Response_new CLUSTER_INFO in_requestId NEXT_RESPONSE_ID in
  (mkClusterInfoResponse base
     (ClusterInfoImpl_new in_queues in_resourceLimits in_placementConstraints in_config),
   next).

Definition ClusterInfoResponse_new_containers (in_requestId : Z)
    (in_containerImages : list string) (in_defaultImage : string)
    (in_allowUnknownImages : bool)
    (in_queues : list string) (in_resourceLimits : list ResourceLimit)
    (in_placementConstraints : list PlacementConstraint)
    (in_config : list JobConfig) (NEXT_RESPONSE_ID : Z) : ClusterInfoResponse * Z :=
  let '(base, next) := Response_new CLUSTER_INFO in_requestId NEXT_RESPONSE_ID in
  (mkClusterInfoResponse base
     (ClusterInfoImpl_new_containers in_containerImages in_defaultImage
        in_allowUnknownImages in_queues in_resourceLimits in_placementConstraints in_config),
   next).

(** [ClusterInfoResponse::toJson]. *)
Definition ClusterInfoResponse_toJson (this : ClusterInfoResponse) : json.Object :=
  let result := Response_toJson (m_responseImpl this) in
  let result :=
    json.insert FIELD_CONTAINER_SUPPORT (json.Bool (SupportsContainers (m_impl this))) result in
  let result :=
    if SupportsContainers (m_impl this) then
      let result :=
        if negb (string_empty (DefaultImage (m_impl this)))
        then json.insert FIELD_DEFAULT_IMAGE (json.Str (DefaultImage (m_impl this))) result
        else result in
      let result :=
        json.insert FIELD_ALLOW_UNKNOWN_IMAGES
          (json.Bool (AllowUnknownImages (m_impl this))) result in
      json.insert FIELD_IMAGES (json.toJsonArray (ContainerImages (m_impl this))) result
    else result in
  let result :=
    if negb (vector_empty (Queues (m_impl this)))
    then json.insert FIELD_QUEUES (json.toJsonArray (Queues (m_impl this))) result
    else result in
  let config := List.map json.toJson (Config (m_impl this)) in
  let constraints := List.map json.toJson (PlacementConstraints (m_impl this)) in
  let limits := List.map json.toJson (ResourceLimits (m_impl this)) in
  let result := json.insert FIELD_CONFIG (json.Arr config) result in
  let result := json.insert FIELD_RESOURCE_LIMITS (json.Arr limits) result in
  let result := json.insert FIELD_PLACEMENT_CONSTRAINTS (json.Arr constraints) result in
  result.

End Encoding.

(** ** The other responses *)

(** Modelled from the spec: further field names of [api/Constants.hpp], as
    section 6 of the specification lists them. *)
Definition FIELD_VERSION : string := "version".
Definition FIELD_VERSION_MAJOR : string := "major".
Definition FIELD_VERSION_MINOR : string := "minor".
Definition FIELD_VERSION_PATCH : string := "patch".
Definition FIELD_ERROR_CODE : string := "errorCode".
Definition FIELD_ERROR_MESSAGE : string := "errorMessage".

Section OtherResponses.

Variable Type_to_int : Type_ -> Z.

(** The version triple [API_VERSION_MAJOR], [API_VERSION_MINOR] and
    [API_VERSION_PATCH] of [Constants.hpp]. *)
Variables API_VERSION_MAJOR API_VERSION_MINOR API_VERSION_PATCH : Z.

(** [ErrorResponse::Type] is declared in [api/Response.hpp]; the encoder
    only takes its [static_cast<int>]. *)
Context {ErrorType : Type}.
Variable ErrorType_to_int : ErrorType -> Z.

(** [BootstrapResponse::toJson] *)
Definition BootstrapResponse_toJson (this : Impl) : json.Object :=
  let jsonObject := Response_toJson Type_to_int this in
  let version : json.Object := [] in
  let version := json.insert FIELD_VERSION_MAJOR (json.Int API_VERSION_MAJOR) version in
  let version := json.insert FIELD_VERSION_MINOR (json.Int API_VERSION_MINOR) version in
  let version := json.insert FIELD_VERSION_PATCH (json.Int API_VERSION_PATCH) version in
  json.insert FIELD_VERSION (json.Obj version) jsonObject.

(** [struct ErrorResponse::Impl] with the base object. *)
Record ErrorResponse : Set := mkErrorResponse {
  err_responseImpl : Impl;
  ErrorCode : Z;
  ErrorMessage : string
}.

(** [ErrorResponse::ErrorResponse] *)
Definition ErrorResponse_construct (in_requestId : Z) (in_errorType : ErrorType)
    (in_errorMessage : string) (NEXT_RESPONSE_ID : Z) : ErrorResponse * Z :=
  let '(base, next) := Response_new ERROR in_requestId NEXT_RESPONSE_ID in
  (mkErrorResponse base (ErrorType_to_int in_errorType) in_errorMessage, next).

(** [ErrorResponse::toJson] *)
Definition ErrorResponse_toJson (this : ErrorResponse) : json.Object :=
  let responseObject := Response_toJson Type_to_int (err_responseImpl this) in
  let responseObject :=
    json.insert FIELD_ERROR_CODE (json.Int (ErrorCode this)) responseObject in
  let responseObject :=
    json.insert FIELD_ERROR_MESSAGE (json.Str (ErrorMessage this)) responseObject in
  responseObject.

End OtherResponses.

End Response.

(** * Process.cpp *)

Module Process.

(** ** Platform constants

    The values of [<errno.h>], [<signal.h>], [<unistd.h>] and
    [<sys/resource.h>] on Linux/x86-64, the platform of the SDK. *)
Definition EPERM : Z := 1.
Definition ESRCH : Z := 3.
Definition EINTR : Z := 4.
Definition ECHILD : Z := 10.
Definition EAGAIN : Z := 11.
Definition SIGTERM : Z := 15.
Definition STDIN_FILENO : Z := 0.
Definition STDOUT_FILENO : Z := 1.
Definition STDERR_FILENO : Z := 2.
(** [RLIM_INFINITY] is [(rlim_t) -1], and [rlim_t] is an unsigned 64-bit integer. *)
Definition RLIM_INFINITY : Z := uint64_modulus - 1.

(** [s_threadSafeExitError]. *)
Definition s_threadSafeExitError : Z := 153.

(** [struct FileDescriptors]: each pipe as its read end and its write end
    ([s_readPipe = 0], [s_writePipe = 1]). *)
Record FileDescriptors : Set := mkFileDescriptors {
  Input : Z * Z;
  Output : Z * Z;
  Error : Z * Z;
  CloseFd : Z * Z
}.

Definition s_readPipe {A} (p : A * A) : A := fst p.
Definition s_writePipe {A} (p : A * A) : A := snd p.

(** ** The child between [fork] and [exec] *)

(** What the child does to its descriptor table: the descriptors that are
    open, and the calls of [closeFd] in the order they were made. *)
Record Child : Type := mkChild {
  open_fds : gset Z;
  close_calls : list Z
}.

(** [closeFd]: [::close] is repeated while it is interrupted and any other
    failure is ignored, so on return the descriptor is not open. *)
Definition closeFd (in_fd : Z) (w : Child) : Child :=
  {| open_fds := open_fds w ∖ {[in_fd]};
     close_calls := close_calls w ++ [in_fd] |}.

(** One [::read(in_pipeFd, &buffer, 4)] as the child sees it: the value
    returned, [errno] after the call, and the [int32_t] in [buffer] after
    the call. *)
Record read_outcome : Set := mkRead {
  bytesRead : Z;
  errno_after : Z;
  buffer_after : Z
}.

Definition startFd : Z := STDERR_FILENO + 1.

(** The first loop of [closeParentFds].  The reads are answered from the
    script in order; [None] when the script ends with the loop still
    reading.  The result is [(error, fdsRead)] and the descriptor table. *)
Fixpoint closeParentFds_read (in_pipeFd in_maxFd : Z) (reads : list read_outcome)
    (fdsRead : bool) (w : Child) : option (bool * bool * Child) :=
  match reads with
  | [] => None
  | r :: rest =>
      if bytesRead r <=? 0 then
        if negb (errno_after r =? EINTR) && negb (errno_after r =? EAGAIN)
        then Some (true, fdsRead, w)
        else closeParentFds_read in_pipeFd in_maxFd rest fdsRead w
      else if buffer_after r =? -1 then Some (false, fdsRead, w)
      else
        let fd := to_uint32 (buffer_after r) in
        let w :=
          if (fd >=? startFd) && (fd <? in_maxFd) && negb (buffer_after r =? in_pipeFd)
          then closeFd fd w else w in
        closeParentFds_read in_pipeFd in_maxFd rest true w
  end.

(** A read that ends the first loop of [closeParentFds]: one that fails
    with an error other than [EINTR] and [EAGAIN], or one that delivers the
    sentinel [-1]. *)
Definition ends_reading (r : read_outcome) : bool :=
  if bytesRead r <=? 0
  then negb (errno_after r =? EINTR) && negb (errno_after r =? EAGAIN)
  else buffer_after r =? -1.

(** [uint32_t maxFd = (in_maxFd == RLIM_INFINITY) ? 1024 : in_maxFd]: the
    conditional has type [rlim_t] and is narrowed to 32 bits. *)
Definition sweep_maxFd (in_maxFd : Z) : Z :=
  to_uint32 (if in_maxFd =? RLIM_INFINITY then 1024 else in_maxFd).

(** [for (uint32_t fd = ...; fd < maxFd; ++fd) if (fd != in_pipeFd) closeFd(fd);]
    In [fd != in_pipeFd] the [int] is converted to [unsigned]. *)
Fixpoint closeParentFds_sweep (fuel : nat) (fd maxFd in_pipeFd : Z) (w : Child) : Child :=
  match fuel with
  | O => w
  | S fuel' =>
      if fd <? maxFd then
        let w := if negb (fd =? to_uint32 in_pipeFd) then closeFd fd w else w in
        closeParentFds_sweep fuel' (to_uint32 (fd + 1)) maxFd in_pipeFd w
      else w
  end.

(** [closeParentFds].  The sweep runs at most [maxFd] times. *)
Definition closeParentFds (in_pipeFd in_maxFd : Z) (reads : list read_outcome)
    (w : Child) : option Child :=
  match closeParentFds_read in_pipeFd in_maxFd reads false w with
  | None => None
  | Some (error, fdsRead, w) =>
      if error || negb fdsRead then
        let maxFd := sweep_maxFd in_maxFd in
        Some (closeParentFds_sweep (Z.to_nat maxFd) startFd maxFd in_pipeFd w)
      else Some w
  end.

(** [struct rlimit] and the successful [getFilesLimit]. *)
Record rlimit : Set := mkRlimit {
  rlim_cur : Z;
  rlim_max : Z
}.

Definition getFilesLimit (fileLimit : rlimit) : Z * Z :=
  (rlim_cur fileLimit, rlim_max fileLimit).

(** What the system answers to the child before the descriptor hygiene. *)
Record child_setup : Set := mkChildSetup {
  setpgid_result : Z;
  clearSignalMask_result : Z;
  dup2_stdin_result : Z;
  dup2_stdout_result : Z;
  dup2_stderr_result : Z
}.

(** How [execChild] proceeds up to the replacement of the process image. *)
Inductive child_progress : Type :=
| ChildExit (code : Z)
| ChildReading
| ChildExec (w : Child).

(** [::close] and a successful [::dup2] on the descriptor table. *)
Definition sys_close (fd : Z) (w : Child) : Child :=
  {| open_fds := open_fds w ∖ {[fd]}; close_calls := close_calls w |}.

Definition sys_dup2 (newfd : Z) (w : Child) : Child :=
  {| open_fds := open_fds w ∪ {[newfd]}; close_calls := close_calls w |}.

(** [AbstractChildProcess::Impl::execChild] up to the descriptor hygiene:
    process group, signal mask, the unused pipe ends closed and the data
    pipes connected to the standard streams.  Any failure ends the child. *)
Definition execChild_connect (in_fds : FileDescriptors) (setup : child_setup)
    (w : Child) : Child + Z :=
  if setpgid_result setup =? -1 then inr s_threadSafeExitError
  else if negb (clearSignalMask_result setup =? 0) then inr s_threadSafeExitError
  else
    let w := sys_close (s_writePipe (Input in_fds)) w in
    let w := sys_close (s_readPipe (Output in_fds)) w in
    let w := sys_close (s_readPipe (Error in_fds)) w in
    let w := sys_close (s_writePipe (CloseFd in_fds)) w in
    if dup2_stdin_result setup =? -1 then inr s_threadSafeExitError
    else
      let w := sys_dup2 STDIN_FILENO w in
      if dup2_stdout_result setup =? -1 then inr s_threadSafeExitError
      else
        let w := sys_dup2 STDOUT_FILENO w in
        if dup2_stderr_result setup =? -1 then inr s_threadSafeExitError
        else inl (sys_dup2 STDERR_FILENO w).

(** [AbstractChildProcess::Impl::execChild] as far as the descriptors go. *)
Definition execChild (in_fds : FileDescriptors) (in_maxFd : Z)
    (setup : child_setup) (reads : list read_outcome) (w : Child) : child_progress :=
  match execChild_connect in_fds setup w with
  | inr code => ChildExit code
  | inl w =>
      match closeParentFds (s_readPipe (CloseFd in_fds)) in_maxFd reads w with
      | None => ChildReading
      | Some w => ChildExec (sys_close (s_readPipe (CloseFd in_fds)) w)
      end
  end.

(** The child's branch of [AbstractChildProcess::run]: the limits are read
    before the fork and [hardLimit] is what [execChild] is given. *)
Definition run_child (fileLimit : rlimit) (fds : FileDescriptors)
    (setup : child_setup) (reads : list read_outcome) (w : Child) : child_progress :=
  let '(softLimit, hardLimit) := getFilesLimit fileLimit in
  execChild fds hardLimit setup reads w.

(** ** [std::string] *)

(** [std::string::npos] is [(size_t) -1]. *)
Definition npos : Z := uint64_modulus - 1.

Definition size (s : string) : Z := Z.of_nat (String.length s).

(** The first index at or after [pos] that holds [c]. *)
Fixpoint find_char_from (c : ascii) (s : string) (pos : nat) : option nat :=
  match s with
  | EmptyString => None
  | String x rest =>
      match pos with
      | O => if Ascii.eqb x c then Some O else option_map S (find_char_from c rest O)
      | S pos' => option_map S (find_char_from c rest pos')
      end
  end.

(** [s.find(c, pos)] *)
Definition string_find_char (s : string) (c : ascii) (pos : Z) : Z :=
  if size s <=? pos then npos
  else
    match find_char_from c s (Z.to_nat pos) with
    | Some i => Z.of_nat i
    | None => npos
    end.

(** [s.find(pattern)] *)
Definition string_find (s pattern : string) : Z :=
  match String.index 0 pattern s with
  | Some i => Z.of_nat i
  | None => npos
  end.

(** [s[i]], for [i] up to the size. *)
Definition string_at (s : string) (i : Z) : ascii :=
  match String.get (Z.to_nat i) s with
  | Some c => c
  | None => Ascii.zero
  end.

(** [s.substr(pos, len)] and [s.substr(pos)], for [pos] up to the size. *)
Definition substr (s : string) (pos len : Z) : string :=
  String.substring (Z.to_nat pos) (Z.to_nat len) s.

Definition substr_from (s : string) (pos : Z) : string :=
  String.substring (Z.to_nat pos) (String.length s - Z.to_nat pos) s.

(** ** The launch profile and its log entry *)

Module User.
(** [system::User], as far as the engine looks at it. *)
Record t : Set := mk {
  isAllUsers : bool;
  isEmpty : bool;
  getUsername : string
}.
End User.

Module ProcessOptions.
(** [struct ProcessOptions], the members that the launch profile reads.  The
    argument and environment vectors, the redirections, the mounts and the
    working directory only enter [createEnvironmentVars] and
    [createSandboxArguments], whose results are taken as given below. *)
Record t : Set := mk {
  Executable : string;
  Password : string;
  RunAsUser : User.t;
  StandardInput : string
}.
End ProcessOptions.

(** [struct AbstractChildProcess::Impl]. *)
Record Impl : Set := mkImpl {
  Arguments : list string;
  Environment : list string;
  StandardInput : string;
  StdErrFd : Z;
  StdInFd : Z;
  StdOutFd : Z;
  Pid : Z;
  RSandbox : string
}.

(** [createLaunchProfile]: the document whose text becomes [StandardInput]. *)
Definition launchProfile (in_options : ProcessOptions.t) : json.Value :=
  let contextObj : json.Object := [] in
  let contextObj :=
    json.insert "username"
      (json.Str
         (if User.isAllUsers (ProcessOptions.RunAsUser in_options)
             || User.isEmpty (ProcessOptions.RunAsUser in_options)
          then EmptyString
          else User.getUsername (ProcessOptions.RunAsUser in_options)))
      contextObj in
  let contextObj := json.insert "project" (json.Str EmptyString) contextObj in
  let contextObj := json.insert "id" (json.Str EmptyString) contextObj in
  let configObj : json.Object := [] in
  let configObj := json.insert "args" (json.Arr []) configObj in
  let configObj := json.insert "environment" (json.Obj []) configObj in
  let configObj :=
    json.insert "stdInput" (json.Str (ProcessOptions.StandardInput in_options)) configObj in
  let configObj := json.insert "stdStreamBehavior" (json.Int 2) configObj in
  let configObj := json.insert "priority" (json.Int 0) configObj in
  let configObj := json.insert "memoryLimitBytes" (json.Int 0) configObj in
  let configObj := json.insert "stackLimitBytes" (json.Int 0) configObj in
  let configObj := json.insert "userProcessesLimit" (json.Int 0) configObj in
  let configObj := json.insert "cpuLimit" (json.Int 0) configObj in
  let configObj := json.insert "niceLimit" (json.Int 0) configObj in
  let configObj := json.insert "filesLimit" (json.Int 0) configObj in
  let configObj := json.insert "cpuAffinity" (json.Arr []) configObj in
  let profileObj : json.Object := [] in
  let profileObj := json.insert "context" (json.Obj contextObj) profileObj in
  let profileObj :=
    json.insert "password" (json.Str (ProcessOptions.Password in_options)) profileObj in
  let profileObj :=
    json.insert "executablePath" (json.Str (ProcessOptions.Executable in_options)) profileObj in
  let profileObj := json.insert "config" (json.Obj configObj) profileObj in
  json.Obj profileObj.

Definition createLaunchProfile (in_options : ProcessOptions.t) : string :=
  json.write (launchProfile in_options).

(** The constructor of [AbstractChildProcess::Impl].  [in_arguments] and
    [in_environment] stand for the vectors that [createSandboxArguments] and
    [createEnvironmentVars] build from the options. *)
Definition Impl_new (in_rsandbox : string) (in_arguments in_environment : list string)
    (in_options : ProcessOptions.t) : Impl :=
  {| Arguments := in_rsandbox :: in_arguments;
     Environment := in_environment;
     StandardInput := createLaunchProfile in_options;
     StdErrFd := -1;
     StdInFd := -1;
     StdOutFd := -1;
     Pid := -1;
     RSandbox := in_rsandbox |}.

(** The raw string literal that [logProcessSpawn] searches for: a quote,
    the word password, a quote, a colon and a quote; twelve characters. *)
Definition password_key : string :=
  String json.dquote ("password" +:+ String json.dquote (":" +:+ String json.dquote EmptyString)).

Definition beforeLen : Z := 12.

(** The inner loop of [logProcessSpawn]:
    [while (lastSlashPos > bound) if (s[lastSlashPos] == '\\') --lastSlashPos; else break;]
    It runs at most [lastSlashPos - bound] times. *)
Fixpoint lastSlash_loop (fuel : nat) (s : string) (bound lastSlashPos : Z) : Z :=
  match fuel with
  | O => lastSlashPos
  | S fuel' =>
      if lastSlashPos >? bound then
        if Ascii.eqb (string_at s lastSlashPos) json.backslash
        then lastSlash_loop fuel' s bound (lastSlashPos - 1)
        else lastSlashPos
      else lastSlashPos
  end.

(** One turn of the [while (true)] loop of [logProcessSpawn]. *)
Inductive scan_step_result : Set :=
| ScanBreak (startPos2 : Z) (wasEmpty : bool)
| ScanAssert
| ScanAgain (startPos2 : Z).

Definition scan_step (s : string) (startPos1 startPos2 : Z) : scan_step_result :=
  let startPos2 := to_int32 (string_find_char s json.dquote (to_uint64 startPos2)) in
  if to_uint64 startPos2 =? npos then ScanAssert
  else
    let wasEmpty := startPos2 =? startPos1 + beforeLen in
    if wasEmpty then ScanBreak startPos2 true
    else
      let lastSlashPos := startPos2 - 1 in
      let lastSlashPos :=
        lastSlash_loop (Z.to_nat (lastSlashPos - (startPos1 + beforeLen))) s
          (startPos1 + beforeLen) lastSlashPos in
      if Z.rem (startPos2 - lastSlashPos) 2 =? 0
      then ScanBreak startPos2 false
      else ScanAgain startPos2.

(** How the loop is left: by a [break], or by the failing [assert]. *)
Inductive scan_end : Set :=
| Found (startPos2 : Z) (wasEmpty : bool)
| Asserted.

(** The [while (true)] loop; [None] when [fuel] turns were not enough. *)
Fixpoint scan_loop (fuel : nat) (s : string) (startPos1 startPos2 : Z) : option scan_end :=
  match fuel with
  | O => None
  | S fuel' =>
      match scan_step s startPos1 startPos2 with
      | ScanBreak p e => Some (Found p e)
      | ScanAssert => Some Asserted
      | ScanAgain p => scan_loop fuel' s startPos1 p
      end
  end.

(** How a function of the engine ends: it returns, it is stopped by a
    failing [assert], or it is still running when the fuel or the answers of
    the system are used up. *)
Inductive result (A : Type) : Type :=
| Returned (a : A)
| AssertFails
| Unfinished.

Arguments Returned {A} a.
Arguments AssertFails {A}.
Arguments Unfinished {A}.

Definition redaction_marker : string := "<redacted>".

(** The body of [logProcessSpawn] up to the call of the logger: the value of
    [strippedStdin]. *)
Definition stripPassword (fuel : nat) (StandardInput : string) : result string :=
  let strippedStdin := EmptyString in
  let startPos1 := to_int32 (string_find StandardInput password_key) in
  let startPos2 := startPos1 + beforeLen in
  if negb (to_uint64 startPos1 =? npos) then
    match scan_loop fuel StandardInput startPos1 startPos2 with
    | None => Unfinished
    | Some Asserted => AssertFails
    | Some (Found startPos2 wasEmpty) =>
        if wasEmpty then Returned StandardInput
        else
          Returned
            (substr StandardInput 0 (startPos1 + beforeLen)
               +:+ redaction_marker +:+ substr_from StandardInput startPos2)
    end
  else Returned strippedStdin.

Definition newline : string := String "010"%char EmptyString.

(** [logProcessSpawn]: the message given to [logDebugMessage]. *)
Definition logProcessSpawn (fuel : nat) (this : Impl) : result string :=
  match stripPassword fuel (StandardInput this) with
  | Unfinished => Unfinished
  | AssertFails => AssertFails
  | Returned strippedStdin =>
      Returned ("Launching rsandbox. " +:+ newline +:+ "Args "
                  +:+ String.concat " " (Arguments this)
                  +:+ newline +:+ "Launch Profile: " +:+ strippedStdin)
  end.

(** ** The parent *)

(** [Error]: [Success()], [systemError(errno, ...)], or the [io_error] that
    [writeToPipe] makes of a short write. *)
Inductive Err : Set :=
| Success
| systemError (code : Z)
| io_error.

(** [if (error)] *)
Definition isError (e : Err) : bool :=
  match e with Success => false | _ => true end.

(** What the parent asks of the system and of the logger, in order. *)
Inductive action : Set :=
| call_getrlimit
| call_pipe
| call_fork
| call_close (fd : Z)
| call_scandir (pid : Z)
| call_write_fd (fd value : Z)
| call_write (fd : Z) (data : string)
| call_read (fd : Z)
| call_kill (pid sig : Z)
| call_waitpid (pid : Z)
| logDebugMessage (message : string)
| logError (e : Err).

(** What the system answers.  A call that can fail answers [inl errno] when
    it returned [-1] (after [posixCall] has retried the interrupted calls)
    and [inr] its value otherwise. *)
Record OS : Type := mkOS {
  os_getrlimit : Z + rlimit;
  os_pipe : list (Z + Z * Z);
  os_fork : Z + Z;
  os_close : Z -> Z + unit;
  os_scandir : Z -> Z + list Z;
  os_write_fd : Z -> Z -> Z + Z;
  os_write : Z -> string -> Z + Z;
  os_read : Z -> list (Z + string);
  os_kill : Z -> Z -> Z + unit;
  os_waitpid : Z -> Z + Z * Z
}.

Definition trace : Set := list action.

(** [closePipe(int, ...)]: the failure is only logged. *)
Definition closePipe (os : OS) (in_pipeFd : Z) : trace :=
  match os_close os in_pipeFd with
  | inl errno => [call_close in_pipeFd; logError (systemError errno)]
  | inr _ => [call_close in_pipeFd]
  end.

(** [closePipe(int*, ...)] *)
Definition closePipe2 (os : OS) (in_pipeFds : Z * Z) : trace :=
  closePipe os (s_readPipe in_pipeFds) ++ closePipe os (s_writePipe in_pipeFds).

(** [createPipes]: the four [::pipe] calls are answered from [os_pipe] in
    order (a missing answer is a failure with [errno = 0]); the pipes made
    so far are closed when a later one cannot be made. *)
Definition nth_pipe (os : OS) (n : nat) : Z + Z * Z :=
  List.nth n (os_pipe os) (inl 0).

Definition createPipes (os : OS) : Err * FileDescriptors * trace :=
  let none := (0, 0) in
  match nth_pipe os 0 with
  | inl e => (systemError e, mkFileDescriptors none none none none, [call_pipe])
  | inr input =>
      match nth_pipe os 1 with
      | inl e =>
          (systemError e, mkFileDescriptors input none none none,
           [call_pipe; call_pipe] ++ closePipe2 os input)
      | inr output =>
          match nth_pipe os 2 with
          | inl e =>
              (systemError e, mkFileDescriptors input output none none,
               [call_pipe; call_pipe; call_pipe]
                 ++ closePipe2 os input ++ closePipe2 os output)
          | inr error =>
              match nth_pipe os 3 with
              | inl e =>
                  (systemError e, mkFileDescriptors input output error none,
                   [call_pipe; call_pipe; call_pipe; call_pipe]
                     ++ closePipe2 os input ++ closePipe2 os output ++ closePipe2 os error)
              | inr closeFd =>
                  (Success, mkFileDescriptors input output error closeFd,
                   [call_pipe; call_pipe; call_pipe; call_pipe])
              end
          end
      end
  end.

(** The loop of [sendFileDescriptors] over the open descriptors. *)
Fixpoint send_each (os : OS) (closeFd : Z) (openFds : list Z) : Err * trace :=
  match openFds with
  | [] => (Success, [])
  | openFd :: rest =>
      match os_write_fd os closeFd openFd with
      | inl errno => (systemError errno, [call_write_fd closeFd openFd])
      | inr _ =>
          let '(e, t) := send_each os closeFd rest in
          (e, call_write_fd closeFd openFd :: t)
      end
  end.

(** [sendFileDescriptors].  When the last write fails, the function returns
    [error], the result of the enumeration, as the source has it. *)
Definition sendFileDescriptors (os : OS) (closeFd in_childPid : Z) : Err * trace :=
  let '(error, t, returned) :=
    match os_scandir os in_childPid with
    | inl errno =>
        (systemError errno,
         [call_scandir in_childPid; logError (systemError errno)], false)
    | inr openFds =>
        let '(e, t) := send_each os closeFd (List.map to_uint32 openFds) in
        (e, call_scandir in_childPid :: t, isError e)
    end in
  if returned then (error, t)
  else
    match os_write_fd os closeFd (-1) with
    | inl _ => (error, t ++ [call_write_fd closeFd (-1)])
    | inr _ => (Success, t ++ [call_write_fd closeFd (-1)])
    end.

(** [writeToPipe] *)
Definition writeToPipe (os : OS) (in_fd : Z) (in_data : string) (in_eof : bool)
    : Err * trace :=
  match os_write os in_fd in_data with
  | inl errno => (systemError errno, [call_write in_fd in_data])
  | inr bytesWritten =>
      let t := call_write in_fd in_data :: (if in_eof then closePipe os in_fd else []) in
      if negb (bytesWritten =? size in_data) then (io_error, t) else (Success, t)
  end.

(** The loop of [readFromPipe] over the answers of the successive reads:
    [inl errno] for [-1], [inr] the bytes read, none at the end of the
    stream.  [None] when the answers run out with the loop still reading. *)
Fixpoint readFromPipe_loop (in_fd : Z) (reads : list (Z + string)) (out_data : string)
    : option (Err * string * trace) :=
  match reads with
  | [] => None
  | r :: rest =>
      match r with
      | inl errno =>
          if errno =? EAGAIN then Some (Success, out_data, [call_read in_fd])
          else Some (systemError errno, out_data, [call_read in_fd])
      | inr EmptyString => Some (Success, out_data, [call_read in_fd])
      | inr buffer =>
          match readFromPipe_loop in_fd rest (out_data +:+ buffer) with
          | None => None
          | Some (e, d, t) => Some (e, d, call_read in_fd :: t)
          end
      end
  end.

Definition readFromPipe (os : OS) (in_fd : Z) (out_data : string)
    : option (Err * string * trace) :=
  readFromPipe_loop in_fd (os_read os in_fd) out_data.

(** [AbstractChildProcess::terminate] *)
Definition terminate (os : OS) (this : Impl) : Err * trace :=
  if Pid this =? -1 then (systemError ESRCH, [])
  else
    match os_kill os (- Pid this) SIGTERM with
    | inl errno =>
        if (errno =? EPERM) || (errno =? ESRCH)
        then (Success, [call_kill (- Pid this) SIGTERM])
        else (systemError errno, [call_kill (- Pid this) SIGTERM])
    | inr _ => (Success, [call_kill (- Pid this) SIGTERM])
    end.

(** [AbstractChildProcess::run] in the parent, that is for a [fork] that
    did not return 0.  A failed [fork] leaves [-1] in [pid] and its error in
    [error], which the parent's branch then overwrites. *)
Definition AbstractChildProcess_run (fuel : nat) (os : OS) (this : Impl)
    : result (Err * Impl * trace) :=
  match logProcessSpawn fuel this with
  | Unfinished => Unfinished
  | AssertFails => AssertFails
  | Returned message =>
      let t0 := [logDebugMessage message] in
      match os_getrlimit os with
      | inl errno => Returned (systemError errno, this, t0 ++ [call_getrlimit])
      | inr fileLimit =>
          let '(softLimit, hardLimit) := getFilesLimit fileLimit in
          let '(error, fds, t1) := createPipes os in
          if isError error then Returned (error, this, t0 ++ [call_getrlimit] ++ t1)
          else
            let pid := match os_fork os with inl _ => -1 | inr pid => pid end in
            let t2 :=
              closePipe os (s_readPipe (Input fds))
                ++ closePipe os (s_writePipe (Output fds))
                ++ closePipe os (s_writePipe (Error fds))
                ++ closePipe os (s_readPipe (CloseFd fds)) in
            let this :=
              {| Arguments := Arguments this;
                 Environment := Environment this;
                 StandardInput := StandardInput this;
                 StdErrFd := s_readPipe (Error fds);
                 StdInFd := s_writePipe (Input fds);
                 StdOutFd := s_readPipe (Output fds);
                 Pid := Pid this;
                 RSandbox := RSandbox this |} in
            let '(error, t3) := sendFileDescriptors os (s_writePipe (CloseFd fds)) pid in
            let t4 := closePipe os (s_writePipe (CloseFd fds)) in
            Returned (error, this, t0 ++ [call_getrlimit] ++ t1 ++ [call_fork] ++ t2 ++ t3 ++ t4)
      end
  end.

(** [struct ProcessResult] *)
Record ProcessResult : Set := mkProcessResult {
  StdOut : string;
  StdError : string;
  ExitCode : Z
}.

(** [WIFEXITED] and [WEXITSTATUS] of [<sys/wait.h>]. *)
Definition WIFEXITED (status : Z) : bool := Z.land status 127 =? 0.
Definition WEXITSTATUS (status : Z) : Z := Z.shiftr (Z.land status 65280) 8.

(** [SyncChildProcess::run] *)
Definition SyncChildProcess_run (fuel : nat) (os : OS) (this : Impl)
    (out_result : ProcessResult) : result (Err * Impl * ProcessResult * trace) :=
  match AbstractChildProcess_run fuel os this with
  | Unfinished => Unfinished
  | AssertFails => AssertFails
  | Returned (error, this, t0) =>
      if isError error then Returned (error, this, out_result, t0)
      else
        let '(error, t1) :=
          if negb (string_empty (StandardInput this)) then
            let '(error, t) := writeToPipe os (StdInFd this) (StandardInput this) true in
            if isError error then
              let '(terminateError, tk) := terminate os this in
              (error,
               t ++ tk ++ (if isError terminateError then [logError terminateError] else []))
            else (error, t)
          else (error, []) in
        match
          (if negb (isError error)
           then readFromPipe os (StdOutFd this) (StdOut out_result)
           else Some (error, StdOut out_result, []))
        with
        | None => Unfinished
        | Some (error, out, t2) =>
            match
              (if negb (isError error)
               then readFromPipe os (StdErrFd this) (StdError out_result)
               else Some (error, StdError out_result, []))
            with
            | None => Unfinished
            | Some (error, err, t3) =>
                let t := t0 ++ t1 ++ t2 ++ t3 ++ [call_waitpid (Pid this)] in
                match os_waitpid os (Pid this) with
                | inl errno =>
                    let out_result := mkProcessResult out err (-1) in
                    if errno =? ECHILD then Returned (Success, this, out_result, t)
                    else Returned (systemError errno, this, out_result, t)
                | inr (result, status) =>
                    let out_result :=
                      mkProcessResult out err
                        (if WIFEXITED status then WEXITSTATUS status else status) in
                    Returned (Success, this, out_result, t)
                end
            end
        end
  end.

(** The sweep as the specification words it: from the first user descriptor
    up to the soft limit, or up to 1024 when that limit is unbounded, without
    the control pipe's descriptor. *)
Definition claimed_sweep (softLimit in_pipeFd : Z) : list Z :=
  List.filter (fun fd => negb (fd =? in_pipeFd))
    (seqZ startFd ((if softLimit =? RLIM_INFINITY then 1024 else softLimit) - startFd)).

(** ** Sample processes *)

(** A child with the descriptors 0 to 10 and 2000 open: the standard
    streams, the four pipes and one descriptor inherited from the parent. *)
Definition inherited_table : Child :=
  mkChild (list_to_set (seqZ 0 11) ∪ {[2000]}) [].

Definition four_pipes : FileDescriptors :=
  mkFileDescriptors (3, 4) (5, 6) (7, 8) (9, 10).

Definition setup_succeeds : child_setup := mkChildSetup 0 0 0 1 2.

(** The parent is gone before it wrote anything: the read returns 0. *)
Definition pipe_closed_early : list read_outcome := [mkRead 0 0 (-2)].

(** A password character that the JSON writer leaves as it is and that is
    neither a quote nor a backslash; a password made of such characters. *)
Definition plain_char (c : ascii) : bool :=
  negb (Ascii.eqb c json.dquote) && negb (Ascii.eqb c json.backslash)
  && Nat.leb 32 (nat_of_ascii c).

Fixpoint plain (s : string) : bool :=
  match s with
  | EmptyString => true
  | String c rest => plain_char c && plain rest
  end.

(** The options of a launch on behalf of the user bob. *)
Definition options_of (executable password stdInput : string) : ProcessOptions.t :=
  ProcessOptions.mk executable password (User.mk false false "bob") stdInput.

(** The text of bob's launch profile before the password member and after
    the quote that closes the password. *)
Definition profile_head : string :=
  "{" +:+ json.write_string "context" +:+ ":"
    +:+ json.write (json.Obj [("username", json.Str "bob"); ("project", json.Str EmptyString);
                              ("id", json.Str EmptyString)])
    +:+ ",".

Definition profile_tail (executable stdInput : string) : string :=
  "," +:+ json.write_string "executablePath" +:+ ":" +:+ json.write (json.Str executable)
    +:+ "," +:+ json.write_string "config" +:+ ":"
    +:+ json.write
          (json.Obj [("args", json.Arr []); ("environment", json.Obj []);
                     ("stdInput", json.Str stdInput); ("stdStreamBehavior", json.Int 2);
                     ("priority", json.Int 0); ("memoryLimitBytes", json.Int 0);
                     ("stackLimitBytes", json.Int 0); ("userProcessesLimit", json.Int 0);
                     ("cpuLimit", json.Int 0); ("niceLimit", json.Int 0);
                     ("filesLimit", json.Int 0); ("cpuAffinity", json.Arr [])])
    +:+ "}".

(** The user name that [createLaunchProfile] writes, and the text of the
    launch profile before the password member for that name. *)
Definition launch_username (in_options : ProcessOptions.t) : string :=
  if User.isAllUsers (ProcessOptions.RunAsUser in_options)
     || User.isEmpty (ProcessOptions.RunAsUser in_options)
  then EmptyString
  else User.getUsername (ProcessOptions.RunAsUser in_options).

Definition profile_head_of (username : string) : string :=
  "{" +:+ json.write_string "context" +:+ ":"
    +:+ json.write (json.Obj [("username", json.Str username);
                              ("project", json.Str EmptyString);
                              ("id", json.Str EmptyString)])
    +:+ ",".

(** The fixed text of the profile on both sides of the user name. *)
Definition profile_open : string :=
  "{" +:+ json.write_string "context" +:+ ":{" +:+ json.write_string "username" +:+ ":".

Definition profile_rest : string :=
  "," +:+ json.write_string "project" +:+ ":" +:+ json.write_string EmptyString
    +:+ "," +:+ json.write_string "id" +:+ ":" +:+ json.write_string EmptyString +:+ "},".

(** The end of [password_key] after the word; [rejects pattern text]:
    [pattern] differs from [text] at a character of
    [text], so that it matches at the start of no extension of [text];
    [key_free text]: this holds of [password_key] at every position of
    [text]. *)
Definition key_end : string :=
  String json.dquote (":" +:+ String json.dquote EmptyString).

Fixpoint rejects (pattern text : string) : bool :=
  match pattern, text with
  | String x pattern', String c text' =>
      if Ascii.eqb x c then rejects pattern' text' else true
  | _, _ => false
  end.

Fixpoint key_free (text : string) : bool :=
  match text with
  | EmptyString => true
  | String c text' => rejects password_key text && key_free text'
  end.

(** Options with a given password, and the process object made of them. *)
Definition sample_options (password : string) : ProcessOptions.t :=
  options_of "/bin/ls" password EmptyString.

(** The password a, b, quote, c. *)
Definition password_with_quote : string :=
  "ab" +:+ String json.dquote "c".

Definition sample_process (password : string) : Impl :=
  Impl_new "/usr/lib/rstudio-server/bin/rsandbox" ["/bin/sh"; "-c"; "/bin/ls"] []
    (sample_options password).

(** A system in which the launch succeeds with the child 4242, the child
    writes [hello] to its standard output and exits with the status 0, and
    the write of the payload fails or not as [write_answer] says. *)
Definition sample_os (write_answer : Z + Z) : OS :=
  {| os_getrlimit := inr (mkRlimit 1024 4096);
     os_pipe := [inr (3, 4); inr (5, 6); inr (7, 8); inr (9, 10)];
     os_fork := inr 4242;
     os_close := fun _ => inr tt;
     os_scandir := fun _ => inr [0; 1; 2; 4; 5; 7; 10];
     os_write_fd := fun _ _ => inr 4;
     os_write := fun _ _ => write_answer;
     os_read := fun fd => if fd =? 5 then [inr "hello"; inr EmptyString] else [inr EmptyString];
     os_kill := fun _ _ => inr tt;
     os_waitpid := fun _ => inr (4242, 0) |}.

(** The sample process after [run]: the parent's ends of the data pipes
    are stored. *)
Definition sample_launched : Impl :=
  {| Arguments := Arguments (sample_process EmptyString);
     Environment := Environment (sample_process EmptyString);
     StandardInput := StandardInput (sample_process EmptyString);
     StdErrFd := 7;
     StdInFd := 4;
     StdOutFd := 5;
     Pid := -1;
     RSandbox := RSandbox (sample_process EmptyString) |}.

(** [EPIPE] *)
Definition EPIPE : Z := 32.

(** ** The rest of the launch: arguments, environment, exec *)

Definition squote : ascii := "039"%char.

(** [boost::regex_replace(arg, pattern, ...)] for the pattern that matches a
    single quote: every single quote becomes the five characters quote,
    double quote, quote, double quote, quote. *)
Fixpoint replace_quotes (arg : string) : string :=
  match arg with
  | EmptyString => EmptyString
  | String c rest =>
      if Ascii.eqb c squote
      then String squote (String json.dquote (String squote (String json.dquote
             (String squote (replace_quotes rest)))))
      else String c (replace_quotes rest)
  end.

(** [escape(const std::string&)] *)
Definition escape (arg : string) : string :=
  String squote (replace_quotes arg +:+ String squote EmptyString).

(** How [/bin/sh] reads a word that is made of quoted parts only: between
    single quotes every character stands for itself, between double quotes
    a single quote does; anything else is not taken. *)
Inductive quoting : Set := Unquoted | InSingle | InDouble.

Fixpoint sh_unquote (state : quoting) (word : string) : option string :=
  match word with
  | EmptyString => match state with Unquoted => Some EmptyString | _ => None end
  | String c rest =>
      match state with
      | Unquoted =>
          if Ascii.eqb c squote then sh_unquote InSingle rest
          else if Ascii.eqb c json.dquote then sh_unquote InDouble rest
          else None
      | InSingle =>
          if Ascii.eqb c squote then sh_unquote Unquoted rest
          else option_map (String c) (sh_unquote InSingle rest)
      | InDouble =>
          if Ascii.eqb c json.dquote then sh_unquote Unquoted rest
          else if Ascii.eqb c squote then option_map (String c) (sh_unquote InDouble rest)
          else None
      end
  end.

(** The number of single quotes of a string. *)
Fixpoint count_quotes (arg : string) : nat :=
  match arg with
  | EmptyString => O
  | String c rest => ((if Ascii.eqb c squote then 1 else 0) + count_quotes rest)%nat
  end.

(** [createEnvironmentVars]: the loop over [in_options.Environment], with
    the vector built so far and [pathFound]. *)
Fixpoint createEnvironmentVars_loop (vars : list (string * string))
    (Environment : list string) (pathFound : bool) : list string * bool :=
  match vars with
  | [] => (Environment, pathFound)
  | envVar :: rest =>
      let pathFound := if String.eqb (fst envVar) "PATH" then true else pathFound in
      createEnvironmentVars_loop rest
        (Environment ++ [fst envVar +:+ "=" +:+ snd envVar]) pathFound
  end.

(** [createEnvironmentVars]; [PATH] is [posix::getEnvironmentVariable] of
    that name in the parent. *)
Definition createEnvironmentVars (in_environment : list (string * string))
    (PATH : string) : list string :=
  let '(Environment, pathFound) := createEnvironmentVars_loop in_environment [] false in
  if negb pathFound then Environment ++ ["PATH=" +:+ PATH] else Environment.

Module Mount.
(** [api::Mount], the members that the arguments read; [HostSourcePath] is
    the path of the optional [HostMountSource]. *)
Record t : Set := mk {
  HostSourcePath : option string;
  DestinationPath : string;
  IsReadOnly : bool
}.
End Mount.

Module SandboxOptions.
(** [struct ProcessOptions], the members that [createSandboxArguments]
    reads.  A [FilePath] is held as its absolute path, the empty path as the
    empty string. *)
Record t : Set := mk {
  Executable : string;
  Arguments : list string;
  IsShellCommand : bool;
  Mounts : list Mount.t;
  PamProfile : string;
  RunAsUser : User.t;
  StandardErrorFile : string;
  StandardOutputFile : string;
  WorkingDirectory : string
}.
End SandboxOptions.

(** The loop [for (arg : in_options.Arguments) shellCommand.append(...)]. *)
Fixpoint append_arguments (shellCommand : string) (args : list string) : string :=
  match args with
  | [] => shellCommand
  | arg :: rest => append_arguments (shellCommand +:+ " " +:+ escape arg) rest
  end.

(** The shell command that [createSandboxArguments] assembles. *)
Definition shellCommand_of (in_options : SandboxOptions.t) : string :=
  let shellCommand :=
    append_arguments (SandboxOptions.Executable in_options)
      (SandboxOptions.Arguments in_options) in
  let redirectStdout := negb (string_empty (SandboxOptions.StandardOutputFile in_options)) in
  let redirectStderr := negb (string_empty (SandboxOptions.StandardErrorFile in_options)) in
  let redirectToSame :=
    redirectStdout && redirectStderr
    && String.eqb (SandboxOptions.StandardOutputFile in_options)
         (SandboxOptions.StandardErrorFile in_options) in
  let shellCommand :=
    if SandboxOptions.IsShellCommand in_options && (redirectStdout || redirectStderr)
    then "(" +:+ (shellCommand +:+ ")") else shellCommand in
  let shellCommand :=
    if redirectStdout
    then shellCommand +:+ " > " +:+ escape (SandboxOptions.StandardOutputFile in_options)
    else shellCommand in
  if redirectToSame then shellCommand +:+ " 2>&1"
  else if redirectStderr
  then shellCommand +:+ " 2> " +:+ escape (SandboxOptions.StandardErrorFile in_options)
  else shellCommand.

(** The loop over the mounts. *)
Fixpoint mount_arguments (mounts : list Mount.t) : list string :=
  match mounts with
  | [] => []
  | mount :: rest =>
      match Mount.HostSourcePath mount with
      | Some path =>
          ["--mount";
           escape (path +:+ ":" +:+ Mount.DestinationPath mount
                     +:+ (if Mount.IsReadOnly mount then ":ro" else EmptyString))]
            ++ mount_arguments rest
      | None => mount_arguments rest
      end
  end.

(** [createSandboxArguments]: what is appended to [Arguments].  The test of
    the user is the source's, which asks [isAllUsers] twice. *)
Definition createSandboxArguments (in_options : SandboxOptions.t) : list string :=
  (if negb (User.isAllUsers (SandboxOptions.RunAsUser in_options))
      && negb (User.isAllUsers (SandboxOptions.RunAsUser in_options))
   then ["--username"; User.getUsername (SandboxOptions.RunAsUser in_options)] else [])
  ++ (if negb (string_empty (SandboxOptions.WorkingDirectory in_options))
      then ["--workingdir"; SandboxOptions.WorkingDirectory in_options] else [])
  ++ (if negb (string_empty (SandboxOptions.PamProfile in_options))
      then ["--pam-profile"; SandboxOptions.PamProfile in_options] else [])
  ++ mount_arguments (SandboxOptions.Mounts in_options)
  ++ ["/bin/sh"; "-c"; shellCommand_of in_options].

(** The constructor of [AbstractChildProcess::Impl] with the two vectors
    built from the options. *)
Definition Impl_construct (in_rsandbox PATH : string) (in_environment : list (string * string))
    (in_sandbox : SandboxOptions.t) (in_options : ProcessOptions.t) : Impl :=
  Impl_new in_rsandbox (createSandboxArguments in_sandbox)
    (createEnvironmentVars in_environment PATH) in_options.

(** The options of the sample launch as [createSandboxArguments] reads
    them, and the process object that the constructor makes of both. *)
Definition sample_sandbox : SandboxOptions.t :=
  SandboxOptions.mk "/bin/ls" [] false [] EmptyString (User.mk false false "bob")
    EmptyString EmptyString EmptyString.

Definition sample_constructed (password : string) : Impl :=
  Impl_construct "/usr/lib/rstudio-server/bin/rsandbox" "/usr/bin:/bin" []
    sample_sandbox (sample_options password).

(** The call that ends [execChild]: [CStringList::isEmpty] holds of an
    empty vector. *)
Inductive exec_call : Set :=
| execv (path : string) (argv : list string)
| execve (path : string) (argv envp : list string).

Definition execChild_exec (this : Impl) : exec_call :=
  if vector_empty (Environment this)
  then execv (RSandbox this) (Arguments this)
  else execve (RSandbox this) (Arguments this) (Environment this).

(** ** The control pipe between parent and child *)

(** What the child reads from the control pipe when the parent wrote what
    the trace says and every read delivers one whole value: the parent
    writes a [uint32_t] or the [int] -1, the child reads an [int32_t]. *)
Fixpoint control_pipe_reads (closeFd : Z) (t : trace) : list read_outcome :=
  match t with
  | [] => []
  | call_write_fd fd value :: rest =>
      if fd =? closeFd
      then mkRead 4 0 (to_int32 value) :: control_pipe_reads closeFd rest
      else control_pipe_reads closeFd rest
  | _ :: rest => control_pipe_reads closeFd rest
  end.

(** The descriptors that the first loop of [closeParentFds] closes of those
    it is sent. *)
Definition wanted (in_pipeFd in_maxFd : Z) (fd : Z) : bool :=
  (fd >=? startFd) && (fd <? in_maxFd) && negb (fd =? in_pipeFd).

(** [closeFd] on each descriptor of a list, in order. *)
Definition close_all (fds : list Z) (w : Child) : Child :=
  fold_left (fun w fd => closeFd fd w) fds w.

(** The wait status of a child that left with [exit(code)], and of one
    that a signal ended. *)
Definition status_exited (code : Z) : Z := Z.shiftl code 8.
Definition status_signaled (sig : Z) : Z := sig.

(** What the end of [SyncChildProcess::run] makes of the answer to
    [waitpid]: the return value and the exit code. *)
Definition wait_outcome (os : OS) (pid : Z) : Err * Z :=
  match os_waitpid os pid with
  | inl errno => (if errno =? ECHILD then Success else systemError errno, -1)
  | inr (_, status) => (Success, if WIFEXITED status then WEXITSTATUS status else status)
  end.

(** ** Reading a trace *)

(** The descriptors that a trace closes, in order. *)
Fixpoint closed_fds (t : trace) : list Z :=
  match t with
  | [] => []
  | call_close fd :: rest => fd :: closed_fds rest
  | _ :: rest => closed_fds rest
  end.

(** The system calls of a trace, without the log entries. *)
Definition is_logged (a : action) : bool :=
  match a with
  | logDebugMessage _ | logError _ => true
  | _ => false
  end.

Definition system_calls (t : trace) : trace :=
  List.filter (fun a => negb (is_logged a)) t.

(** How an entry of the environment vector is written. *)
Definition environment_entry (envVar : string * string) : string :=
  fst envVar +:+ "=" +:+ snd envVar.

End Process.

(** * Request decoding

    [api/Request.cpp] is not among the sources; only its tests are.  The
    decoder below is written from section 4.1 of the specification, with
    the field names of its section 6. *)

Module Request.

(** [Request::Type], the enumerators the specification names; [OTHER]
    stands for the remaining ones. *)
Inductive Type_ : Set :=
| HEARTBEAT
| BOOTSTRAP
| GET_CLUSTER_INFO
| GET_JOB
| GET_JOB_STATUS
| OTHER (tag : Z).

Definition FIELD_MESSAGE_TYPE : string := "messageType".
Definition FIELD_REQUEST_ID : string := "requestId".
Definition FIELD_VERSION : string := "version".
Definition FIELD_VERSION_MAJOR : string := "major".
Definition FIELD_VERSION_MINOR : string := "minor".
Definition FIELD_VERSION_PATCH : string := "patch".
Definition FIELD_REAL_USER : string := "realUser".
Definition FIELD_REQUEST_USERNAME : string := "requestUsername".
Definition FIELD_JOB_ID : string := "jobId".
Definition FIELD_ENCODED_JOB_ID : string := "encodedJobId".
Definition FIELD_JOB_END_TIME : string := "jobEndTime".
Definition FIELD_JOB_START_TIME : string := "jobStartTime".
Definition FIELD_JOB_FIELDS : string := "jobFields".
Definition FIELD_JOB_STATUSES : string := "jobStatuses".
Definition FIELD_JOB_TAGS : string := "jobTags".
Definition FIELD_CANCEL_STREAM : string := "cancelStream".

(** A tri-state optional field: absent, present and valid, present and
    invalid. *)
Inductive tri (A : Type) : Type :=
| Absent
| Valid (a : A)
| Invalid.

Arguments Absent {A}.
Arguments Valid {A} a.
Arguments Invalid {A}.

(** Why a document is rejected. *)
Inductive DecodeError : Set :=
| MissingField (name : string)
| TypeOutOfRange (value : Z)
| InvalidRequest.

(** Modelled from the spec: the text of the errors of [api/Request.cpp]; a
    missing field is named, a type out of range is printed as the number it
    is. *)
Definition getMessage (e : DecodeError) : string :=
  match e with
  | MissingField name => "Invalid request received from launcher: missing field " +:+ name
  | TypeOutOfRange value =>
      "Invalid request type received from launcher: " +:+ json.Z_to_string value
  | InvalidRequest => "Invalid request received from launcher"
  end.

(** [needle] occurs in [text]. *)
Definition occurs_in (needle text : string) : Prop :=
  exists before after, text = before +:+ needle +:+ after.

(** Removing a member from a document. *)
Fixpoint erase (name : string) (obj : json.Object) : json.Object :=
  match obj with
  | [] => []
  | (k, w) :: rest =>
      if String.eqb k name then erase name rest else (k, w) :: erase name rest
  end.

(** An array of strings. *)
Fixpoint strings_of (items : list json.Value) : option (list string) :=
  match items with
  | [] => Some []
  | json.Str s :: rest => option_map (cons s) (strings_of rest)
  | _ :: _ => None
  end.

(** A list of optional values, all of which must be there. *)
Fixpoint all_some {A} (l : list (option A)) : option (list A) :=
  match l with
  | [] => Some []
  | Some a :: rest => option_map (cons a) (all_some rest)
  | None :: _ => None
  end.

(** What a document holds under a name: the string of a string member, the
    strings of a member that is an array of strings; nothing for a member
    that is absent or of another type. *)
Definition string_member (doc : json.Object) (name : string) : option string :=
  match json.find name doc with
  | Some (json.Str s) => Some s
  | _ => None
  end.

Definition strings_member (doc : json.Object) (name : string) : option (list string) :=
  match json.find name doc with
  | Some (json.Arr items) => strings_of items
  | _ => None
  end.

Section Decoding.

(** The highest known type and the enumerator of a value in range, both
    fixed by [api/Request.hpp]. *)
Variable highestKnownType : Z.
Variable type_of_int : Z -> Type_.

(** The collaborators that the specification leaves outside: the identity
    resolver, the parser of date-times and the names of the job states. *)
Context {User DateTime State : Type}.
Variable allUsers : User.
Variable getUserFromIdentifier : string -> option User.
Variable DateTime_fromString : string -> option DateTime.
Variable State_fromString : string -> option State.

(** [JobStateRequest] *)
Record JobStateRequest : Type := mkJobStateRequest {
  jsr_User : User;
  jsr_RequestUsername : string;
  JobId : string;
  EncodedJobId : string;
  EndTime : tri DateTime;
  FieldSet : option (gset string);
  StartTime : tri DateTime;
  StatusSet : tri (list State);
  TagSet : option (gset string)
}.

(** A job request with its end time replaced. *)
Definition with_EndTime (r : JobStateRequest) (t : tri DateTime) : JobStateRequest :=
  {| jsr_User := jsr_User r;
     jsr_RequestUsername := jsr_RequestUsername r;
     JobId := JobId r;
     EncodedJobId := EncodedJobId r;
     EndTime := t;
     FieldSet := FieldSet r;
     StartTime := StartTime r;
     StatusSet := StatusSet r;
     TagSet := TagSet r |}.

(** The variants of a request. *)
Inductive Body : Type :=
| NoBody
| BootstrapBody (major minor patch : Z)
| UserBody (user : User) (requestUsername : string)
| JobStateBody (r : JobStateRequest)
| JobStatusBody (user : User) (requestUsername : string)
    (jobId encodedJobId : string) (cancelStream : bool).

Record Request : Type := mkRequest {
  Id : Z;
  RequestType : Type_;
  body : Body
}.

(** A field that was looked at: its value if it is acceptable, and the
    entries written to the log. *)
Definition checked (A : Type) : Type := option A * list string.

Definition required_int (doc : json.Object) (name : string) : checked Z :=
  match json.find name doc with
  | Some (json.Int z) => (Some z, [])
  | _ => (None, [name])
  end.

Definition required_string (doc : json.Object) (name : string) : checked string :=
  match json.find name doc with
  | Some (json.Str s) => (Some s, [])
  | _ => (None, [name])
  end.

Definition optional_string (doc : json.Object) (name : string) : checked (option string) :=
  match json.find name doc with
  | None => (Some None, [])
  | Some (json.Str s) => (Some (Some s), [])
  | Some _ => (None, [name])
  end.

Definition optional_bool (doc : json.Object) (name : string) (default : bool)
    : checked bool :=
  match json.find name doc with
  | None => (Some default, [])
  | Some (json.Bool b) => (Some b, [])
  | Some _ => (None, [name])
  end.

Definition optional_strings (doc : json.Object) (name : string)
    : checked (option (list string)) :=
  match json.find name doc with
  | None => (Some None, [])
  | Some (json.Arr items) =>
      match strings_of items with
      | Some l => (Some (Some l), [])
      | None => (None, [name])
      end
  | Some _ => (None, [name])
  end.

(** The user of a user-scoped request: the star is all users, any other
    identifier goes through the resolver. *)
Definition user_of (doc : json.Object) : checked User :=
  match json.find FIELD_REAL_USER doc with
  | Some (json.Str s) =>
      if String.eqb s "*" then (Some allUsers, [])
      else
        match getUserFromIdentifier s with
        | Some u => (Some u, [])
        | None => (None, [FIELD_REAL_USER])
        end
  | _ => (None, [FIELD_REAL_USER])
  end.

(** A date-time that was given: valid if it parses, invalid if not. *)
Definition time_of (s : option string) : tri DateTime :=
  match s with
  | None => Absent
  | Some text =>
      match DateTime_fromString text with
      | Some t => Valid t
      | None => Invalid
      end
  end.

(** The statuses that were given: invalid as soon as one name is unknown. *)
Definition statuses_of (l : option (list string)) : tri (list State) :=
  match l with
  | None => Absent
  | Some names =>
      match all_some (List.map State_fromString names) with
      | Some states => Valid states
      | None => Invalid
      end
  end.

(** The field set that was given, with the identifier field added. *)
Definition fields_of (l : option (list string)) : option (gset string) :=
  option_map (fun names => {["id"]} ∪ list_to_set names) l.

Definition tags_of (l : option (list string)) : option (gset string) :=
  option_map (fun names => list_to_set names) l.

(** Modelled from the spec: the constructors of the request subtypes of
    [api/Request.cpp]; the validation of the subtype, step 3 and step 4. *)
Definition decode_body (t : Type_) (doc : json.Object) : checked Body :=
  match t with
  | HEARTBEAT | OTHER _ => (Some NoBody, [])
  | BOOTSTRAP =>
      match json.find FIELD_VERSION doc with
      | Some (json.Obj version) =>
          let '(major, l1) := required_int version FIELD_VERSION_MAJOR in
          let '(minor, l2) := required_int version FIELD_VERSION_MINOR in
          let '(patch, l3) := required_int version FIELD_VERSION_PATCH in
          (match major, minor, patch with
           | Some a, Some b, Some c => Some (BootstrapBody a b c)
           | _, _, _ => None
           end, l1 ++ l2 ++ l3)
      | _ => (None, [FIELD_VERSION])
      end
  | GET_CLUSTER_INFO =>
      let '(user, l1) := user_of doc in
      let '(name, l2) := optional_string doc FIELD_REQUEST_USERNAME in
      (match user, name with
       | Some u, Some n => Some (UserBody u (default EmptyString n))
       | _, _ => None
       end, l1 ++ l2)
  | GET_JOB =>
      let '(user, l1) := user_of doc in
      let '(name, l2) := optional_string doc FIELD_REQUEST_USERNAME in
      let '(jobId, l3) := required_string doc FIELD_JOB_ID in
      let '(encoded, l4) := optional_string doc FIELD_ENCODED_JOB_ID in
      let '(endTime, l5) := optional_string doc FIELD_JOB_END_TIME in
      let '(fields, l6) := optional_strings doc FIELD_JOB_FIELDS in
      let '(startTime, l7) := optional_string doc FIELD_JOB_START_TIME in
      let '(statuses, l8) := optional_strings doc FIELD_JOB_STATUSES in
      let '(tags, l9) := optional_strings doc FIELD_JOB_TAGS in
      (match user, name, jobId, encoded, endTime, fields, startTime, statuses, tags with
       | Some u, Some n, Some j, Some e, Some et, Some f, Some st, Some ss, Some tg =>
           Some (JobStateBody
                   {| jsr_User := u;
                      jsr_RequestUsername := default EmptyString n;
                      JobId := j;
                      EncodedJobId := default EmptyString e;
                      EndTime := time_of et;
                      FieldSet := fields_of f;
                      StartTime := time_of st;
                      StatusSet := statuses_of ss;
                      TagSet := tags_of tg |})
       | _, _, _, _, _, _, _, _, _ => None
       end, l1 ++ l2 ++ l3 ++ l4 ++ l5 ++ l6 ++ l7 ++ l8 ++ l9)
  | GET_JOB_STATUS =>
      let '(user, l1) := user_of doc in
      let '(name, l2) := optional_string doc FIELD_REQUEST_USERNAME in
      let '(jobId, l3) := required_string doc FIELD_JOB_ID in
      let '(encoded, l4) := optional_string doc FIELD_ENCODED_JOB_ID in
      let '(cancel, l5) := optional_bool doc FIELD_CANCEL_STREAM false in
      (match user, name, jobId, encoded, cancel with
       | Some u, Some n, Some j, Some e, Some c =>
           Some (JobStatusBody u (default EmptyString n) j (default EmptyString e) c)
       | _, _, _, _, _ => None
       end, l1 ++ l2 ++ l3 ++ l4 ++ l5)
  end.

(** Modelled from the spec: [Request::fromJson] of [api/Request.cpp], which
    is not among the sources.  Step 1 looks at the type and fails on its
    own, without a log entry; then the base validation (the request id) and
    the validation of the subtype both run and write their failures to the
    log, the base first; a failure of either rejects the document.  The
    result is the request or the error, and the log. *)
Definition fromJson (doc : json.Object) : (DecodeError + Request) * list string :=
  match json.find FIELD_MESSAGE_TYPE doc with
  | Some (json.Int value) =>
      if (value <? 0) || (value >? highestKnownType)
      then (inl (TypeOutOfRange value), [])
      else
        let t := type_of_int value in
        let '(id, l1) := required_int doc FIELD_REQUEST_ID in
        let '(b, l2) := decode_body t doc in
        (match id, b with
         | Some i, Some b => inr (mkRequest i t b)
         | _, _ => inl InvalidRequest
         end, l1 ++ l2)
  | _ => (inl (MissingField FIELD_MESSAGE_TYPE), [])
  end.

(** Modelled from the spec: the accessors of the tri-state fields of
    [JobStateRequest]; whether the accessor reports an error, and the
    optional value it hands out. *)
Definition get_tri {A} (field : tri A) : bool * option A :=
  match field with
  | Absent => (false, None)
  | Valid a => (false, Some a)
  | Invalid => (true, None)
  end.

Definition getEndTime (r : JobStateRequest) : bool * option DateTime := get_tri (EndTime r).
Definition getStartTime (r : JobStateRequest) : bool * option DateTime := get_tri (StartTime r).
Definition getStatusSet (r : JobStateRequest) : bool * option (list State) :=
  get_tri (StatusSet r).

End Decoding.

(** ** Sample collaborators and documents

    A numbering of the types, a resolver that knows every user but one, a
    parser that knows two date-times and the names of four job states; the
    documents are those of the tests. *)
Definition sample_highestKnownType : Z := 4.

Definition sample_type_of_int (value : Z) : Type_ :=
  if value =? 0 then HEARTBEAT
  else if value =? 1 then BOOTSTRAP
  else if value =? 2 then GET_CLUSTER_INFO
  else if value =? 3 then GET_JOB
  else if value =? 4 then GET_JOB_STATUS
  else OTHER value.

Definition sample_getUserFromIdentifier (identifier : string) : option string :=
  if String.eqb identifier "notauser" then None else Some identifier.

Definition sample_DateTime_fromString (text : string) : option Z :=
  if String.eqb text "2020-03-15T15:00:00" then Some 15
  else if String.eqb text "2020-03-15T18:00:00" then Some 18
  else None.

Definition sample_State_fromString (name : string) : option string :=
  if existsb (String.eqb name) ["Pending"; "Running"; "Completed"; "Failed"]
  then Some name else None.

Definition sample_fromJson :=
  fromJson sample_highestKnownType sample_type_of_int "*" sample_getUserFromIdentifier
    sample_DateTime_fromString sample_State_fromString.

(** The document of the test of an invalid date-time. *)
Definition invalid_date_request : json.Object :=
  [(FIELD_MESSAGE_TYPE, json.Int 3);
   (FIELD_REQUEST_ID, json.Int 91);
   (FIELD_REAL_USER, json.Str "usertwo");
   (FIELD_REQUEST_USERNAME, json.Str "usertwo");
   (FIELD_ENCODED_JOB_ID, json.Str "Y2x1c3Rlci0xNDIK");
   (FIELD_JOB_ID, json.Str "444");
   (FIELD_JOB_START_TIME, json.Str "2020-03-15T15:00:00");
   (FIELD_JOB_END_TIME, json.Str "not a date time")].

(** The same request with a projection, a status filter and tags. *)
Definition invalid_date_request_with_filters : json.Object :=
  invalid_date_request
    ++ [(FIELD_JOB_FIELDS, json.Arr [json.Str "status"; json.Str "statusMessage"]);
        (FIELD_JOB_STATUSES, json.Arr [json.Str "Running"; json.Str "Failed"]);
        (FIELD_JOB_TAGS, json.Arr [json.Str "nightly"])].

(** The documents of the tests of a missing, a negative and a too large
    message type. *)
Definition missing_type_request : json.Object :=
  [(FIELD_REQUEST_ID, json.Int 6)].

Definition typed_request (value : Z) : json.Object :=
  [(FIELD_MESSAGE_TYPE, json.Int value); (FIELD_REQUEST_ID, json.Int 6)].

End Request.

(* ===================================================================== *)
(** * Properties *)
(* ===================================================================== *)

(** ** Response identifiers *)

Section ResponseIds.
Import Response.

Lemma to_uint64_small z : 0 <= z < uint64_modulus -> to_uint64 z = z.
Proof. intros H. unfold to_uint64. now apply Z.mod_small. Qed.

Lemma to_uint64_range z : 0 <= to_uint64 z < uint64_modulus.
Proof. unfold to_uint64, uint64_modulus. apply Z.mod_pos_bound. lia. Qed.

Lemma to_uint64_add_l a b : to_uint64 (to_uint64 a + b) = to_uint64 (a + b).
Proof. unfold to_uint64. apply Zplus_mod_idemp_l. Qed.

Lemma Impl_new_out_of_band t rid c :
  is_heartbeat_or_error t = true -> Impl_new t rid c = (mkImpl t rid 0, c).
Proof. intros H. unfold Impl_new. now rewrite H. Qed.

Lemma Impl_new_substantive t rid c :
  is_heartbeat_or_error t = false ->
  Impl_new t rid c = (mkImpl t rid c, to_uint64 (c + 1)).
Proof. intros H. unfold Impl_new. now rewrite H. Qed.

Lemma construct_all_cons q reqs c :
  construct_all (q :: reqs) c =
  (fst (Response_new (fst q) (snd q) c)
     :: fst (construct_all reqs (snd (Response_new (fst q) (snd q) c))),
   snd (construct_all reqs (snd (Response_new (fst q) (snd q) c)))).
Proof.
  destruct q as [t rid]. simpl.
  destruct (Response_new t rid c) as [r c1]. simpl.
  now destruct (construct_all reqs c1).
Qed.

Lemma construct_all_app reqs1 reqs2 c :
  construct_all (reqs1 ++ reqs2) c =
  (fst (construct_all reqs1 c) ++ fst (construct_all reqs2 (snd (construct_all reqs1 c))),
   snd (construct_all reqs2 (snd (construct_all reqs1 c)))).
Proof.
  revert c. induction reqs1 as [|q reqs1 IH]; intros c.
  - simpl. now destruct (construct_all reqs2 c).
  - rewrite <- app_comm_cons, !construct_all_cons, IH. reflexivity.
Qed.

(** A run of heartbeat and error responses: every id is 0, the counter is
    where it was. *)
Lemma construct_all_out_of_band oob c :
  Forall (fun q => is_heartbeat_or_error (fst q) = true) oob ->
  snd (construct_all oob c) = c /\
  Forall (fun r => ResponseId r = 0) (fst (construct_all oob c)).
Proof.
  induction 1 as [|q oob Hq _ IH].
  - simpl. split; [reflexivity | constructor].
  - rewrite construct_all_cons. unfold Response_new.
    rewrite (Impl_new_out_of_band _ _ _ Hq). simpl.
    destruct IH as [IH1 IH2]. split; [exact IH1 | constructor; [reflexivity | exact IH2]].
Qed.

Lemma reachable_range c : reachable c -> 0 <= c < uint64_modulus.
Proof.
  induction 1 as [|c t rid _ IH].
  - unfold NEXT_RESPONSE_ID_init, uint64_modulus. lia.
  - unfold Response_new, Impl_new.
    destruct (is_heartbeat_or_error t); simpl; [exact IH | apply to_uint64_range].
Qed.

Lemma range_reachable c : 0 <= c < uint64_modulus -> reachable c.
Proof.
  intros [H0 H1]. revert H1. pattern c. apply natlike_ind; [| | exact H0].
  - intros _. apply reachable_init.
  - intros n Hn IH Hlt.
    replace (Z.succ n) with (snd (Response_new CLUSTER_INFO 0 n)).
    + apply reachable_step, IH. lia.
    + unfold Response_new. rewrite Impl_new_substantive by reflexivity. simpl.
      apply to_uint64_small. lia.
Qed.

(** The ids of the substantive responses of a run are the consecutive counter
    values, modulo [2^64]. *)
Lemma substantive_ids reqs : forall c,
  0 <= c < uint64_modulus ->
  List.map ResponseId (List.filter substantive (fst (construct_all reqs c))) =
  List.map (fun i => to_uint64 (c + Z.of_nat i))
    (seq 0 (List.length (List.filter substantive_req reqs))).
Proof.
  induction reqs as [|[t rid] reqs IH]; intros c Hc; [reflexivity|].
  rewrite construct_all_cons. cbn [fst snd List.filter].
  unfold Response_new, substantive_req, substantive. cbn [fst].
  destruct (is_heartbeat_or_error t) eqn:Ht.
  - rewrite (Impl_new_out_of_band _ _ _ Ht). cbn. rewrite Ht. cbn.
    apply IH, Hc.
  - rewrite (Impl_new_substantive _ _ _ Ht). cbn. rewrite Ht. cbn.
    f_equal.
    + rewrite Z.add_0_r. symmetry. now apply to_uint64_small.
    + unfold substantive, substantive_req in IH. rewrite IH by apply to_uint64_range.
      rewrite <- seq_shift, List.map_map. apply List.map_ext. intros i.
      rewrite to_uint64_add_l. f_equal. lia.
Qed.

Lemma to_uint64_offsets_inj c (i j : nat) :
  Z.of_nat i < uint64_modulus -> Z.of_nat j < uint64_modulus ->
  to_uint64 (c + Z.of_nat i) = to_uint64 (c + Z.of_nat j) -> i = j.
Proof.
  unfold to_uint64. intros Hi Hj H.
  assert (HM : 0 < uint64_modulus) by (unfold uint64_modulus; lia).
  pose proof (Z.div_mod (c + Z.of_nat i) uint64_modulus ltac:(lia)) as Ei.
  pose proof (Z.div_mod (c + Z.of_nat j) uint64_modulus ltac:(lia)) as Ej.
  rewrite H in Ei.
  set (qi := (c + Z.of_nat i) / uint64_modulus) in *.
  set (qj := (c + Z.of_nat j) / uint64_modulus) in *.
  assert (Hd : Z.of_nat i - Z.of_nat j = uint64_modulus * (qi - qj)) by lia.
  assert (qi - qj = 0) by nia.
  lia.
Qed.

End ResponseIds.

Section ResponseClaims.
Import Response.

(** C1.  A HEARTBEAT or ERROR response carries [ResponseId = 0] and leaves
    the shared counter where it was; a response of any other type takes the
    counter's value as its id and advances the counter by [fetch_add 1].
    Hence any number of HEARTBEAT/ERROR responses constructed between two
    substantive ones change neither the second one (its id included) nor the
    counter it leaves behind. *)
Theorem C1_heartbeat_error_do_not_consume_ids :
  forall (t : Type_) (rid counter : Z),
    (is_heartbeat_or_error t = true ->
       ResponseId (fst (Response_new t rid counter)) = 0 /\
       snd (Response_new t rid counter) = counter) /\
    (is_heartbeat_or_error t = false ->
       ResponseId (fst (Response_new t rid counter)) = fst (fetch_add 1 counter) /\
       snd (Response_new t rid counter) = snd (fetch_add 1 counter)) /\
    (forall (q1 q2 : Type_ * Z) (oob : list (Type_ * Z)),
       Forall (fun q => is_heartbeat_or_error (fst q) = true) oob ->
       last (fst (construct_all (q1 :: oob ++ [q2]) counter)) =
         last (fst (construct_all [q1; q2] counter)) /\
       snd (construct_all (q1 :: oob ++ [q2]) counter) =
         snd (construct_all [q1; q2] counter)).
Proof.
  intros t rid counter. split; [|split].
  - intros Ht. unfold Response_new. rewrite (Impl_new_out_of_band _ _ _ Ht). now split.
  - intros Ht. unfold Response_new. rewrite (Impl_new_substantive _ _ _ Ht). now split.
  - intros q1 q2 oob Hoob.
    rewrite (construct_all_cons q1 (oob ++ [q2])), (construct_all_cons q1 [q2]).
    set (c1 := snd (Response_new (fst q1) (snd q1) counter)).
    rewrite construct_all_app.
    destruct (construct_all_out_of_band oob c1 Hoob) as [Hc _]. rewrite Hc.
    cbn [fst snd]. split; [|reflexivity].
    rewrite construct_all_cons. cbn [fst snd construct_all].
    rewrite app_comm_cons, last_snoc. reflexivity.
Qed.

(** The test of the specification: a thousand heartbeats and errors between
    two CLUSTER_INFO responses. *)
Lemma C1_witness :
  last (fst (construct_all
               ((CLUSTER_INFO, 1) :: (repeat (HEARTBEAT, 0) 500 ++ repeat (ERROR, 7) 500)
                                  ++ [(CLUSTER_INFO, 2)]) 41)) =
    Some (mkImpl CLUSTER_INFO 2 42) /\
  ResponseId (fst (Response_new HEARTBEAT 0 41)) = 0 /\
  ResponseId (fst (Response_new CLUSTER_INFO 0 41)) = 41.
Proof.
  split; [|split].
  - refine (eq_trans (proj1 (proj2 (proj2
        (C1_heartbeat_error_do_not_consume_ids HEARTBEAT 0 41))
        (CLUSTER_INFO, 1) (CLUSTER_INFO, 2)
        (repeat (HEARTBEAT, 0) 500 ++ repeat (ERROR, 7) 500) _)) _).
    + apply Forall_app; split; apply List.Forall_forall; intros q Hq;
        apply repeat_spec in Hq; subst q; reflexivity.
    + vm_compute. reflexivity.
  - apply (proj1 (C1_heartbeat_error_do_not_consume_ids HEARTBEAT 0 41)). reflexivity.
  - refine (eq_trans (proj1 (proj1 (proj2
        (C1_heartbeat_error_do_not_consume_ids CLUSTER_INFO 0 41)) _)) _); reflexivity.
Defined.

(** C2, as the specification states it, fails where the 64-bit counter wraps:
    the counter value [2^64 - 1] is reachable, the response constructed there
    takes the id [2^64 - 1] and the next one the id [0]. *)
Lemma C2_counterexample :
  ~ (forall (counter : Z) (t1 t2 : Type_) (rid1 rid2 : Z),
       reachable counter ->
       is_heartbeat_or_error t1 = false ->
       is_heartbeat_or_error t2 = false ->
       ResponseId (fst (Response_new t1 rid1 counter)) <
       ResponseId (fst (Response_new t2 rid2 (snd (Response_new t1 rid1 counter))))).
Proof.
  intros H.
  specialize (H (uint64_modulus - 1) CLUSTER_INFO BOOTSTRAP 1 2).
  assert (R : reachable (uint64_modulus - 1)).
  { apply range_reachable. unfold uint64_modulus. lia. }
  specialize (H R eq_refl eq_refl).
  vm_compute in H. discriminate H.
Qed.

(** C2, amended.  Two substantive responses constructed one after the other
    (heartbeats and errors may come between them) carry strictly increasing
    ids unless the first drew the last counter value [2^64 - 1]; and the
    substantive responses of any run, when there are at most [2^64] of them,
    carry pairwise distinct ids. *)
Theorem C2_substantive_ids_increase_and_differ :
  forall (counter : Z),
    0 <= counter < uint64_modulus ->
    (forall (t1 t2 : Type_) (rid1 rid2 : Z) (oob : list (Type_ * Z)) (r1 r2 : Impl),
       is_heartbeat_or_error t1 = false ->
       is_heartbeat_or_error t2 = false ->
       Forall (fun q => is_heartbeat_or_error (fst q) = true) oob ->
       counter <> uint64_modulus - 1 ->
       head (fst (construct_all ((t1, rid1) :: oob ++ [(t2, rid2)]) counter)) = Some r1 ->
       last (fst (construct_all ((t1, rid1) :: oob ++ [(t2, rid2)]) counter)) = Some r2 ->
       ResponseId r1 < ResponseId r2) /\
    (forall (reqs : list (Type_ * Z)),
       Z.of_nat (List.length (List.filter substantive_req reqs)) <= uint64_modulus ->
       NoDup (List.map ResponseId
                (List.filter substantive (fst (construct_all reqs counter))))).
Proof.
  intros counter Hc. split.
  - intros t1 t2 rid1 rid2 oob r1 r2 H1 H2 Hoob Hne Hhd Hlast.
    rewrite construct_all_cons in Hhd, Hlast. cbn [fst snd] in Hhd, Hlast.
    unfold Response_new in Hhd, Hlast.
    rewrite (Impl_new_substantive _ _ _ H1) in Hhd, Hlast. cbn [fst snd head] in Hhd, Hlast.
    injection Hhd as <-.
    rewrite construct_all_app in Hlast.
    destruct (construct_all_out_of_band oob (to_uint64 (counter + 1)) Hoob) as [Ec _].
    rewrite Ec in Hlast. cbn [fst snd construct_all] in Hlast.
    unfold Response_new in Hlast. rewrite (Impl_new_substantive _ _ _ H2) in Hlast.
    cbn [fst snd] in Hlast.
    rewrite app_comm_cons, last_snoc in Hlast. injection Hlast as <-.
    cbn [ResponseId]. rewrite to_uint64_small; lia.
  - intros reqs Hn. rewrite substantive_ids by exact Hc.
    apply NoDup_ListNoDup.
    apply NoDup_map_NoDup_ForallPairs; [|apply List.seq_NoDup].
    intros i j Hi Hj. apply in_seq in Hi, Hj.
    apply to_uint64_offsets_inj; lia.
Qed.

Lemma C2_witness :
  ResponseId (mkImpl CLUSTER_INFO 1 5) < ResponseId (mkImpl BOOTSTRAP 2 6) /\
  NoDup (List.map ResponseId
           (List.filter substantive
              (fst (construct_all [(BOOTSTRAP, 1); (HEARTBEAT, 0); (CLUSTER_INFO, 2)] 5)))).
Proof.
  assert (Hc : 0 <= 5 < uint64_modulus) by (unfold uint64_modulus; lia).
  split.
  - apply (proj1 (C2_substantive_ids_increase_and_differ 5 Hc)
             CLUSTER_INFO BOOTSTRAP 1 2 [(HEARTBEAT, 0); (ERROR, 3)]).
    + reflexivity.
    + reflexivity.
    + repeat constructor.
    + unfold uint64_modulus. lia.
    + reflexivity.
    + reflexivity.
  - apply (proj2 (C2_substantive_ids_increase_and_differ 5 Hc)).
    unfold uint64_modulus. simpl. lia.
Defined.

(** C10.  In a fresh process the first response that is neither a HEARTBEAT
    nor an ERROR is given [ResponseId = 0], whatever heartbeats and errors
    were constructed before it, and those carry the id 0 as well: the id 0
    does not tell the two kinds apart. *)
Theorem C10_first_substantive_response_has_id_zero :
  forall (oob : list (Type_ * Z)) (t : Type_) (rid : Z),
    Forall (fun q => is_heartbeat_or_error (fst q) = true) oob ->
    is_heartbeat_or_error t = false ->
    Forall (fun r => ResponseId r = 0)
      (fst (construct_all (oob ++ [(t, rid)]) NEXT_RESPONSE_ID_init)) /\
    last (fst (construct_all (oob ++ [(t, rid)]) NEXT_RESPONSE_ID_init)) =
      Some (mkImpl t rid 0) /\
    ResponseId (fst (Response_new HEARTBEAT 0 NEXT_RESPONSE_ID_init)) =
      ResponseId (fst (Response_new t rid NEXT_RESPONSE_ID_init)).
Proof.
  intros oob t rid Hoob Ht.
  rewrite construct_all_app.
  destruct (construct_all_out_of_band oob NEXT_RESPONSE_ID_init Hoob) as [Ec Hids].
  rewrite Ec. cbn [fst snd construct_all]. unfold Response_new.
  rewrite (Impl_new_substantive _ _ _ Ht). cbn [fst snd].
  split; [|split].
  - apply Forall_app. split; [exact Hids | now constructor].
  - apply last_snoc.
  - reflexivity.
Qed.

Lemma C10_witness :
  last (fst (construct_all ([(HEARTBEAT, 0); (ERROR, 4)] ++ [(CLUSTER_INFO, 9)])
               NEXT_RESPONSE_ID_init)) = Some (mkImpl CLUSTER_INFO 9 0).
Proof.
  apply (C10_first_substantive_response_has_id_zero
           [(HEARTBEAT, 0); (ERROR, 4)] CLUSTER_INFO 9).
  - repeat constructor.
  - reflexivity.
Defined.

End ResponseClaims.

(** ** The CLUSTER_INFO document *)

Section ClusterInfoClaims.
Import Response.

Variable Type_to_int : Type_ -> Z.
Context {JobConfig PlacementConstraint ResourceLimit : Type}.
Context `{!json.ToJson JobConfig, !json.ToJson PlacementConstraint,
          !json.ToJson ResourceLimit}.

(** C6.  [ClusterInfoResponse::toJson] always writes [containerSupport] and
    the arrays [config], [resourceLimits] and [placementConstraints], empty
    or not.  A response made by the container-aware constructor has
    [containerSupport = true], [allowUnknownImages] and [images], and has
    [defaultImage] exactly when the default image is not the empty string; a
    response made by the other constructor has [containerSupport = false]
    and none of [allowUnknownImages], [images], [defaultImage].  [queues] is
    written exactly when the list of queues is not empty. *)
Theorem C6_cluster_info_fields :
  forall (rid counter : Z) (images : list string) (defaultImage : string)
         (allow : bool) (queues : list string) (limits : list ResourceLimit)
         (constraints : list PlacementConstraint) (config : list JobConfig),
    let aware :=
      ClusterInfoResponse_toJson Type_to_int
        (fst (ClusterInfoResponse_new_containers rid images defaultImage allow
                queues limits constraints config counter)) in
    let plain :=
      ClusterInfoResponse_toJson Type_to_int
        (fst (ClusterInfoResponse_new rid queues limits constraints config counter)) in
    let always (doc : json.Object) :=
      json.find FIELD_CONFIG doc = Some (json.Arr (List.map json.toJson config)) /\
      json.find FIELD_RESOURCE_LIMITS doc = Some (json.Arr (List.map json.toJson limits)) /\
      json.find FIELD_PLACEMENT_CONSTRAINTS doc =
        Some (json.Arr (List.map json.toJson constraints)) /\
      json.find FIELD_QUEUES doc =
        (if vector_empty queues then None else Some (json.toJsonArray queues)) in
    always aware /\ always plain /\
    json.find FIELD_CONTAINER_SUPPORT aware = Some (json.Bool true) /\
    json.find FIELD_ALLOW_UNKNOWN_IMAGES aware = Some (json.Bool allow) /\
    json.find FIELD_IMAGES aware = Some (json.toJsonArray images) /\
    json.find FIELD_DEFAULT_IMAGE aware =
      (if string_empty defaultImage then None else Some (json.Str defaultImage)) /\
    json.find FIELD_CONTAINER_SUPPORT plain = Some (json.Bool false) /\
    json.find FIELD_ALLOW_UNKNOWN_IMAGES plain = None /\
    json.find FIELD_IMAGES plain = None /\
    json.find FIELD_DEFAULT_IMAGE plain = None.
Proof.
  intros rid counter images defaultImage allow queues limits constraints config.
  cbv zeta.
  unfold ClusterInfoResponse_new_containers, ClusterInfoResponse_new, Response_new.
  rewrite Impl_new_substantive by reflexivity. cbn [fst].
  destruct defaultImage as [|a d]; destruct queues as [|q qs];
    repeat split; reflexivity.
Qed.

End ClusterInfoClaims.

(** ** Descriptor hygiene in the child *)

Section DescriptorHygiene.
Import Process.

Lemma to_uint32_small z : 0 <= z < uint32_modulus -> to_uint32 z = z.
Proof. intros H. unfold to_uint32. now apply Z.mod_small. Qed.

Lemma to_uint32_range z : 0 <= to_uint32 z < uint32_modulus.
Proof. unfold to_uint32, uint32_modulus. apply Z.mod_pos_bound. lia. Qed.

(** The sweep closes the descriptors from [fd] up to [maxFd], the pipe's
    excepted, in ascending order, and nothing else. *)
Lemma closeParentFds_sweep_spec maxFd pipe :
  maxFd < uint32_modulus ->
  forall fuel fd w,
    0 <= fd ->
    (Z.to_nat (maxFd - fd) <= fuel)%nat ->
    close_calls (closeParentFds_sweep fuel fd maxFd pipe w) =
      close_calls w ++
      List.filter (fun x => negb (x =? to_uint32 pipe)) (seqZ fd (maxFd - fd)) /\
    (forall x, x ∈ open_fds (closeParentFds_sweep fuel fd maxFd pipe w) <->
               x ∈ open_fds w /\ ~ (fd <= x < maxFd /\ x <> to_uint32 pipe)).
Proof.
  intros Hmax. induction fuel as [|fuel IH]; intros fd w Hfd Hfuel.
  - assert (maxFd - fd <= 0) by lia.
    rewrite seqZ_nil by lia. cbn. rewrite app_nil_r. split; [reflexivity|].
    intros x. split; [intros Hx; split; [exact Hx | lia] | now intros [Hx _]].
  - cbn [closeParentFds_sweep]. destruct (Z.ltb_spec fd maxFd) as [Hlt|Hge].
    + rewrite (to_uint32_small (fd + 1)) by lia.
      rewrite seqZ_cons by lia. cbn [List.filter].
      replace (Z.pred (maxFd - fd)) with (maxFd - (fd + 1)) by lia.
      replace (Z.succ fd) with (fd + 1) by lia.
      match goal with |- context [closeParentFds_sweep fuel (fd + 1) maxFd pipe ?w'] =>
        destruct (IH (fd + 1) w' ltac:(lia) ltac:(lia)) as [IHc IHo] end.
      rewrite IHc. split.
      * destruct (Z.eqb_spec fd (to_uint32 pipe)); cbn; [reflexivity|].
        now rewrite <- app_assoc.
      * intros x. rewrite IHo.
        destruct (Z.eqb_spec fd (to_uint32 pipe)); cbn.
        -- split; intros [Hx Hn]; (split; [exact Hx | lia]).
        -- rewrite elem_of_difference, elem_of_singleton.
           split; [intros [[Hx Hne] Hn] | intros [Hx Hn]]; repeat split; try assumption; lia.
    + rewrite seqZ_nil by lia. cbn. rewrite app_nil_r. split; [reflexivity|].
      intros x. split; [intros Hx; split; [exact Hx | lia] | now intros [Hx _]].
Qed.

(** The read loop returns once the script holds a read that ends it. *)
Lemma closeParentFds_read_returns pipe maxFd reads :
  existsb ends_reading reads = true ->
  forall fdsRead w, is_Some (closeParentFds_read pipe maxFd reads fdsRead w).
Proof.
  induction reads as [|r reads IH]; [discriminate|].
  intros H fdsRead w. cbn [existsb] in H. cbn [closeParentFds_read].
  unfold ends_reading in H.
  destruct (bytesRead r <=? 0).
  - destruct (negb (errno_after r =? EINTR) && negb (errno_after r =? EAGAIN));
      [eexists; reflexivity | apply IH, H].
  - destruct (buffer_after r =? -1); [eexists; reflexivity | apply IH, H].
Qed.

End DescriptorHygiene.

Section DescriptorHygieneClaims.
Import Process.

(** C3, as the specification states it, fails: [run] hands the hard limit to
    the child, not the soft limit.  With the limits 1024 (soft) and 4096
    (hard) the sweep also closes the descriptors from 1024 to 4095, 2000
    among them; with a soft limit of 4096 and an unbounded hard limit the
    sweep stops at 1024 and the descriptor 2000, below the soft limit, stays
    open. *)
Lemma C3_counterexample :
  (exists w,
     run_child (mkRlimit 1024 4096) four_pipes setup_succeeds pipe_closed_early
       inherited_table = ChildExec w /\
     close_calls w <> claimed_sweep 1024 9 /\
     2000 ∈ close_calls w) /\
  (exists w,
     run_child (mkRlimit 4096 RLIM_INFINITY) four_pipes setup_succeeds pipe_closed_early
       inherited_table = ChildExec w /\
     close_calls w <> claimed_sweep 4096 9 /\
     2000 ∈ claimed_sweep 4096 9 /\
     (2000 ∉ close_calls w) /\
     (2000 ∈ open_fds w)).
Proof.
  split.
  - eexists. split; [vm_compute; reflexivity|]. split.
    + intros H. apply (f_equal (@List.length Z)) in H. revert H.
      apply (bool_decide_unpack _). vm_compute. exact I.
    + apply (bool_decide_unpack _). vm_compute. exact I.
  - eexists. split; [vm_compute; reflexivity|]. split; [|split; [|split]].
    + intros H. apply (f_equal (@List.length Z)) in H. revert H.
      apply (bool_decide_unpack _). vm_compute. exact I.
    + apply (bool_decide_unpack _). vm_compute. exact I.
    + apply (bool_decide_unpack _). vm_compute. exact I.
    + apply (bool_decide_unpack _). vm_compute. exact I.
Qed.

(** The fallback in general: the ceiling of the sweep is the limit that
    [run] passes on, narrowed to 32 bits. *)
Lemma fallback_sweep (fileLimit : rlimit) (fds : FileDescriptors) (setup : child_setup)
    (reads : list read_outcome) (w w0 w1 : Child) (error fdsRead : bool) :
  let in_pipeFd := s_readPipe (CloseFd fds) in
  let maxFd := sweep_maxFd (rlim_max fileLimit) in
  0 <= in_pipeFd < 2 ^ 31 ->
  execChild_connect fds setup w = inl w0 ->
  closeParentFds_read in_pipeFd (rlim_max fileLimit) reads false w0 =
    Some (error, fdsRead, w1) ->
  error || negb fdsRead = true ->
  exists w2,
    run_child fileLimit fds setup reads w = ChildExec (sys_close in_pipeFd w2) /\
    close_calls w2 =
      close_calls w1 ++
      List.filter (fun fd => negb (fd =? in_pipeFd)) (seqZ startFd (maxFd - startFd)) /\
    (forall fd, fd ∈ open_fds w2 <->
                fd ∈ open_fds w1 /\ ~ (startFd <= fd < maxFd /\ fd <> in_pipeFd)).
Proof.
  intros in_pipeFd maxFd Hpipe Hconnect Hread Hfallback.
  unfold run_child, getFilesLimit, execChild. rewrite Hconnect.
  unfold closeParentFds. fold in_pipeFd. rewrite Hread, Hfallback.
  eexists. split; [reflexivity|].
  fold maxFd.
  assert (Hp : to_uint32 in_pipeFd = in_pipeFd).
  { apply to_uint32_small. unfold uint32_modulus. lia. }
  pose proof (to_uint32_range
    (if rlim_max fileLimit =? RLIM_INFINITY then 1024 else rlim_max fileLimit)) as Hm.
  fold (sweep_maxFd (rlim_max fileLimit)) in Hm. fold maxFd in Hm.
  destruct (closeParentFds_sweep_spec maxFd in_pipeFd ltac:(lia)
              (Z.to_nat maxFd) startFd w1) as [Hc Ho].
  - unfold startFd, STDERR_FILENO. lia.
  - unfold startFd, STDERR_FILENO. lia.
  - rewrite Hp in Hc, Ho. split; [exact Hc | exact Ho].
Qed.

(** C3, amended.  When the read of the control pipe fails, or ends before
    any descriptor value arrived, the child closes every descriptor number
    from the first user descriptor (3) up to the hard limit of open files,
    which is the limit that [run] passes on (taken here below [2^32]), or up
    to 1024 when that hard limit is [RLIM_INFINITY]; it skips the control
    pipe's own descriptor, goes in ascending order and closes nothing
    else. *)
Theorem C3_fallback_sweeps_to_hard_limit :
  forall (fileLimit : rlimit) (fds : FileDescriptors) (setup : child_setup)
         (reads : list read_outcome) (w w0 w1 : Child) (error fdsRead : bool),
    let in_pipeFd := s_readPipe (CloseFd fds) in
    let maxFd :=
      if rlim_max fileLimit =? RLIM_INFINITY then 1024 else rlim_max fileLimit in
    0 <= in_pipeFd < 2 ^ 31 ->
    rlim_max fileLimit = RLIM_INFINITY \/ 0 <= rlim_max fileLimit < uint32_modulus ->
    execChild_connect fds setup w = inl w0 ->
    closeParentFds_read in_pipeFd (rlim_max fileLimit) reads false w0 =
      Some (error, fdsRead, w1) ->
    error || negb fdsRead = true ->
    exists w2,
      run_child fileLimit fds setup reads w = ChildExec (sys_close in_pipeFd w2) /\
      close_calls w2 =
        close_calls w1 ++
        List.filter (fun fd => negb (fd =? in_pipeFd)) (seqZ startFd (maxFd - startFd)) /\
      (forall fd, fd ∈ open_fds w2 <->
                  fd ∈ open_fds w1 /\ ~ (startFd <= fd < maxFd /\ fd <> in_pipeFd)).
Proof.
  intros fileLimit fds setup reads w w0 w1 error fdsRead in_pipeFd maxFd
    Hpipe Hlimit Hconnect Hread Hfallback.
  assert (Hmax : sweep_maxFd (rlim_max fileLimit) = maxFd).
  { unfold sweep_maxFd. fold maxFd. apply to_uint32_small. unfold maxFd.
    destruct (Z.eqb_spec (rlim_max fileLimit) RLIM_INFINITY) as [E|E].
    - unfold uint32_modulus. lia.
    - destruct Hlimit; [contradiction | assumption]. }
  destruct (fallback_sweep fileLimit fds setup reads w w0 w1 error fdsRead
              Hpipe Hconnect Hread Hfallback) as [w2 H].
  rewrite Hmax in H. exists w2. exact H.
Qed.

Lemma C3_witness :
  exists w2,
    run_child (mkRlimit 16 32) four_pipes setup_succeeds pipe_closed_early inherited_table =
      ChildExec (sys_close 9 w2) /\
    close_calls w2 =
      [3; 4; 5; 6; 7; 8; 10; 11; 12; 13; 14; 15; 16; 17; 18; 19; 20; 21; 22; 23; 24; 25;
       26; 27; 28; 29; 30; 31].
Proof.
  destruct (C3_fallback_sweeps_to_hard_limit (mkRlimit 16 32) four_pipes setup_succeeds
              pipe_closed_early inherited_table
              (mkChild (open_fds inherited_table ∖ {[4]} ∖ {[5]} ∖ {[7]} ∖ {[10]}
                          ∪ {[0]} ∪ {[1]} ∪ {[2]}) [])
              (mkChild (open_fds inherited_table ∖ {[4]} ∖ {[5]} ∖ {[7]} ∖ {[10]}
                          ∪ {[0]} ∪ {[1]} ∪ {[2]}) [])
              true false)
    as [w2 [Hrun [Hcalls _]]].
  - cbn. lia.
  - right. cbn. unfold uint32_modulus. lia.
  - reflexivity.
  - reflexivity.
  - reflexivity.
  - exists w2. split; [exact Hrun | exact Hcalls].
Defined.

End DescriptorHygieneClaims.

(** ** The parent: launch, termination and the synchronous run *)

Section ParentProcess.
Import Process.

(** [run] stores the three pipe ends and nothing else: the pid that [fork]
    returned is not written to [Pid], and the profile is left alone. *)
Lemma AbstractChildProcess_run_keeps_Pid fuel os this e this' t :
  AbstractChildProcess_run fuel os this = Returned (e, this', t) ->
  Pid this' = Pid this /\ StandardInput this' = StandardInput this.
Proof.
  unfold AbstractChildProcess_run.
  destruct (logProcessSpawn fuel this); try discriminate.
  destruct (os_getrlimit os) as [errno|fileLimit].
  - intros [= _ <- _]. now split.
  - cbn [getFilesLimit]. destruct (createPipes os) as [[error fds] t1].
    destruct (isError error).
    + intros [= _ <- _]. now split.
    + destruct (sendFileDescriptors _ _ _) as [error' t3].
      intros [= _ <- _]. now split.
Qed.

(** The policy of [terminate] for an object that holds a pid: the signal
    goes to the process group, and of the failures only those other than
    [EPERM] and [ESRCH] are returned. *)
Lemma terminate_with_pid os this :
  Pid this <> -1 ->
  snd (terminate os this) = [call_kill (- Pid this) SIGTERM] /\
  fst (terminate os this) =
    match os_kill os (- Pid this) SIGTERM with
    | inr _ => Success
    | inl errno =>
        if (errno =? EPERM) || (errno =? ESRCH) then Success else systemError errno
    end.
Proof.
  intros Hpid. unfold terminate.
  destruct (Z.eqb_spec (Pid this) (-1)) as [E|_]; [contradiction|].
  destruct (os_kill os (- Pid this) SIGTERM) as [errno|u]; [|now split].
  destruct ((errno =? EPERM) || (errno =? ESRCH)); now split.
Qed.

End ParentProcess.

Section ParentProcessClaims.
Import Process.

(** C7 fails on the code.  Whatever [fork] returned, a process object that
    was launched by [run] still has [Pid = -1]; [terminate] then sends no
    signal and returns the error [ESRCH], for a child that is running as
    for one that has exited. *)
Theorem C7_terminate_after_launch_sends_nothing :
  forall (fuel : nat) (os : OS) (rsandbox : string) (args env : list string)
         (options : ProcessOptions.t) (e : Err) (this : Impl) (t : trace),
    AbstractChildProcess_run fuel os (Impl_new rsandbox args env options) =
      Returned (e, this, t) ->
    Pid this = -1 /\ terminate os this = (systemError ESRCH, []).
Proof.
  intros fuel os rsandbox args env options e this t Hrun.
  destruct (AbstractChildProcess_run_keeps_Pid _ _ _ _ _ _ Hrun) as [Hpid _].
  cbn [Impl_new Pid] in Hpid. split; [exact Hpid|].
  unfold terminate. now rewrite Hpid.
Qed.

Lemma C7_witness :
  exists this t,
    AbstractChildProcess_run 1 (sample_os (inr 0)) (sample_process EmptyString) =
      Returned (Success, this, t) /\
    In call_fork t /\
    Pid this = -1 /\
    terminate (sample_os (inr 0)) this = (systemError ESRCH, []).
Proof.
  eexists. eexists. split; [vm_compute; reflexivity|]. split.
  - cbn. tauto.
  - eapply (C7_terminate_after_launch_sends_nothing 1 (sample_os (inr 0))
              "/usr/lib/rstudio-server/bin/rsandbox" ["/bin/sh"; "-c"; "/bin/ls"] []
              (sample_options EmptyString)).
    vm_compute. reflexivity.
Defined.

(** C4, as the specification states it, fails: the write of the payload
    fails with [EPIPE], the child has written [hello] to its standard
    output, and the run returns with an empty [StdOut] and without a single
    read of the pipes. *)
Lemma C4_counterexample :
  exists this out t,
    SyncChildProcess_run 1 (sample_os (inl EPIPE)) (sample_process EmptyString)
      (mkProcessResult EmptyString EmptyString 0) = Returned (Success, this, out, t) /\
    os_write (sample_os (inl EPIPE)) (StdInFd this) (StandardInput this) = inl EPIPE /\
    os_read (sample_os (inl EPIPE)) (StdOutFd this) = [inr "hello"; inr EmptyString] /\
    StdOut out = EmptyString /\
    Forall (fun a => match a with call_read _ => False | _ => True end) t.
Proof.
  eexists. eexists. eexists. split; [vm_compute; reflexivity|].
  split; [reflexivity|]. split; [reflexivity|]. split; [reflexivity|].
  repeat constructor.
Qed.

(** C4, amended.  When the write of the standard-input payload fails, the
    engine calls [terminate] and logs what [terminate] returns if that is an
    error; it does not read the output and error pipes, so [StdOut] and
    [StdError] of the result are what they were; it still waits for the
    child and returns: with the exit code decoded from the wait status, or
    with the exit code -1 when the wait fails, and with no other error than
    that of a wait that failed for another reason than [ECHILD]. *)
Theorem C4_failed_write_still_waits :
  forall (fuel : nat) (os : OS) (this0 this : Impl) (out_result : ProcessResult)
         (t0 tw : trace) (writeError : Err),
    AbstractChildProcess_run fuel os this0 = Returned (Success, this, t0) ->
    string_empty (StandardInput this) = false ->
    writeToPipe os (StdInFd this) (StandardInput this) true = (writeError, tw) ->
    isError writeError = true ->
    exists (e : Err) (exitCode : Z),
      SyncChildProcess_run fuel os this0 out_result =
        Returned
          (e, this, mkProcessResult (StdOut out_result) (StdError out_result) exitCode,
           t0 ++ tw ++ snd (terminate os this)
              ++ (if isError (fst (terminate os this))
                  then [logError (fst (terminate os this))] else [])
              ++ [call_waitpid (Pid this)]) /\
      (e, exitCode) =
        match os_waitpid os (Pid this) with
        | inl errno => (if errno =? ECHILD then Success else systemError errno, -1)
        | inr (_, status) =>
            (Success, if WIFEXITED status then WEXITSTATUS status else status)
        end.
Proof.
  intros fuel os this0 this out_result t0 tw writeError Hrun Hin Hwrite Herr.
  unfold SyncChildProcess_run. rewrite Hrun. cbn [isError].
  rewrite Hin. cbn [negb]. rewrite Hwrite. cbv beta iota zeta. rewrite Herr.
  destruct (terminate os this) as [terminateError tk].
  cbn [fst snd]. repeat (rewrite Herr; cbn [negb]; cbv beta iota zeta).
  cbn [app]. rewrite <- !app_assoc.
  destruct (os_waitpid os (Pid this)) as [errno|[result status]].
  - destruct (errno =? ECHILD); eexists; eexists; split; reflexivity.
  - eexists; eexists; split; reflexivity.
Qed.

Lemma C4_witness :
  exists e exitCode t,
    SyncChildProcess_run 1 (sample_os (inl EPIPE)) (sample_process EmptyString)
      (mkProcessResult "earlier" EmptyString 7) =
      Returned (e, sample_launched, mkProcessResult "earlier" EmptyString exitCode, t) /\
    (e, exitCode) = (Success, 0).
Proof.
  edestruct (C4_failed_write_still_waits 1 (sample_os (inl EPIPE))
               (sample_process EmptyString) sample_launched
               (mkProcessResult "earlier" EmptyString 7))
    as [e [exitCode [Hrun Hexit]]].
  - vm_compute. reflexivity.
  - reflexivity.
  - vm_compute. reflexivity.
  - reflexivity.
  - exists e, exitCode. eexists. split; [exact Hrun | exact Hexit].
Defined.

End ParentProcessClaims.

(** ** The password scan of [logProcessSpawn] *)

Section PasswordScan.
Import Process.

Lemma to_int32_small z : 0 <= z < 2 ^ 31 -> to_int32 z = z.
Proof.
  intros H. unfold to_int32, uint32_modulus.
  rewrite Z.mod_small by lia.
  destruct (Z.ltb_spec z (2 ^ 31)); [reflexivity | lia].
Qed.

(** [find] returns an index at or after the start, inside the string, that
    holds the character. *)
Lemma find_char_from_spec c s : forall pos i,
  find_char_from c s pos = Some i ->
  (pos <= i < String.length s)%nat /\ String.get i s = Some c.
Proof.
  induction s as [|x rest IH]; intros pos i H; [discriminate|].
  cbn [find_char_from] in H. destruct pos as [|pos'].
  - destruct (Ascii.eqb_spec x c) as [->|_].
    + injection H as <-. cbn. split; [lia | reflexivity].
    + destruct (find_char_from c rest 0) as [j|] eqn:E; [|discriminate].
      injection H as <-. destruct (IH _ _ E) as [Hr Hg]. cbn. split; [lia | exact Hg].
  - destruct (find_char_from c rest pos') as [j|] eqn:E; [|discriminate].
    injection H as <-. destruct (IH _ _ E) as [Hr Hg]. cbn. split; [lia | exact Hg].
Qed.

(** Searching again from the index that was found finds the same index. *)
Lemma find_char_from_idem c s : forall pos i,
  find_char_from c s pos = Some i -> find_char_from c s i = Some i.
Proof.
  induction s as [|x rest IH]; intros pos i H; [discriminate|].
  cbn [find_char_from] in H. destruct pos as [|pos'].
  - destruct (Ascii.eqb_spec x c) as [->|Hne].
    + injection H as <-. cbn. now rewrite Ascii.eqb_refl.
    + destruct (find_char_from c rest 0) as [j|] eqn:E; [|discriminate].
      injection H as <-. cbn. now rewrite (IH _ _ E).
  - destruct (find_char_from c rest pos') as [j|] eqn:E; [|discriminate].
    injection H as <-. cbn. now rewrite (IH _ _ E).
Qed.

Lemma string_find_char_cases s c pos :
  string_find_char s c pos = npos \/
  exists i, string_find_char s c pos = Z.of_nat i /\
            (i < String.length s)%nat /\ find_char_from c s i = Some i.
Proof.
  unfold string_find_char. destruct (size s <=? pos); [now left|].
  destruct (find_char_from c s (Z.to_nat pos)) as [i|] eqn:E; [right | now left].
  exists i. split; [reflexivity|]. split.
  - now apply find_char_from_spec in E.
  - now apply find_char_from_idem in E.
Qed.

(** A turn of the loop that does not leave it hands the position of the
    quote it found to the next turn, which finds the same quote. *)
Lemma scan_step_again_fixed s p1 p2 q :
  size s < 2 ^ 31 ->
  scan_step s p1 p2 = ScanAgain q -> scan_step s p1 q = ScanAgain q.
Proof.
  intros Hsize H. unfold scan_step in H. cbv zeta in H.
  remember (to_int32 (string_find_char s json.dquote (to_uint64 p2))) as q0 eqn:Eq0.
  destruct (to_uint64 q0 =? npos) eqn:E1; [discriminate|].
  destruct (q0 =? p1 + beforeLen) eqn:E2; [discriminate|].
  destruct (Z.rem _ 2 =? 0) eqn:E3; [discriminate|].
  injection H as <-.
  assert (F : to_int32 (string_find_char s json.dquote (to_uint64 q0)) = q0).
  { destruct (string_find_char_cases s json.dquote (to_uint64 p2))
      as [Hn | [i [Hi [Hlt Hidem]]]].
    - rewrite Hn in Eq0. subst q0. vm_compute in E1. discriminate E1.
    - rewrite Hi in Eq0. unfold size in Hsize.
      rewrite to_int32_small in Eq0 by lia. subst q0.
      rewrite to_uint64_small by (unfold uint64_modulus; lia).
      unfold string_find_char, size.
      destruct (Z.leb_spec (Z.of_nat (String.length s)) (Z.of_nat i)); [lia|].
      rewrite Nat2Z.id, Hidem. apply to_int32_small. lia. }
  unfold scan_step. cbv zeta. rewrite F, E1, E2, E3. reflexivity.
Qed.

(** Hence no number of turns ends the loop. *)
Lemma scan_loop_stuck s p1 p2 q :
  size s < 2 ^ 31 ->
  scan_step s p1 p2 = ScanAgain q ->
  forall fuel, scan_loop fuel s p1 p2 = None.
Proof.
  intros Hsize H fuel. revert p2 H.
  induction fuel as [|fuel IH]; intros p2 H; [reflexivity|].
  cbn [scan_loop]. rewrite H. apply IH.
  now apply scan_step_again_fixed with (p2 := p2).
Qed.

End PasswordScan.

Section PlainPasswords.
Import Process.

Lemma append_nil b : EmptyString +:+ b = b.
Proof. reflexivity. Qed.

Lemma append_cons x a b : String x a +:+ b = String x (a +:+ b).
Proof. reflexivity. Qed.

Lemma length_append a b :
  String.length (a +:+ b) = (String.length a + String.length b)%nat.
Proof.
  induction a as [|x a IH]; rewrite ?append_nil, ?append_cons; cbn [String.length Nat.add];
    [reflexivity | f_equal; exact IH].
Qed.

Lemma append_assoc a b c : (a +:+ b) +:+ c = a +:+ (b +:+ c).
Proof.
  induction a as [|x a IH]; rewrite ?append_nil, ?append_cons; cbn [String.length Nat.add];
    [reflexivity | f_equal; exact IH].
Qed.

Lemma get_append_r a b k :
  String.get (String.length a + k) (a +:+ b) = String.get k b.
Proof.
  induction a as [|x a IH]; rewrite ?append_nil, ?append_cons;
    cbn [String.length Nat.add String.get]; [reflexivity | exact IH].
Qed.

Lemma get_append_l a b : forall k,
  (k < String.length a)%nat -> String.get k (a +:+ b) = String.get k a.
Proof.
  induction a as [|x a IH]; intros k Hk; cbn in Hk; [lia|].
  rewrite append_cons.
  destruct k as [|k]; cbn [String.get]; [reflexivity | apply IH; lia].
Qed.

Lemma get_in_range s : forall k,
  (k < String.length s)%nat -> exists ch, String.get k s = Some ch.
Proof.
  induction s as [|x s IH]; intros k Hk; cbn in Hk; [lia|].
  destruct k as [|k]; cbn; [now exists x | apply IH; lia].
Qed.

Lemma find_char_from_append c a b k :
  find_char_from c (a +:+ b) (String.length a + k) =
  option_map (Nat.add (String.length a)) (find_char_from c b k).
Proof.
  induction a as [|x a IH]; rewrite ?append_nil, ?append_cons;
    cbn [String.length Nat.add find_char_from].
  - now destruct (find_char_from c b k).
  - rewrite IH. now destruct (find_char_from c b k).
Qed.

Lemma plain_char_not_quote ch :
  plain_char ch = true -> Ascii.eqb ch json.dquote = false /\ Ascii.eqb ch json.backslash = false.
Proof.
  unfold plain_char. intros H.
  apply andb_prop in H as [H _]. apply andb_prop in H as [H1 H2].
  split; [now destruct (Ascii.eqb ch json.dquote) | now destruct (Ascii.eqb ch json.backslash)].
Qed.

Lemma plain_get pw : forall k ch,
  plain pw = true -> String.get k pw = Some ch -> plain_char ch = true.
Proof.
  induction pw as [|x pw IH]; intros k ch Hp Hg; [discriminate|].
  cbn in Hp. apply andb_prop in Hp as [Hx Hp].
  destruct k as [|k]; cbn in Hg; [now injection Hg as <- | now apply (IH k)].
Qed.

(** In a plain password followed by a quote, the first quote is the one
    that follows. *)
Lemma find_char_from_plain pw post :
  plain pw = true ->
  find_char_from json.dquote (pw +:+ String json.dquote post) 0 = Some (String.length pw).
Proof.
  induction pw as [|x pw IH]; intros Hp.
  - reflexivity.
  - cbn in Hp. apply andb_prop in Hp as [Hx Hp].
    apply plain_char_not_quote in Hx as [Hq _].
    rewrite append_cons. cbn [find_char_from String.length]. rewrite Hq, (IH Hp). reflexivity.
Qed.

(** The JSON writer leaves a plain password as it is. *)
Lemma escape_string_plain pw : plain pw = true -> json.escape_string pw = pw.
Proof.
  induction pw as [|x pw IH]; intros Hp; [reflexivity|].
  cbn in Hp. apply andb_prop in Hp as [Hx Hp].
  cbn [json.escape_string]. rewrite (IH Hp).
  pose proof (plain_char_not_quote _ Hx) as [Hq Hb].
  unfold plain_char in Hx. apply andb_prop in Hx as [_ Hn]. apply Nat.leb_le in Hn.
  unfold json.escape_char. rewrite Hq, Hb.
  repeat match goal with
         | |- context [Nat.eqb ?a ?b] => destruct (Nat.eqb_spec a b); [lia|]
         end.
  destruct (Nat.ltb_spec (nat_of_ascii x) 32); [lia | reflexivity].
Qed.

(** The first turn of the scan over a plain password: the quote that closes
    the value is found, no backslash is counted, and the loop goes on. *)
Lemma scan_step_plain before pw post :
  let s := before +:+ (pw +:+ String json.dquote post) in
  let P := Z.of_nat (String.length before) in
  pw <> EmptyString ->
  plain pw = true ->
  size s < 2 ^ 31 ->
  scan_step s (P - beforeLen) P = ScanAgain (P + Z.of_nat (String.length pw)).
Proof.
  intros s P Hne Hp Hsize.
  assert (Hlen : size s = P + Z.of_nat (String.length pw) + 1 + Z.of_nat (String.length post)).
  { unfold size, s, P. rewrite !length_append. cbn [String.length]. lia. }
  assert (Hpw : (0 < String.length pw)%nat).
  { destruct pw; [contradiction | cbn; lia]. }
  assert (Hfind : string_find_char s json.dquote (to_uint64 P) =
                  P + Z.of_nat (String.length pw)).
  { rewrite to_uint64_small by (unfold uint64_modulus; lia).
    unfold string_find_char. destruct (Z.leb_spec (size s) P); [lia|].
    unfold P at 1. rewrite Nat2Z.id.
    replace (String.length before) with (String.length before + 0)%nat at 1 by lia.
    unfold s. rewrite find_char_from_append, (find_char_from_plain _ _ Hp).
    cbn [option_map]. unfold P. lia. }
  unfold scan_step. cbv zeta. rewrite Hfind.
  rewrite to_int32_small by lia.
  rewrite to_uint64_small by (unfold uint64_modulus; lia).
  destruct (Z.eqb_spec (P + Z.of_nat (String.length pw)) npos) as [E|_];
    [unfold npos, uint64_modulus in E; lia|].
  destruct (Z.eqb_spec (P + Z.of_nat (String.length pw)) (P - beforeLen + beforeLen)) as [E|_];
    [lia|].
  assert (Hlast :
    lastSlash_loop
      (Z.to_nat (P + Z.of_nat (String.length pw) - 1 - (P - beforeLen + beforeLen))) s
      (P - beforeLen + beforeLen) (P + Z.of_nat (String.length pw) - 1) =
    P + Z.of_nat (String.length pw) - 1).
  { destruct (Z.to_nat _) as [|n]; [reflexivity|].
    cbn [lastSlash_loop].
    destruct (Z.gtb_spec (P + Z.of_nat (String.length pw) - 1) (P - beforeLen + beforeLen))
      as [Hgt|_]; [|reflexivity].
    unfold string_at.
    replace (Z.to_nat (P + Z.of_nat (String.length pw) - 1))
      with (String.length before + (String.length pw - 1))%nat by (unfold P; lia).
    unfold s. rewrite get_append_r, get_append_l by lia.
    destruct (get_in_range pw (String.length pw - 1) ltac:(lia)) as [ch Hch].
    rewrite Hch. apply (plain_get _ _ _ Hp) in Hch.
    apply plain_char_not_quote in Hch as [_ Hb]. now rewrite Hb. }
  rewrite Hlast.
  replace (P + Z.of_nat (String.length pw) - (P + Z.of_nat (String.length pw) - 1)) with 1 by lia.
  reflexivity.
Qed.

(** A value that is a plain password is never redacted: the scan does not
    end. *)
Lemma stripPassword_plain_unfinished pre pw post :
  let s := pre +:+ password_key +:+ pw +:+ String json.dquote post in
  String.index 0 password_key s = Some (String.length pre) ->
  pw <> EmptyString ->
  plain pw = true ->
  size s < 2 ^ 31 ->
  forall fuel, stripPassword fuel s = Unfinished.
Proof.
  intros s Hidx Hne Hp Hsize fuel.
  assert (Hs : s = (pre +:+ password_key) +:+ (pw +:+ String json.dquote post)).
  { unfold s. now rewrite append_assoc. }
  assert (Hl : Z.of_nat (String.length (pre +:+ password_key)) =
               Z.of_nat (String.length pre) + beforeLen).
  { rewrite length_append. change (String.length password_key) with 12%nat.
    unfold beforeLen. lia. }
  assert (Hpre : Z.of_nat (String.length pre) < 2 ^ 31).
  { unfold size in Hsize. rewrite Hs, !length_append in Hsize. lia. }
  unfold stripPassword. cbv zeta. unfold string_find. rewrite Hidx.
  rewrite to_int32_small by lia.
  rewrite to_uint64_small by (unfold uint64_modulus; lia).
  destruct (Z.eqb_spec (Z.of_nat (String.length pre)) npos) as [E|_];
    [unfold npos, uint64_modulus in E; lia|].
  cbn [negb].
  pose proof (scan_step_plain (pre +:+ password_key) pw post Hne Hp) as Hstep.
  cbv zeta in Hstep. rewrite <- Hs in Hstep. specialize (Hstep Hsize).
  rewrite Hl in Hstep.
  replace (Z.of_nat (String.length pre) + beforeLen - beforeLen)
    with (Z.of_nat (String.length pre)) in Hstep by lia.
  now rewrite (scan_loop_stuck _ _ _ _ Hsize Hstep fuel).
Qed.



(** The launch profile of bob around the password. *)
Lemma createLaunchProfile_shape executable password stdInput :
  createLaunchProfile (options_of executable password stdInput) =
  profile_head +:+ password_key +:+ json.escape_string password
    +:+ String json.dquote (profile_tail executable stdInput).
Proof.
  unfold createLaunchProfile, launchProfile, options_of, profile_head, profile_tail,
    password_key.
  cbn. unfold json.write_string.
  repeat (rewrite ?append_assoc, ?append_cons, ?append_nil). reflexivity.
Qed.



(** The first occurrence of the key in bob's profile is the password
    member. *)
Lemma profile_key_index rest :
  String.index 0 password_key (profile_head +:+ password_key +:+ rest) =
  Some (String.length profile_head).
Proof. destruct rest; vm_compute; reflexivity. Qed.

End PlainPasswords.

Section PasswordScanClaims.
Import Process.

(** C5 fails on the code.  For every non-empty password made of printable
    characters other than the quote and the backslash, the scan of
    [logProcessSpawn] finds the quote that closes the value, counts no
    backslash before it, takes the odd distance 1 for an escaped quote and
    searches again from the same position: it never ends, and neither the
    log entry nor the launch is reached.  For the password a, b, quote, c
    the scan ends at the escaped quote and the text that is logged still
    shows the rest of the password. *)
Theorem C5_password_scan_hangs_or_truncates :
  (forall (executable password stdInput rsandbox : string) (args env : list string)
          (os : OS) (out_result : ProcessResult) (fuel : nat),
     password <> EmptyString ->
     plain password = true ->
     size (createLaunchProfile (options_of executable password stdInput)) < 2 ^ 31 ->
     let this := Impl_new rsandbox args env (options_of executable password stdInput) in
     StandardInput this =
       profile_head +:+ password_key +:+ password
         +:+ String json.dquote (profile_tail executable stdInput) /\
     stripPassword fuel (StandardInput this) = Unfinished /\
     logProcessSpawn fuel this = Unfinished /\
     AbstractChildProcess_run fuel os this = Unfinished /\
     SyncChildProcess_run fuel os this out_result = Unfinished) /\
  (createLaunchProfile (sample_options password_with_quote) =
     profile_head +:+ password_key
       +:+ ("ab" +:+ String json.backslash (String json.dquote "c"))
       +:+ String json.dquote (profile_tail "/bin/ls" EmptyString) /\
   forall fuel,
     stripPassword (S fuel) (createLaunchProfile (sample_options password_with_quote)) =
       Returned
         (profile_head +:+ password_key +:+ redaction_marker
            +:+ String json.dquote ("c" +:+ String json.dquote (profile_tail "/bin/ls" EmptyString)))).
Proof.
  split.
  - intros executable password stdInput rsandbox args env os out_result fuel
      Hne Hplain Hsize this.
    assert (Hin : StandardInput this =
                  profile_head +:+ password_key +:+ password
                    +:+ String json.dquote (profile_tail executable stdInput)).
    { unfold this. cbn [Impl_new StandardInput].
      now rewrite createLaunchProfile_shape, (escape_string_plain _ Hplain). }
    assert (Hstrip : stripPassword fuel (StandardInput this) = Unfinished).
    { rewrite Hin. apply stripPassword_plain_unfinished.
      - apply profile_key_index.
      - exact Hne.
      - exact Hplain.
      - rewrite <- Hin. exact Hsize. }
    assert (Hlog : logProcessSpawn fuel this = Unfinished).
    { unfold logProcessSpawn. now rewrite Hstrip. }
    assert (Hrun : AbstractChildProcess_run fuel os this = Unfinished).
    { unfold AbstractChildProcess_run. now rewrite Hlog. }
    repeat split; try assumption.
    unfold SyncChildProcess_run. now rewrite Hrun.
  - split; [vm_compute; reflexivity|].
    intros fuel. vm_compute. reflexivity.
Qed.

Lemma C5_witness :
  logProcessSpawn 1000 (sample_process "abc") = Unfinished /\
  SyncChildProcess_run 1000 (sample_os (inr 0)) (sample_process "abc")
    (mkProcessResult EmptyString EmptyString 0) = Unfinished.
Proof.
  destruct (proj1 C5_password_scan_hangs_or_truncates
              "/bin/ls" "abc" EmptyString "/usr/lib/rstudio-server/bin/rsandbox"
              ["/bin/sh"; "-c"; "/bin/ls"] [] (sample_os (inr 0))
              (mkProcessResult EmptyString EmptyString 0) 1000%nat)
    as [_ [_ [Hlog [_ Hsync]]]].
  - discriminate.
  - reflexivity.
  - vm_compute. reflexivity.
  - split; [exact Hlog | exact Hsync].
Defined.

End PasswordScanClaims.

(** ** Request decoding *)

Section RequestDecoding.
Import Request.

Lemma find_erase_eq name doc : json.find name (erase name doc) = None.
Proof.
  induction doc as [|[k w] doc IH]; [reflexivity|].
  cbn [erase]. destruct (String.eqb k name) eqn:E; [exact IH|].
  cbn [json.find]. now rewrite E.
Qed.

Lemma find_erase_ne name k doc :
  name <> k -> json.find k (erase name doc) = json.find k doc.
Proof.
  intros Hne. induction doc as [|[k0 w] doc IH]; [reflexivity|].
  cbn [erase json.find].
  destruct (String.eqb_spec k0 name) as [->|Hn].
  - destruct (String.eqb_spec name k); [contradiction | exact IH].
  - cbn [json.find]. now rewrite IH.
Qed.

Lemma append_empty_r s : s +:+ EmptyString = s.
Proof. induction s as [|x s IH]; [reflexivity | rewrite append_cons; now rewrite IH]. Qed.

Lemma occurs_in_suffix before needle : occurs_in needle (before +:+ needle).
Proof. exists before, EmptyString. now rewrite append_empty_r. Qed.

Variable highestKnownType : Z.
Variable type_of_int : Z -> Type_.
Context {User DateTime State : Type}.
Variable allUsers : User.
Variable getUserFromIdentifier : string -> option User.
Variable DateTime_fromString : string -> option DateTime.
Variable State_fromString : string -> option State.

Abbreviation decode :=
  (fromJson highestKnownType type_of_int allUsers getUserFromIdentifier
     DateTime_fromString State_fromString).
Abbreviation decode_job :=
  (decode_body allUsers getUserFromIdentifier DateTime_fromString State_fromString GET_JOB).

Lemma required_int_erase name k doc :
  name <> k -> required_int (erase name doc) k = required_int doc k.
Proof. intros H. unfold required_int. now rewrite find_erase_ne. Qed.

Lemma required_string_erase name k doc :
  name <> k -> required_string (erase name doc) k = required_string doc k.
Proof. intros H. unfold required_string. now rewrite find_erase_ne. Qed.

Lemma optional_string_erase name k doc :
  name <> k -> optional_string (erase name doc) k = optional_string doc k.
Proof. intros H. unfold optional_string. now rewrite find_erase_ne. Qed.

Lemma optional_strings_erase name k doc :
  name <> k -> optional_strings (erase name doc) k = optional_strings doc k.
Proof. intros H. unfold optional_strings. now rewrite find_erase_ne. Qed.

Lemma user_of_erase name doc :
  name <> FIELD_REAL_USER ->
  user_of allUsers getUserFromIdentifier (erase name doc) =
  user_of allUsers getUserFromIdentifier doc.
Proof. intros H. unfold user_of. now rewrite find_erase_ne. Qed.

Lemma optional_string_erased name doc :
  optional_string (erase name doc) name = (Some None, []).
Proof. unfold optional_string. now rewrite find_erase_eq. Qed.

Lemma optional_string_found name doc text :
  json.find name doc = Some (json.Str text) ->
  optional_string doc name = (Some (Some text), []).
Proof. intros H. unfold optional_string. now rewrite H. Qed.

(** The body of a GET_JOB request with an end time that does not parse is
    the body of the same document without the end time, the end time
    marked invalid; the log is the same. *)
Lemma decode_job_unparsable_end_time doc text r0 log :
  json.find FIELD_JOB_END_TIME doc = Some (json.Str text) ->
  DateTime_fromString text = None ->
  decode_job (erase FIELD_JOB_END_TIME doc) = (Some (JobStateBody r0), log) ->
  decode_job doc = (Some (JobStateBody (with_EndTime r0 Invalid)), log).
Proof.
  intros Hfind Hparse H.
  unfold decode_body in *.
  rewrite optional_string_erased in H.
  rewrite user_of_erase, !optional_string_erase, required_string_erase,
    !optional_strings_erase in H by discriminate.
  rewrite (optional_string_found _ _ _ Hfind).
  destruct (user_of allUsers getUserFromIdentifier doc) as [[u|] l1];
    destruct (optional_string doc FIELD_REQUEST_USERNAME) as [[n|] l2];
    destruct (required_string doc FIELD_JOB_ID) as [[j|] l3];
    destruct (optional_string doc FIELD_ENCODED_JOB_ID) as [[e|] l4];
    destruct (optional_strings doc FIELD_JOB_FIELDS) as [[f|] l6];
    destruct (optional_string doc FIELD_JOB_START_TIME) as [[st|] l7];
    destruct (optional_strings doc FIELD_JOB_STATUSES) as [[ss|] l8];
    destruct (optional_strings doc FIELD_JOB_TAGS) as [[tg|] l9];
    cbv beta iota zeta in H; try discriminate H.
  injection H as <- <-.
  cbv beta iota zeta. unfold with_EndTime. cbn [time_of jsr_User jsr_RequestUsername JobId
    EncodedJobId EndTime FieldSet StartTime StatusSet TagSet app].
  rewrite Hparse. reflexivity.
Qed.

(** What an accepted field says about the member it was read from. *)
Lemma required_int_inv doc name z l :
  required_int doc name = (Some z, l) -> json.find name doc = Some (json.Int z).
Proof.
  unfold required_int. destruct (json.find name doc) as [[| |v| | |]|]; try discriminate.
  now intros [= ->].
Qed.

Lemma required_string_inv doc name s l :
  required_string doc name = (Some s, l) -> string_member doc name = Some s.
Proof.
  unfold required_string, string_member.
  destruct (json.find name doc) as [[| | |v| |]|]; try discriminate.
  now intros [= ->].
Qed.

Lemma optional_string_inv doc name o l :
  optional_string doc name = (Some o, l) -> o = string_member doc name.
Proof.
  unfold optional_string, string_member.
  destruct (json.find name doc) as [[| | |v| |]|]; try discriminate; now intros [= <-].
Qed.

Lemma optional_strings_inv doc name o l :
  optional_strings doc name = (Some o, l) -> o = strings_member doc name.
Proof.
  unfold optional_strings, strings_member.
  destruct (json.find name doc) as [[| | | |items|]|]; try discriminate.
  - destruct (strings_of items); [now intros [= <-] | discriminate].
  - now intros [= <-].
Qed.

Lemma user_of_inv doc u l :
  user_of allUsers getUserFromIdentifier doc = (Some u, l) ->
  exists identifier,
    string_member doc FIELD_REAL_USER = Some identifier /\
    (if String.eqb identifier "*" then u = allUsers
     else getUserFromIdentifier identifier = Some u).
Proof.
  unfold user_of, string_member.
  destruct (json.find FIELD_REAL_USER doc) as [[| | |s| |]|]; try discriminate.
  intros H. exists s. split; [reflexivity|].
  destruct (String.eqb s "*").
  - now injection H as <-.
  - destruct (getUserFromIdentifier s) as [u'|]; [now injection H as <- | discriminate].
Qed.

(** Every field of an accepted GET_JOB body holds what its member gives. *)
Lemma decode_job_fields doc r log :
  decode_job doc = (Some (JobStateBody r), log) ->
  (exists identifier,
     string_member doc FIELD_REAL_USER = Some identifier /\
     (if String.eqb identifier "*" then jsr_User r = allUsers
      else getUserFromIdentifier identifier = Some (jsr_User r))) /\
  jsr_RequestUsername r = default EmptyString (string_member doc FIELD_REQUEST_USERNAME) /\
  string_member doc FIELD_JOB_ID = Some (JobId r) /\
  EncodedJobId r = default EmptyString (string_member doc FIELD_ENCODED_JOB_ID) /\
  getStartTime r =
    match string_member doc FIELD_JOB_START_TIME with
    | None => (false, None)
    | Some start =>
        match DateTime_fromString start with
        | Some t => (false, Some t)
        | None => (true, None)
        end
    end /\
  FieldSet r =
    option_map (fun names => {["id"]} ∪ list_to_set names)
      (strings_member doc FIELD_JOB_FIELDS) /\
  getStatusSet r =
    match strings_member doc FIELD_JOB_STATUSES with
    | None => (false, None)
    | Some names =>
        match all_some (List.map State_fromString names) with
        | Some states => (false, Some states)
        | None => (true, None)
        end
    end /\
  TagSet r = option_map (fun names => list_to_set names) (strings_member doc FIELD_JOB_TAGS).
Proof.
  unfold decode_body.
  destruct (user_of allUsers getUserFromIdentifier doc) as [[u|] l1] eqn:E1;
    destruct (optional_string doc FIELD_REQUEST_USERNAME) as [[n|] l2] eqn:E2;
    destruct (required_string doc FIELD_JOB_ID) as [[j|] l3] eqn:E3;
    destruct (optional_string doc FIELD_ENCODED_JOB_ID) as [[e|] l4] eqn:E4;
    destruct (optional_string doc FIELD_JOB_END_TIME) as [[et|] l5] eqn:E5;
    destruct (optional_strings doc FIELD_JOB_FIELDS) as [[f|] l6] eqn:E6;
    destruct (optional_string doc FIELD_JOB_START_TIME) as [[st|] l7] eqn:E7;
    destruct (optional_strings doc FIELD_JOB_STATUSES) as [[ss|] l8] eqn:E8;
    destruct (optional_strings doc FIELD_JOB_TAGS) as [[tg|] l9] eqn:E9;
    cbv beta iota zeta; try discriminate.
  intros [= <- _].
  apply user_of_inv in E1. apply optional_string_inv in E2. apply required_string_inv in E3.
  apply optional_string_inv in E4. apply optional_strings_inv in E6.
  apply optional_string_inv in E7. apply optional_strings_inv in E8.
  apply optional_strings_inv in E9.
  unfold getStartTime, getStatusSet.
  cbn [jsr_User jsr_RequestUsername JobId EncodedJobId FieldSet StartTime StatusSet TagSet].
  subst n e f st ss tg.
  split; [exact E1|]. split; [reflexivity|]. split; [exact E3|]. split; [reflexivity|].
  split.
  { unfold time_of. destruct (string_member doc FIELD_JOB_START_TIME) as [start|];
      [|reflexivity].
    now destruct (DateTime_fromString start). }
  split; [reflexivity|]. split; [|reflexivity].
  unfold statuses_of. destruct (strings_member doc FIELD_JOB_STATUSES) as [names|];
    [|reflexivity].
  now destruct (all_some (List.map State_fromString names)).
Qed.

(** C8.  A GET_JOB document whose [jobEndTime] is a string that does not
    parse as a date-time, and which is accepted when that member is left
    out, is accepted, with the same id and the same log.  [getEndTime]
    reports the error and hands out no value, and nothing else reports it.
    Every sibling field holds what its own member of the document gives:
    the user is the one that [realUser] names, the request username, the
    job id and the encoded job id are the strings of their members (the
    empty string for an optional member that is absent), [getStartTime] is
    the parsed [jobStartTime], invalid only if that string does not parse,
    the field set is [jobFields] with the identifier added, [getStatusSet]
    is the states that [jobStatuses] names, invalid only if a name is
    unknown, and the tag set is [jobTags].  These are also the fields of the
    request decoded without the member. *)
Theorem C8_unparsable_end_time_is_field_scoped :
  forall (doc : json.Object) (text : string) (id : Z)
         (r0 : JobStateRequest) (log : list string),
    json.find FIELD_JOB_END_TIME doc = Some (json.Str text) ->
    DateTime_fromString text = None ->
    decode (erase FIELD_JOB_END_TIME doc) =
      (inr (mkRequest id GET_JOB (JobStateBody r0)), log) ->
    exists r : JobStateRequest,
      decode doc = (inr (mkRequest id GET_JOB (JobStateBody r)), log) /\
      getEndTime r = (true, None) /\
      (getStartTime r = getStartTime r0 /\
       getStatusSet r = getStatusSet r0 /\
       jsr_User r = jsr_User r0 /\
       jsr_RequestUsername r = jsr_RequestUsername r0 /\
       JobId r = JobId r0 /\
       EncodedJobId r = EncodedJobId r0 /\
       FieldSet r = FieldSet r0 /\
       TagSet r = TagSet r0) /\
      json.find FIELD_REQUEST_ID doc = Some (json.Int id) /\
      (exists identifier,
         string_member doc FIELD_REAL_USER = Some identifier /\
         (if String.eqb identifier "*" then jsr_User r = allUsers
          else getUserFromIdentifier identifier = Some (jsr_User r))) /\
      jsr_RequestUsername r =
        default EmptyString (string_member doc FIELD_REQUEST_USERNAME) /\
      string_member doc FIELD_JOB_ID = Some (JobId r) /\
      EncodedJobId r = default EmptyString (string_member doc FIELD_ENCODED_JOB_ID) /\
      getStartTime r =
        match string_member doc FIELD_JOB_START_TIME with
        | None => (false, None)
        | Some start =>
            match DateTime_fromString start with
            | Some t => (false, Some t)
            | None => (true, None)
            end
        end /\
      FieldSet r =
        option_map (fun names => {["id"]} ∪ list_to_set names)
          (strings_member doc FIELD_JOB_FIELDS) /\
      getStatusSet r =
        match strings_member doc FIELD_JOB_STATUSES with
        | None => (false, None)
        | Some names =>
            match all_some (List.map State_fromString names) with
            | Some states => (false, Some states)
            | None => (true, None)
            end
        end /\
      TagSet r =
        option_map (fun names => list_to_set names) (strings_member doc FIELD_JOB_TAGS).
Proof.
  intros doc text id r0 log Hfind Hparse H.
  exists (with_EndTime r0 Invalid).
  unfold fromJson in *.
  rewrite find_erase_ne in H by discriminate.
  destruct (json.find FIELD_MESSAGE_TYPE doc) as [[| |v| | |]|]; try discriminate H.
  destruct ((v <? 0) || (v >? highestKnownType)); [discriminate H|].
  rewrite required_int_erase in H by discriminate.
  destruct (required_int doc FIELD_REQUEST_ID) as [[i|] l1] eqn:Eid.
  - destruct (decode_body allUsers getUserFromIdentifier DateTime_fromString
                State_fromString (type_of_int v) (erase FIELD_JOB_END_TIME doc))
      as [[b|] l2] eqn:Eb; [|discriminate H].
    injection H as -> Ht -> <-. rewrite Ht in *.
    pose proof (decode_job_unparsable_end_time _ _ _ _ Hfind Hparse Eb) as Hbody.
    rewrite Hbody.
    split; [reflexivity|]. split; [reflexivity|].
    split; [repeat split|].
    split; [exact (required_int_inv _ _ _ _ Eid)|].
    exact (decode_job_fields _ _ _ Hbody).
  - destruct (decode_body _ _ _ _ _ _) as [[b|] l2]; discriminate H.
Qed.

(** C9.  A document without [messageType] is rejected with an error whose
    text names that field; a document whose [messageType] is a number
    below 0 or above the highest known type is rejected with an error whose
    text holds that number. *)
Theorem C9_missing_or_unknown_type_is_rejected :
  forall (doc : json.Object),
    (json.find FIELD_MESSAGE_TYPE doc = None ->
     exists e, fst (decode doc) = inl e /\ occurs_in FIELD_MESSAGE_TYPE (getMessage e)) /\
    (forall value : Z,
       json.find FIELD_MESSAGE_TYPE doc = Some (json.Int value) ->
       value < 0 \/ highestKnownType < value ->
       exists e,
         fst (decode doc) = inl e /\ occurs_in (json.Z_to_string value) (getMessage e)).
Proof.
  intros doc. split.
  - intros Hnone. unfold fromJson. rewrite Hnone.
    exists (MissingField FIELD_MESSAGE_TYPE). split; [reflexivity|].
    apply occurs_in_suffix.
  - intros value Hfind Hrange. unfold fromJson. rewrite Hfind.
    assert (Hout : (value <? 0) || (value >? highestKnownType) = true).
    { apply orb_true_iff. destruct Hrange; [left | right]; lia. }
    rewrite Hout. exists (TypeOutOfRange value). split; [reflexivity|].
    apply occurs_in_suffix.
Qed.

End RequestDecoding.

Section RequestDecodingWitnesses.
Import Request.

Lemma C8_witness :
  (exists r : JobStateRequest,
     sample_fromJson invalid_date_request =
       (inr (mkRequest 91 GET_JOB (JobStateBody r)), []) /\
     getEndTime r = (true, None) /\
     getStartTime r = (false, Some 15) /\
     JobId r = "444") /\
  (exists r : JobStateRequest,
     sample_fromJson invalid_date_request_with_filters =
       (inr (mkRequest 91 GET_JOB (JobStateBody r)), []) /\
     getEndTime r = (true, None) /\
     getStartTime r = (false, Some 15) /\
     FieldSet r = Some ({["id"]} ∪ list_to_set ["status"; "statusMessage"]) /\
     getStatusSet r = (false, Some ["Running"; "Failed"]) /\
     TagSet r = Some (list_to_set ["nightly"])).
Proof.
  split.
  - destruct (C8_unparsable_end_time_is_field_scoped sample_highestKnownType
                sample_type_of_int "*" sample_getUserFromIdentifier
                sample_DateTime_fromString sample_State_fromString
                invalid_date_request "not a date time" 91
                (mkJobStateRequest "usertwo" "usertwo" "444" "Y2x1c3Rlci0xNDIK"
                   Absent None (Valid 15) Absent None) [])
      as [r [Hdec [Hend [_ [_ [_ [_ [Hjob [_ [Hstart _]]]]]]]]]].
    + reflexivity.
    + reflexivity.
    + vm_compute. reflexivity.
    + exists r. split; [exact Hdec|]. split; [exact Hend|]. split; [exact Hstart|].
      now injection Hjob as <-.
  - destruct (C8_unparsable_end_time_is_field_scoped sample_highestKnownType
                sample_type_of_int "*" sample_getUserFromIdentifier
                sample_DateTime_fromString sample_State_fromString
                invalid_date_request_with_filters "not a date time" 91
                (mkJobStateRequest "usertwo" "usertwo" "444" "Y2x1c3Rlci0xNDIK"
                   Absent (Some ({["id"]} ∪ list_to_set ["status"; "statusMessage"]))
                   (Valid 15) (Valid ["Running"; "Failed"])
                   (Some (list_to_set ["nightly"]))) [])
      as [r [Hdec [Hend [_ [_ [_ [_ [_ [_ [Hstart [Hfields [Hstatus Htags]]]]]]]]]]]].
    + reflexivity.
    + reflexivity.
    + reflexivity.
    + exists r. split; [exact Hdec|]. split; [exact Hend|]. split; [exact Hstart|].
      split; [exact Hfields|]. split; [exact Hstatus | exact Htags].
Defined.

Lemma C9_witness :
  (exists e, fst (sample_fromJson missing_type_request) = inl e /\
             occurs_in "messageType" (getMessage e)) /\
  (exists e, fst (sample_fromJson (typed_request (-4))) = inl e /\
             occurs_in "-4" (getMessage e)) /\
  (exists e, fst (sample_fromJson (typed_request 568)) = inl e /\
             occurs_in "568" (getMessage e)).
Proof.
  split; [|split].
  - apply (proj1 (C9_missing_or_unknown_type_is_rejected sample_highestKnownType
                    sample_type_of_int "*" sample_getUserFromIdentifier
                    sample_DateTime_fromString sample_State_fromString
                    missing_type_request)).
    reflexivity.
  - apply (proj2 (C9_missing_or_unknown_type_is_rejected sample_highestKnownType
                    sample_type_of_int "*" sample_getUserFromIdentifier
                    sample_DateTime_fromString sample_State_fromString
                    (typed_request (-4))) (-4)).
    + reflexivity.
    + left. lia.
  - apply (proj2 (C9_missing_or_unknown_type_is_rejected sample_highestKnownType
                    sample_type_of_int "*" sample_getUserFromIdentifier
                    sample_DateTime_fromString sample_State_fromString
                    (typed_request 568)) 568).
    + reflexivity.
    + right. unfold sample_highestKnownType. lia.
Defined.

End RequestDecodingWitnesses.

(* ===================================================================== *)
(** * Further properties of the process engine *)
(* ===================================================================== *)

(** ** Quoting of arguments *)

Section Quoting.
Import Process.

Lemma sh_unquote_replace_quotes arg : forall tail,
  sh_unquote InSingle (replace_quotes arg +:+ tail) =
  option_map (String.append arg) (sh_unquote InSingle tail).
Proof.
  induction arg as [|c arg IH]; intros tail.
  - cbn [replace_quotes]. rewrite append_nil.
    now destruct (sh_unquote InSingle tail).
  - cbn [replace_quotes]. destruct (Ascii.eqb c squote) eqn:E.
    + apply Ascii.eqb_eq in E. subst c.
      rewrite !append_cons. cbn [sh_unquote].
      change (Ascii.eqb squote squote) with true.
      change (Ascii.eqb json.dquote squote) with false.
      change (Ascii.eqb json.dquote json.dquote) with true.
      cbv beta iota. rewrite IH.
      destruct (sh_unquote InSingle tail); reflexivity.
    + rewrite !append_cons. cbn [sh_unquote]. rewrite E, IH.
      destruct (sh_unquote InSingle tail); reflexivity.
Qed.

Lemma sh_unquote_escape arg : sh_unquote Unquoted (escape arg) = Some arg.
Proof.
  unfold escape. cbn [sh_unquote].
  change (Ascii.eqb squote squote) with true. cbv beta iota.
  rewrite sh_unquote_replace_quotes. cbn [sh_unquote].
  change (Ascii.eqb squote squote) with true. cbv beta iota.
  cbn [option_map]. now rewrite append_empty_r.
Qed.

(** The shell reads an escaped argument back as the argument, so two
    arguments are escaped to the same word only if they are the same. *)
Theorem escape_read_back_by_shell :
  (forall arg : string, sh_unquote Unquoted (escape arg) = Some arg) /\
  (forall a b : string, escape a = escape b -> a = b).
Proof.
  split; [exact sh_unquote_escape|].
  intros a b E. pose proof (sh_unquote_escape a) as Ha.
  rewrite E, sh_unquote_escape in Ha. now injection Ha.
Qed.

Lemma escape_read_back_by_shell_witness :
  sh_unquote Unquoted (escape "it's") = Some "it's" /\ "it's" = "it's".
Proof.
  split.
  - apply (proj1 escape_read_back_by_shell "it's").
  - apply (proj2 escape_read_back_by_shell "it's" "it's"). reflexivity.
Defined.

(** Escaping adds the two enclosing quotes and four characters for each
    single quote of the argument. *)
Theorem escape_length :
  forall arg : string,
    String.length (escape arg) =
    (String.length arg + 2 + 4 * count_quotes arg)%nat.
Proof.
  intros arg. unfold escape. cbn [String.length]. rewrite length_append.
  cbn [String.length].
  assert (H : String.length (replace_quotes arg) =
              (String.length arg + 4 * count_quotes arg)%nat).
  { induction arg as [|c arg IH]; [reflexivity|].
    cbn [replace_quotes count_quotes String.length].
    destruct (Ascii.eqb c squote); cbn [String.length]; rewrite IH; lia. }
  rewrite H. lia.
Qed.

(** The loop over the arguments in closed form. *)
Lemma append_arguments_concat args : forall shellCommand,
  append_arguments shellCommand args =
  shellCommand +:+ String.concat EmptyString (List.map (fun a => " " +:+ escape a) args).
Proof.
  induction args as [|a args IH]; intros shellCommand.
  - cbn. now rewrite append_empty_r.
  - cbn [append_arguments List.map]. rewrite IH.
    destruct args as [|b args'].
    + cbn [List.map String.concat]. now rewrite append_empty_r, ?append_assoc.
    + cbn [List.map String.concat]. rewrite append_nil. now rewrite !append_assoc.
Qed.

End Quoting.

(** ** Command line and environment *)

Section CommandLine.
Import Process.

(** Without redirection the shell command is the executable followed, for
    each argument in order, by a space and a word that the shell reads back
    as that argument. *)
Theorem shell_command_passes_arguments :
  forall in_options : SandboxOptions.t,
    SandboxOptions.StandardOutputFile in_options = EmptyString ->
    SandboxOptions.StandardErrorFile in_options = EmptyString ->
    exists words : list string,
      shellCommand_of in_options =
        SandboxOptions.Executable in_options
          +:+ String.concat EmptyString (List.map (String.append " ") words) /\
      Forall2 (fun word arg => sh_unquote Unquoted word = Some arg)
        words (SandboxOptions.Arguments in_options).
Proof.
  intros in_options Hout Herr.
  exists (List.map escape (SandboxOptions.Arguments in_options)). split.
  - unfold shellCommand_of. rewrite Hout, Herr. cbn [string_empty negb andb orb].
    rewrite andb_false_r. rewrite append_arguments_concat, List.map_map. reflexivity.
  - induction (SandboxOptions.Arguments in_options) as [|a args IH]; constructor.
    + apply sh_unquote_escape.
    + exact IH.
Qed.

Lemma shell_command_passes_arguments_witness :
  exists words : list string,
    shellCommand_of
      (SandboxOptions.mk "/bin/echo" ["it's"; "a b"] false [] EmptyString
         (User.mk false false "bob") EmptyString EmptyString EmptyString) =
      "/bin/echo" +:+ String.concat EmptyString (List.map (String.append " ") words) /\
    Forall2 (fun word arg => sh_unquote Unquoted word = Some arg) words ["it's"; "a b"].
Proof.
  apply (shell_command_passes_arguments
           (SandboxOptions.mk "/bin/echo" ["it's"; "a b"] false [] EmptyString
              (User.mk false false "bob") EmptyString EmptyString EmptyString));
    reflexivity.
Defined.

(** With both streams redirected, the command ends with the redirection of
    the standard output and then, for the same file, with the duplication
    of the descriptor, for another file with the redirection of the
    standard error; a shell command is put in parentheses first. *)
Theorem shell_command_redirects_both :
  forall in_options : SandboxOptions.t,
    SandboxOptions.StandardOutputFile in_options <> EmptyString ->
    SandboxOptions.StandardErrorFile in_options <> EmptyString ->
    let command :=
      append_arguments (SandboxOptions.Executable in_options)
        (SandboxOptions.Arguments in_options) in
    let body :=
      if SandboxOptions.IsShellCommand in_options
      then "(" +:+ command +:+ ")" else command in
    shellCommand_of in_options =
      (body +:+ " > " +:+ escape (SandboxOptions.StandardOutputFile in_options))
        +:+ (if String.eqb (SandboxOptions.StandardOutputFile in_options)
                  (SandboxOptions.StandardErrorFile in_options)
             then " 2>&1"
             else " 2> " +:+ escape (SandboxOptions.StandardErrorFile in_options)).
Proof.
  intros in_options Hout Herr command body. unfold shellCommand_of.
  fold command.
  destruct (SandboxOptions.StandardOutputFile in_options) as [|c out] eqn:Eo;
    [contradiction|].
  destruct (SandboxOptions.StandardErrorFile in_options) as [|d err] eqn:Ee;
    [contradiction|].
  cbn [string_empty negb andb orb]. rewrite andb_true_r. fold body.
  destruct (String.eqb (String c out) (String d err)); reflexivity.
Qed.

Lemma shell_command_redirects_both_witness :
  shellCommand_of
    (SandboxOptions.mk "ls | wc" [] true [] EmptyString (User.mk false false "bob")
       "/tmp/log" "/tmp/log" EmptyString) =
  "(ls | wc) > '/tmp/log' 2>&1".
Proof.
  refine (eq_trans (shell_command_redirects_both
            (SandboxOptions.mk "ls | wc" [] true [] EmptyString (User.mk false false "bob")
               "/tmp/log" "/tmp/log" EmptyString) _ _) _).
  - discriminate.
  - discriminate.
  - vm_compute. reflexivity.
Defined.

(** The loop of [createEnvironmentVars]. *)
Lemma createEnvironmentVars_loop_spec vars : forall Environment pathFound,
  createEnvironmentVars_loop vars Environment pathFound =
  (Environment ++ List.map environment_entry vars,
   pathFound || existsb (fun envVar => String.eqb (fst envVar) "PATH") vars).
Proof.
  induction vars as [|v vars IH]; intros Environment pathFound.
  - cbn. now rewrite app_nil_r, orb_false_r.
  - cbn [createEnvironmentVars_loop List.map existsb]. rewrite IH, <- app_assoc.
    cbn [app]. unfold environment_entry at 2.
    destruct (String.eqb (fst v) "PATH"), pathFound; reflexivity.
Qed.

(** The environment of the child holds the variables of the options in
    their order, and after them the parent's [PATH] exactly when the
    options name no [PATH]; so it always holds a [PATH] entry, it is never
    empty, and the child replaces its image with [execve]: the vector
    starts with the sandbox path and ends with the shell command. *)
Theorem child_environment_has_PATH :
  forall (in_rsandbox PATH : string) (in_environment : list (string * string))
         (in_sandbox : SandboxOptions.t) (in_options : ProcessOptions.t),
    let this := Impl_construct in_rsandbox PATH in_environment in_sandbox in_options in
    Environment this =
      List.map environment_entry in_environment
        ++ (if existsb (fun envVar => String.eqb (fst envVar) "PATH") in_environment
            then [] else ["PATH=" +:+ PATH]) /\
    (exists value, In ("PATH=" +:+ value) (Environment this)) /\
    execChild_exec this = execve in_rsandbox (Arguments this) (Environment this) /\
    head (Arguments this) = Some in_rsandbox /\
    last (Arguments this) = Some (shellCommand_of in_sandbox).
Proof.
  intros in_rsandbox PATH in_environment in_sandbox in_options this.
  assert (Henv : Environment this =
                 List.map environment_entry in_environment
                   ++ (if existsb (fun envVar => String.eqb (fst envVar) "PATH") in_environment
                       then [] else ["PATH=" +:+ PATH])).
  { unfold this, Impl_construct, Impl_new. cbn [Environment].
    unfold createEnvironmentVars. rewrite createEnvironmentVars_loop_spec.
    cbn [app orb].
    destruct (existsb _ in_environment); cbn [negb]; [now rewrite app_nil_r | reflexivity]. }
  split; [exact Henv|]. split; [|split; [|split]].
  - rewrite Henv.
    destruct (existsb _ in_environment) eqn:E.
    + apply existsb_exists in E as [[k v] [Hin Hk]]. cbn [fst] in Hk.
      apply String.eqb_eq in Hk. subst k. exists v.
      apply in_or_app. left. apply in_map_iff. exists ("PATH", v). now split.
    + exists PATH. apply in_or_app. right. now left.
  - unfold execChild_exec. rewrite Henv.
    destruct (List.map environment_entry in_environment) as [|e es] eqn:Em.
    + destruct in_environment; [|discriminate Em]. reflexivity.
    + reflexivity.
  - reflexivity.
  - unfold this, Impl_construct, Impl_new. cbn [Arguments].
    unfold createSandboxArguments.
    rewrite !app_assoc, app_comm_cons.
    change ["/bin/sh"; "-c"; shellCommand_of in_sandbox]
      with (["/bin/sh"; "-c"] ++ [shellCommand_of in_sandbox]).
    rewrite app_assoc. apply last_snoc.
Qed.

End CommandLine.

(** ** Pipes *)

Section Pipes.
Import Process.

Lemma closed_fds_app t1 t2 : closed_fds (t1 ++ t2) = closed_fds t1 ++ closed_fds t2.
Proof.
  induction t1 as [|a t1 IH]; [reflexivity|].
  destruct a; cbn [app closed_fds]; rewrite IH; reflexivity.
Qed.

Lemma closed_fds_closePipe os fd : closed_fds (closePipe os fd) = [fd].
Proof. unfold closePipe. now destruct (os_close os fd). Qed.

Lemma closed_fds_closePipe2 os p : closed_fds (closePipe2 os p) = [fst p; snd p].
Proof.
  unfold closePipe2, s_readPipe, s_writePipe.
  now rewrite closed_fds_app, !closed_fds_closePipe.
Qed.

(** [createPipes] makes all four pipes or none: when a pipe cannot be made,
    the error is that of the failing call and both ends of every pipe made
    before it are closed, in the order they were made; when all four are
    made, nothing is closed. *)
Theorem createPipes_releases_what_it_made :
  forall os : OS,
    (forall (made : list (Z * Z)) (e : Z) (rest : list (Z + Z * Z)),
       (List.length made < 4)%nat ->
       os_pipe os = List.map inr made ++ inl e :: rest ->
       fst (fst (createPipes os)) = systemError e /\
       closed_fds (snd (createPipes os)) = flat_map (fun p => [fst p; snd p]) made) /\
    (forall (input output error closeFd : Z * Z) (rest : list (Z + Z * Z)),
       os_pipe os = inr input :: inr output :: inr error :: inr closeFd :: rest ->
       fst (createPipes os) = (Success, mkFileDescriptors input output error closeFd) /\
       closed_fds (snd (createPipes os)) = []).
Proof.
  intros os. split.
  - intros made e rest Hlen Hpipes. unfold createPipes, nth_pipe. rewrite Hpipes.
    destruct made as [|a [|b [|c [|d made]]]]; cbn in Hlen; try lia;
      cbn [List.map app List.nth fst snd flat_map closed_fds];
      rewrite ?closed_fds_app, ?closed_fds_closePipe2; split; reflexivity.
  - intros input output error closeFd rest Hpipes.
    unfold createPipes, nth_pipe. rewrite Hpipes. split; reflexivity.
Qed.

Lemma createPipes_releases_what_it_made_witness :
  closed_fds (snd (createPipes (mkOS (inr (mkRlimit 1024 4096))
                                  [inr (3, 4); inr (5, 6); inl 24]
                                  (inr 7) (fun _ => inr tt) (fun _ => inr [])
                                  (fun _ _ => inr 4) (fun _ _ => inr 0) (fun _ => [])
                                  (fun _ _ => inr tt) (fun _ => inl 10)))) =
  [3; 4; 5; 6].
Proof.
  apply (proj1 (createPipes_releases_what_it_made _) [(3, 4); (5, 6)] 24 []).
  - cbn. lia.
  - reflexivity.
Defined.

Lemma concat_empty_cons c cs :
  String.concat EmptyString (c :: cs) = c +:+ String.concat EmptyString cs.
Proof.
  destruct cs as [|d cs]; cbn [String.concat];
    [now rewrite append_empty_r | now rewrite append_nil].
Qed.

Lemma readFromPipe_loop_chunks :
  forall (fd : Z) (chunks : list string) (errno : Z)
         (rest : list (Z + string)) (out_data : string),
    Forall (fun chunk => chunk <> EmptyString) chunks ->
    readFromPipe_loop fd (List.map inr chunks ++ inl errno :: rest) out_data =
      Some (if errno =? EAGAIN then Success else systemError errno,
            out_data +:+ String.concat EmptyString chunks,
            repeat (call_read fd) (S (List.length chunks))) /\
    readFromPipe_loop fd (List.map inr chunks ++ inr EmptyString :: rest) out_data =
      Some (Success, out_data +:+ String.concat EmptyString chunks,
            repeat (call_read fd) (S (List.length chunks))).
Proof.
  intros fd chunks errno rest out_data Hchunks.
  revert out_data. induction Hchunks as [|c chunks Hc _ IH]; intros out_data.
  - cbn. rewrite append_empty_r. split; [|reflexivity].
    now destruct (errno =? EAGAIN).
  - cbn [List.map app readFromPipe_loop].
    destruct c as [|x c]; [contradiction|].
    destruct (IH (out_data +:+ String x c)) as [IH1 IH2]. rewrite IH1, IH2.
    rewrite concat_empty_cons, append_assoc. split; reflexivity.
Qed.

(** [readFromPipe] appends what the reads deliver, in order, to the data it
    was given; it stops at the first read that delivers nothing or fails and
    leaves later answers unread.  The end of the stream and [EAGAIN] are a
    success, any other failure is the error, and the data read before it is
    kept. *)
Theorem readFromPipe_accumulates :
  forall (os : OS) (fd : Z) (chunks : list string) (ending : Z + string)
         (rest : list (Z + string)) (out_data : string),
    Forall (fun chunk => chunk <> EmptyString) chunks ->
    (forall chunk, ending = inr chunk -> chunk = EmptyString) ->
    os_read os fd = List.map inr chunks ++ ending :: rest ->
    readFromPipe os fd out_data =
      Some (match ending with
            | inl errno => if errno =? EAGAIN then Success else systemError errno
            | inr _ => Success
            end,
            out_data +:+ String.concat EmptyString chunks,
            repeat (call_read fd) (S (List.length chunks))).
Proof.
  intros os fd chunks ending rest out_data Hchunks Hending Hread.
  unfold readFromPipe. rewrite Hread.
  destruct ending as [errno|chunk].
  - apply (proj1 (readFromPipe_loop_chunks fd chunks errno rest out_data Hchunks)).
  - rewrite (Hending chunk eq_refl).
    apply (proj2 (readFromPipe_loop_chunks fd chunks 0 rest out_data Hchunks)).
Qed.

Lemma readFromPipe_accumulates_witness :
  readFromPipe (sample_os (inr 0)) 5 "> " = Some (Success, "> hello", [call_read 5; call_read 5]).
Proof.
  refine (eq_trans (readFromPipe_accumulates (sample_os (inr 0)) 5 ["hello"]
                      (inr EmptyString) [] "> " _ _ _) _).
  - repeat constructor; discriminate.
  - now intros chunk [= <-].
  - reflexivity.
  - reflexivity.
Defined.

End Pipes.

(** ** The descriptor list from parent to child *)

Section DescriptorList.
Import Process.

Lemma send_each_all_written os closeFd openFds :
  (forall value, exists n, os_write_fd os closeFd value = inr n) ->
  send_each os closeFd openFds = (Success, List.map (call_write_fd closeFd) openFds).
Proof.
  intros Hw. induction openFds as [|fd openFds IH]; [reflexivity|].
  cbn [send_each List.map]. destruct (Hw fd) as [n ->]. now rewrite IH.
Qed.

(** When a write of a descriptor fails, nothing more is written. *)
Lemma send_each_stops os closeFd sent fd rest errno :
  (forall value, In value sent -> exists n, os_write_fd os closeFd value = inr n) ->
  os_write_fd os closeFd fd = inl errno ->
  send_each os closeFd (sent ++ fd :: rest) =
    (systemError errno, List.map (call_write_fd closeFd) (sent ++ [fd])).
Proof.
  intros Hw Hfail. induction sent as [|v sent IH].
  - cbn. now rewrite Hfail.
  - cbn [app send_each List.map]. destruct (Hw v (or_introl eq_refl)) as [n ->].
    rewrite IH; [reflexivity|]. intros value Hin. apply Hw. now right.
Qed.

Lemma sendFileDescriptors_all_written os closeFd in_childPid openFds :
  os_scandir os in_childPid = inr openFds ->
  (forall value, exists n, os_write_fd os closeFd value = inr n) ->
  sendFileDescriptors os closeFd in_childPid =
    (Success,
     call_scandir in_childPid
       :: List.map (call_write_fd closeFd) (List.map to_uint32 openFds)
       ++ [call_write_fd closeFd (-1)]).
Proof.
  intros Hscan Hw. unfold sendFileDescriptors. rewrite Hscan.
  rewrite (send_each_all_written _ _ _ Hw). cbn [isError].
  destruct (Hw (-1)) as [n ->]. reflexivity.
Qed.

(** [sendFileDescriptors] writes the open descriptors in the order of the
    enumeration, each narrowed to 32 bits, and the sentinel -1 after the
    last.  A failed write of a descriptor is returned and ends the stream
    without the sentinel; a failed write of the sentinel is not returned:
    the result is then that of the enumeration, a success when the
    descriptors were listed. *)
Theorem sendFileDescriptors_stream :
  forall (os : OS) (closeFd in_childPid : Z) (openFds : list Z),
    os_scandir os in_childPid = inr openFds ->
    ((forall value, exists n, os_write_fd os closeFd value = inr n) ->
     sendFileDescriptors os closeFd in_childPid =
       (Success,
        call_scandir in_childPid
          :: List.map (call_write_fd closeFd) (List.map to_uint32 openFds)
          ++ [call_write_fd closeFd (-1)])) /\
    (forall (sent rest : list Z) (fd errno : Z),
       openFds = sent ++ fd :: rest ->
       (forall value, In value sent ->
          exists n, os_write_fd os closeFd (to_uint32 value) = inr n) ->
       os_write_fd os closeFd (to_uint32 fd) = inl errno ->
       sendFileDescriptors os closeFd in_childPid =
         (systemError errno,
          call_scandir in_childPid
            :: List.map (call_write_fd closeFd) (List.map to_uint32 (sent ++ [fd])))) /\
    (forall errno : Z,
       (forall value, In value openFds ->
          exists n, os_write_fd os closeFd (to_uint32 value) = inr n) ->
       os_write_fd os closeFd (-1) = inl errno ->
       fst (sendFileDescriptors os closeFd in_childPid) = Success).
Proof.
  intros os closeFd in_childPid openFds Hscan. split; [|split].
  - now apply sendFileDescriptors_all_written.
  - unfold sendFileDescriptors. rewrite Hscan. intros sent rest fd errno -> Hw Hfail.
    rewrite !List.map_app. cbn [List.map].
    rewrite (send_each_stops os closeFd (List.map to_uint32 sent) (to_uint32 fd)
               (List.map to_uint32 rest) errno).
    + cbn [isError]. now rewrite List.map_app.
    + intros value Hin. apply in_map_iff in Hin as [v [<- Hv]]. now apply Hw.
    + exact Hfail.
  - unfold sendFileDescriptors. rewrite Hscan. intros errno Hw Hfail.
    assert (Hall : send_each os closeFd (List.map to_uint32 openFds) =
                   (Success, List.map (call_write_fd closeFd) (List.map to_uint32 openFds))).
    { clear Hfail Hscan. induction openFds as [|v openFds IH]; [reflexivity|].
      cbn [send_each List.map]. destruct (Hw v (or_introl eq_refl)) as [n ->].
      rewrite IH; [reflexivity|]. intros value Hin. apply Hw. now right. }
    rewrite Hall. cbn [isError]. now rewrite Hfail.
Qed.

Lemma sendFileDescriptors_stream_witness :
  sendFileDescriptors (sample_os (inr 0)) 10 4242 =
    (Success,
     [call_scandir 4242; call_write_fd 10 0; call_write_fd 10 1; call_write_fd 10 2;
      call_write_fd 10 4; call_write_fd 10 5; call_write_fd 10 7; call_write_fd 10 10;
      call_write_fd 10 (-1)]).
Proof.
  refine (eq_trans (proj1 (sendFileDescriptors_stream (sample_os (inr 0)) 10 4242
                             [0; 1; 2; 4; 5; 7; 10] _) _) _).
  - reflexivity.
  - intros value. now exists 4.
  - reflexivity.
Defined.

Lemma control_pipe_reads_app closeFd t1 t2 :
  control_pipe_reads closeFd (t1 ++ t2) =
  control_pipe_reads closeFd t1 ++ control_pipe_reads closeFd t2.
Proof.
  induction t1 as [|a t1 IH]; [reflexivity|].
  destruct a; cbn [app control_pipe_reads]; try exact IH.
  destruct (fd =? closeFd); [now rewrite IH | exact IH].
Qed.

Lemma control_pipe_reads_writes closeFd values :
  control_pipe_reads closeFd (List.map (call_write_fd closeFd) values) =
  List.map (fun value => mkRead 4 0 (to_int32 value)) values.
Proof.
  induction values as [|v values IH]; [reflexivity|].
  cbn [List.map control_pipe_reads]. now rewrite Z.eqb_refl, IH.
Qed.

Lemma to_int32_to_uint32 fd : 0 <= fd < 2 ^ 31 -> to_int32 (to_uint32 fd) = fd.
Proof.
  intros H. rewrite to_uint32_small by (unfold uint32_modulus; lia).
  now apply to_int32_small.
Qed.

(** The first loop of the child over a list of descriptors followed by the
    sentinel. *)
Lemma closeParentFds_read_listed in_pipeFd in_maxFd fds : forall fdsRead w,
  Forall (fun fd => 0 <= fd < 2 ^ 31) fds ->
  closeParentFds_read in_pipeFd in_maxFd
    (List.map (fun value => mkRead 4 0 (to_int32 value)) (List.map to_uint32 fds)
       ++ [mkRead 4 0 (to_int32 (-1))]) fdsRead w =
  Some (false, fdsRead || negb (vector_empty fds),
        close_all (List.filter (wanted in_pipeFd in_maxFd) fds) w).
Proof.
  induction fds as [|fd fds IH]; intros fdsRead w Hfds.
  - cbn. now rewrite orb_false_r.
  - inversion Hfds as [|? ? Hfd Hrest]; subst.
    cbn [List.map app closeParentFds_read bytesRead buffer_after errno_after].
    change (4 <=? 0) with false. cbv beta iota.
    rewrite (to_int32_to_uint32 _ Hfd).
    destruct (Z.eqb_spec fd (-1)) as [E|_]; [lia|].
    rewrite (to_uint32_small fd) by (unfold uint32_modulus; lia).
    rewrite (IH true _ Hrest). cbn [orb vector_empty negb List.filter].
    rewrite orb_true_r. unfold wanted at 2.
    destruct ((fd >=? startFd) && (fd <? in_maxFd) && negb (fd =? in_pipeFd));
      reflexivity.
Qed.

(** The two sides of the control pipe together: when the parent lists its
    descriptors (at least one, as numbers below [2^31]) and every write
    succeeds, the child closes exactly those of them that are user
    descriptors below the limit and not the pipe itself, in the order
    listed, and does not sweep. *)
Theorem child_closes_what_parent_listed :
  forall (os : OS) (closeFd in_childPid : Z) (openFds : list Z)
         (in_pipeFd in_maxFd : Z) (w : Child),
    os_scandir os in_childPid = inr openFds ->
    (forall value, exists n, os_write_fd os closeFd value = inr n) ->
    openFds <> [] ->
    Forall (fun fd => 0 <= fd < 2 ^ 31) openFds ->
    closeParentFds in_pipeFd in_maxFd
      (control_pipe_reads closeFd (snd (sendFileDescriptors os closeFd in_childPid))) w =
    Some (close_all (List.filter (wanted in_pipeFd in_maxFd) openFds) w).
Proof.
  intros os closeFd in_childPid openFds in_pipeFd in_maxFd w Hscan Hw Hne Hfds.
  rewrite (sendFileDescriptors_all_written os closeFd in_childPid openFds Hscan Hw).
  cbn [snd control_pipe_reads].
  rewrite control_pipe_reads_app, control_pipe_reads_writes.
  cbn [control_pipe_reads]. rewrite Z.eqb_refl.
  unfold closeParentFds. rewrite (closeParentFds_read_listed _ _ _ _ _ Hfds).
  destruct openFds; [contradiction | reflexivity].
Qed.

Lemma child_closes_what_parent_listed_witness :
  closeParentFds 9 4096
    (control_pipe_reads 10 (snd (sendFileDescriptors (sample_os (inr 0)) 10 4242)))
    inherited_table =
  Some (close_all [4; 5; 7; 10] inherited_table).
Proof.
  refine (eq_trans (child_closes_what_parent_listed (sample_os (inr 0)) 10 4242
                      [0; 1; 2; 4; 5; 7; 10] 9 4096 inherited_table _ _ _ _) _).
  - reflexivity.
  - intros value. now exists 4.
  - discriminate.
  - repeat constructor; lia.
  - reflexivity.
Defined.

(** When the parent cannot list its descriptors, or lists none, the child
    is sent the sentinel alone and sweeps: it closes every descriptor from 3
    up to the narrowed limit except the pipe. *)
Theorem child_sweeps_when_nothing_listed :
  forall (os : OS) (closeFd in_childPid in_pipeFd in_maxFd : Z) (w : Child),
    (exists errno, os_scandir os in_childPid = inl errno) \/
      os_scandir os in_childPid = inr [] ->
    (exists n, os_write_fd os closeFd (-1) = inr n) ->
    0 <= in_pipeFd < 2 ^ 31 ->
    exists w',
      closeParentFds in_pipeFd in_maxFd
        (control_pipe_reads closeFd (snd (sendFileDescriptors os closeFd in_childPid))) w =
        Some w' /\
      close_calls w' =
        close_calls w ++
        List.filter (fun fd => negb (fd =? in_pipeFd))
          (seqZ startFd (sweep_maxFd in_maxFd - startFd)).
Proof.
  intros os closeFd in_childPid in_pipeFd in_maxFd w Hscan [n Hn] Hpipe.
  assert (Hreads :
    control_pipe_reads closeFd (snd (sendFileDescriptors os closeFd in_childPid)) =
    [mkRead 4 0 (-1)]).
  { unfold sendFileDescriptors.
    destruct Hscan as [[errno ->] | ->]; cbn [send_each List.map isError]; rewrite Hn;
      cbn [snd app control_pipe_reads]; now rewrite Z.eqb_refl. }
  rewrite Hreads. unfold closeParentFds. cbn.
  eexists. split; [reflexivity|].
  pose proof (to_uint32_range (if in_maxFd =? RLIM_INFINITY then 1024 else in_maxFd)) as Hm.
  fold (sweep_maxFd in_maxFd) in Hm.
  destruct (closeParentFds_sweep_spec (sweep_maxFd in_maxFd) in_pipeFd ltac:(lia)
              (Z.to_nat (sweep_maxFd in_maxFd)) startFd w) as [Hc _].
  - unfold startFd, STDERR_FILENO. lia.
  - unfold startFd, STDERR_FILENO. lia.
  - rewrite to_uint32_small in Hc by (unfold uint32_modulus; lia). exact Hc.
Qed.

Lemma child_sweeps_when_nothing_listed_witness :
  exists w',
    closeParentFds 9 8
      (control_pipe_reads 10
         (snd (sendFileDescriptors
                 (mkOS (inr (mkRlimit 8 8)) [] (inr 7) (fun _ => inr tt) (fun _ => inl 2)
                    (fun _ _ => inr 4) (fun _ _ => inr 0) (fun _ => [])
                    (fun _ _ => inr tt) (fun _ => inl 10)) 10 4242)))
      inherited_table = Some w' /\
    close_calls w' = [3; 4; 5; 6; 7].
Proof.
  apply (child_sweeps_when_nothing_listed
           (mkOS (inr (mkRlimit 8 8)) [] (inr 7) (fun _ => inr tt) (fun _ => inl 2)
              (fun _ _ => inr 4) (fun _ _ => inr 0) (fun _ => [])
              (fun _ _ => inr tt) (fun _ => inl 10)) 10 4242 9 8 inherited_table).
  - left. now exists 2.
  - now exists 4.
  - lia.
Defined.

End DescriptorList.

(** ** What the descriptor hygiene never closes *)

Section Spared.
Import Process.

#[local] Set Warnings "-clear-no-such-hyp".

Lemma to_uint32_of_negative b :
  - 2 ^ 31 <= b < 0 -> to_uint32 b = b + uint32_modulus.
Proof.
  intros H. unfold to_uint32, uint32_modulus in *.
  symmetry. apply (Z.mod_unique b (2 ^ 32) (-1)); lia.
Qed.

(** Whatever the first loop closes is a user descriptor and not the pipe. *)
Lemma closeParentFds_read_spares in_pipeFd in_maxFd reads :
  0 <= in_pipeFd < 2 ^ 31 ->
  Forall (fun r => - 2 ^ 31 <= buffer_after r < 2 ^ 31) reads ->
  forall fdsRead w error fdsRead' w',
    closeParentFds_read in_pipeFd in_maxFd reads fdsRead w = Some (error, fdsRead', w') ->
    exists closed,
      close_calls w' = close_calls w ++ closed /\
      open_fds w' = open_fds w ∖ list_to_set closed /\
      Forall (fun fd => startFd <= fd /\ fd <> in_pipeFd) closed.
Proof.
  intros Hpipe Hreads. induction Hreads as [|r reads Hr _ IH];
    intros fdsRead w error fdsRead' w' H; [discriminate|].
  cbn [closeParentFds_read] in H.
  assert (Hnone : exists closed : list Z,
            close_calls w = close_calls w ++ closed /\
            open_fds w = open_fds w ∖ list_to_set closed /\
            Forall (fun fd => startFd <= fd /\ fd <> in_pipeFd) closed).
  { exists []. rewrite app_nil_r. split; [reflexivity|]. split; [set_solver | constructor]. }
  destruct (bytesRead r <=? 0).
  - destruct (negb (errno_after r =? EINTR) && negb (errno_after r =? EAGAIN)).
    + injection H as _ _ <-. exact Hnone.
    + now apply IH in H.
  - destruct (buffer_after r =? -1).
    + injection H as _ _ <-. exact Hnone.
    + apply IH in H. destruct H as [closed [Hc [Ho Hf]]].
      destruct ((to_uint32 (buffer_after r) >=? startFd)
                && (to_uint32 (buffer_after r) <? in_maxFd)
                && negb (buffer_after r =? in_pipeFd)) eqn:E.
      * apply andb_prop in E as [E Hneq]. apply andb_prop in E as [Hge _].
        exists (to_uint32 (buffer_after r) :: closed).
        cbn [closeFd close_calls open_fds] in Hc, Ho.
        split; [now rewrite Hc, <- app_assoc|]. split.
        -- rewrite Ho. cbn [list_to_set foldr]. set_solver.
        -- constructor; [|exact Hf]. split; [lia|].
           apply negb_true_iff, Z.eqb_neq in Hneq.
           destruct (Z_lt_le_dec (buffer_after r) 0) as [Hneg|Hpos].
           ++ rewrite to_uint32_of_negative by lia. unfold uint32_modulus. lia.
           ++ rewrite to_uint32_small by (unfold uint32_modulus; lia). exact Hneq.
      * now exists closed.
Qed.

(** On both its paths [closeParentFds] closes user descriptors only and
    never the control pipe; the standard streams and the pipe that were
    open before are open after. *)
Theorem closeParentFds_spares_streams_and_pipe :
  forall (in_pipeFd in_maxFd : Z) (reads : list read_outcome) (w w' : Child),
    0 <= in_pipeFd < 2 ^ 31 ->
    Forall (fun r => - 2 ^ 31 <= buffer_after r < 2 ^ 31) reads ->
    closeParentFds in_pipeFd in_maxFd reads w = Some w' ->
    exists closed,
      close_calls w' = close_calls w ++ closed /\
      Forall (fun fd => STDERR_FILENO < fd /\ fd <> in_pipeFd) closed /\
      (forall fd, fd ∈ open_fds w -> fd <= STDERR_FILENO \/ fd = in_pipeFd ->
                  fd ∈ open_fds w').
Proof.
  intros in_pipeFd in_maxFd reads w w' Hpipe Hreads H.
  unfold closeParentFds in H.
  destruct (closeParentFds_read in_pipeFd in_maxFd reads false w)
    as [[[error fdsRead] w1]|] eqn:E; [|discriminate].
  destruct (closeParentFds_read_spares _ _ _ Hpipe Hreads _ _ _ _ _ E)
    as [closed [Hc [Ho Hf]]].
  assert (Hkeep : forall fd, fd ∈ open_fds w -> fd <= STDERR_FILENO \/ fd = in_pipeFd ->
                             fd ∈ open_fds w1).
  { intros fd Hin Hfd. rewrite Ho. apply elem_of_difference. split; [exact Hin|].
    intros Hcl. apply elem_of_list_to_set in Hcl.
    rewrite List.Forall_forall in Hf. apply list_elem_of_In in Hcl.
    specialize (Hf _ Hcl). unfold startFd in Hf. lia. }
  assert (Hf' : Forall (fun fd => STDERR_FILENO < fd /\ fd <> in_pipeFd) closed).
  { eapply List.Forall_impl; [|exact Hf]. cbn. unfold startFd. intros; lia. }
  destruct (error || negb fdsRead).
  - injection H as <-.
    pose proof (to_uint32_range (if in_maxFd =? RLIM_INFINITY then 1024 else in_maxFd)) as Hm.
    fold (sweep_maxFd in_maxFd) in Hm.
    destruct (closeParentFds_sweep_spec (sweep_maxFd in_maxFd) in_pipeFd ltac:(lia)
                (Z.to_nat (sweep_maxFd in_maxFd)) startFd w1) as [Hsc Hso].
    + unfold startFd, STDERR_FILENO. lia.
    + unfold startFd, STDERR_FILENO. lia.
    + rewrite to_uint32_small in Hsc, Hso by (unfold uint32_modulus; lia).
      eexists. split; [rewrite Hsc, Hc, <- app_assoc; reflexivity|]. split.
      * apply Forall_app. split; [exact Hf'|].
        apply List.Forall_forall. intros fd Hin. apply filter_In in Hin as [Hin Hne].
        apply list_elem_of_In, elem_of_seqZ in Hin.
        apply negb_true_iff, Z.eqb_neq in Hne. unfold startFd in Hin. lia.
      * intros fd Hin Hfd. apply Hso. split; [now apply Hkeep|].
        unfold startFd. lia.
  - injection H as <-. exists closed. split; [exact Hc|]. split; [exact Hf' | exact Hkeep].
Qed.

Lemma closeParentFds_spares_streams_and_pipe_witness :
  exists closed,
    close_calls (close_all [4; 5] inherited_table) = close_calls inherited_table ++ closed /\
    Forall (fun fd => STDERR_FILENO < fd /\ fd <> 9) closed.
Proof.
  destruct (closeParentFds_spares_streams_and_pipe 9 4096
              [mkRead 4 0 1; mkRead 4 0 4; mkRead 4 0 9; mkRead 4 0 5; mkRead 4 0 (-1)]
              inherited_table (close_all [4; 5] inherited_table))
    as [closed [Hc [Hf _]]].
  - lia.
  - repeat constructor; cbn; lia.
  - reflexivity.
  - exists closed. split; [exact Hc | exact Hf].
Defined.

End Spared.

(** ** The launch in the parent *)

Section Launch.
Import Process.

Lemma closed_fds_send_each os closeFd openFds :
  closed_fds (snd (send_each os closeFd openFds)) = [].
Proof.
  induction openFds as [|fd openFds IH]; [reflexivity|].
  cbn [send_each]. destruct (os_write_fd os closeFd fd); [reflexivity|].
  destruct (send_each os closeFd openFds) as [e t]. exact IH.
Qed.

Lemma closed_fds_sendFileDescriptors os closeFd in_childPid :
  closed_fds (snd (sendFileDescriptors os closeFd in_childPid)) = [].
Proof.
  unfold sendFileDescriptors. destruct (os_scandir os in_childPid) as [errno|openFds].
  - destruct (os_write_fd os closeFd (-1)); reflexivity.
  - pose proof (closed_fds_send_each os closeFd (List.map to_uint32 openFds)) as H.
    destruct (send_each os closeFd (List.map to_uint32 openFds)) as [e t]. cbn [snd] in H.
    destruct (isError e); [exact H|].
    destruct (os_write_fd os closeFd (-1)); cbn [snd closed_fds app];
      now rewrite closed_fds_app, H.
Qed.

(** After the four pipes are made, the parent keeps the write end of the
    input pipe and the read ends of the output and error pipes, and closes
    the other four ends and, after the descriptor list is sent, the write
    end of the control pipe: five ends, in that order, and no other.  What
    it returns is what [sendFileDescriptors] returns for the pid that
    [fork] left, -1 when [fork] failed: the failure of [fork] itself is not
    returned. *)
Theorem launch_keeps_three_pipe_ends :
  forall (fuel : nat) (os : OS) (this : Impl) (message : string) (limit : rlimit)
         (input output error closeFd : Z * Z) (rest : list (Z + Z * Z)),
    logProcessSpawn fuel this = Returned message ->
    os_getrlimit os = inr limit ->
    os_pipe os = inr input :: inr output :: inr error :: inr closeFd :: rest ->
    exists (this' : Impl) (t : trace),
      AbstractChildProcess_run fuel os this =
        Returned
          (fst (sendFileDescriptors os (snd closeFd)
                  (match os_fork os with inl _ => -1 | inr pid => pid end)),
           this', t) /\
      StdInFd this' = snd input /\
      StdOutFd this' = fst output /\
      StdErrFd this' = fst error /\
      closed_fds t = [fst input; snd output; snd error; fst closeFd; snd closeFd].
Proof.
  intros fuel os this message limit input output error closeFd rest Hlog Hlimit Hpipes.
  unfold AbstractChildProcess_run. rewrite Hlog, Hlimit. cbn [getFilesLimit].
  unfold createPipes, nth_pipe. rewrite Hpipes. cbn [List.nth isError].
  cbn [Input Output Error CloseFd]. unfold s_writePipe, s_readPipe.
  pose proof (closed_fds_sendFileDescriptors os (snd closeFd)
                (match os_fork os with inl _ => -1 | inr pid => pid end)) as Hsend.
  destruct (sendFileDescriptors os (snd closeFd)
              (match os_fork os with inl _ => -1 | inr pid => pid end)) as [e t3].
  cbn [snd] in Hsend.
  eexists. eexists. split; [reflexivity|].
  cbn [StdInFd StdOutFd StdErrFd].
  split; [reflexivity|]. split; [reflexivity|]. split; [reflexivity|].
  rewrite !closed_fds_app, !closed_fds_closePipe, Hsend. reflexivity.
Qed.

Lemma launch_keeps_three_pipe_ends_witness :
  exists (this' : Impl) (t : trace),
    AbstractChildProcess_run 1 (sample_os (inr 0)) (sample_process EmptyString) =
      Returned (Success, this', t) /\
    StdInFd this' = 4 /\ StdOutFd this' = 5 /\ StdErrFd this' = 7 /\
    closed_fds t = [3; 6; 8; 9; 10].
Proof.
  edestruct (launch_keeps_three_pipe_ends 1 (sample_os (inr 0)) (sample_process EmptyString))
    as [this' [t [Hrun H]]].
  - vm_compute. reflexivity.
  - reflexivity.
  - reflexivity.
  - exists this', t. split; [exact Hrun | exact H].
Defined.

Lemma no_fork_closePipe os fd : Forall (fun a => a <> call_fork) (closePipe os fd).
Proof. unfold closePipe. destruct (os_close os fd); repeat constructor; discriminate. Qed.

Lemma no_fork_closePipe2 os p : Forall (fun a => a <> call_fork) (closePipe2 os p).
Proof. unfold closePipe2. apply Forall_app. split; apply no_fork_closePipe. Qed.

(** A launch that cannot read the limit makes no pipe, and a launch that
    cannot make its four pipes does not fork: the error of the failing
    call is returned, the object is left as it was, and both ends of the
    pipes made so far are closed. *)
Theorem launch_fails_before_fork :
  forall (fuel : nat) (os : OS) (this : Impl) (message : string),
    logProcessSpawn fuel this = Returned message ->
    (forall e : Z,
       os_getrlimit os = inl e ->
       AbstractChildProcess_run fuel os this =
         Returned (systemError e, this, [logDebugMessage message; call_getrlimit])) /\
    (forall (limit : rlimit) (made : list (Z * Z)) (e : Z) (rest : list (Z + Z * Z)),
       os_getrlimit os = inr limit ->
       (List.length made < 4)%nat ->
       os_pipe os = List.map inr made ++ inl e :: rest ->
       exists t : trace,
         AbstractChildProcess_run fuel os this = Returned (systemError e, this, t) /\
         Forall (fun a => a <> call_fork) t /\
         closed_fds t = flat_map (fun p => [fst p; snd p]) made).
Proof.
  intros fuel os this message Hlog. split.
  - intros e Hlimit. unfold AbstractChildProcess_run. now rewrite Hlog, Hlimit.
  - intros limit made e rest Hlimit Hlen Hpipes.
    unfold AbstractChildProcess_run. rewrite Hlog, Hlimit. cbn [getFilesLimit].
    unfold createPipes, nth_pipe. rewrite Hpipes.
    destruct made as [|a [|b [|c [|d made]]]]; cbn in Hlen; try lia;
      cbn [List.map app List.nth isError flat_map];
      (eexists; split; [reflexivity|]; split;
       [ cbn [app];
         repeat first [ apply List.Forall_nil
                      | apply List.Forall_cons; [discriminate|]
                      | apply no_fork_closePipe2
                      | apply no_fork_closePipe
                      | apply Forall_app; split ]
       | cbn [closed_fds app]; rewrite ?closed_fds_app, ?closed_fds_closePipe2;
         reflexivity ]).
Qed.

Lemma launch_fails_before_fork_witness :
  exists t : trace,
    AbstractChildProcess_run 1
      (mkOS (inr (mkRlimit 1024 4096)) [inr (3, 4); inr (5, 6); inl 24]
         (inr 7) (fun _ => inr tt) (fun _ => inr [])
         (fun _ _ => inr 4) (fun _ _ => inr 0) (fun _ => [])
         (fun _ _ => inr tt) (fun _ => inl 10))
      (sample_process EmptyString) =
      Returned (systemError 24, sample_process EmptyString, t) /\
    Forall (fun a => a <> call_fork) t /\
    closed_fds t = [3; 4; 5; 6].
Proof.
  assert (Hlog : exists message,
            logProcessSpawn 1 (sample_process EmptyString) = Returned message).
  { eexists. vm_compute. reflexivity. }
  destruct Hlog as [message Hlog].
  apply (proj2 (launch_fails_before_fork 1 _ (sample_process EmptyString) message Hlog)
           (mkRlimit 1024 4096) [(3, 4); (5, 6)] 24 []).
  - reflexivity.
  - cbn. lia.
  - reflexivity.
Defined.

End Launch.

(** ** The synchronous run *)

Section SynchronousRun.
Import Process.

Lemma readFromPipe_chunks_eof os fd chunks rest out_data :
  Forall (fun chunk => chunk <> EmptyString) chunks ->
  os_read os fd = List.map inr chunks ++ inr EmptyString :: rest ->
  readFromPipe os fd out_data =
    Some (Success, out_data +:+ String.concat EmptyString chunks,
          repeat (call_read fd) (S (List.length chunks))).
Proof.
  intros Hchunks Hread. unfold readFromPipe. rewrite Hread.
  apply (proj2 (readFromPipe_loop_chunks fd chunks 0 rest out_data Hchunks)).
Qed.

Lemma readFromPipe_chunks_error os fd chunks errno rest out_data :
  Forall (fun chunk => chunk <> EmptyString) chunks ->
  os_read os fd = List.map inr chunks ++ inl errno :: rest ->
  readFromPipe os fd out_data =
    Some (if errno =? EAGAIN then Success else systemError errno,
          out_data +:+ String.concat EmptyString chunks,
          repeat (call_read fd) (S (List.length chunks))).
Proof.
  intros Hchunks Hread. unfold readFromPipe. rewrite Hread.
  apply (proj1 (readFromPipe_loop_chunks fd chunks errno rest out_data Hchunks)).
Qed.

(** A run whose payload is written in full and whose pipes deliver their
    data up to the end of the stream returns the data of each pipe, in
    order, appended to what the result held; the input pipe is closed after
    the write, the output pipe is read to its end before the error pipe,
    and the wait comes last. *)
Theorem synchronous_run_collects_output :
  forall (fuel : nat) (os : OS) (this0 this : Impl) (t0 : trace)
         (out_result : ProcessResult) (outs errs : list string)
         (rest1 rest2 : list (Z + string)),
    AbstractChildProcess_run fuel os this0 = Returned (Success, this, t0) ->
    string_empty (StandardInput this) = false ->
    os_write os (StdInFd this) (StandardInput this) = inr (size (StandardInput this)) ->
    Forall (fun chunk => chunk <> EmptyString) outs ->
    Forall (fun chunk => chunk <> EmptyString) errs ->
    os_read os (StdOutFd this) = List.map inr outs ++ inr EmptyString :: rest1 ->
    os_read os (StdErrFd this) = List.map inr errs ++ inr EmptyString :: rest2 ->
    SyncChildProcess_run fuel os this0 out_result =
      Returned
        (fst (wait_outcome os (Pid this)), this,
         mkProcessResult (StdOut out_result +:+ String.concat EmptyString outs)
           (StdError out_result +:+ String.concat EmptyString errs)
           (snd (wait_outcome os (Pid this))),
         t0 ++ (call_write (StdInFd this) (StandardInput this) :: closePipe os (StdInFd this))
            ++ repeat (call_read (StdOutFd this)) (S (List.length outs))
            ++ repeat (call_read (StdErrFd this)) (S (List.length errs))
            ++ [call_waitpid (Pid this)]).
Proof.
  intros fuel os this0 this t0 out_result outs errs rest1 rest2
    Hrun Hin Hwrite Houts Herrs Hout Herr.
  unfold SyncChildProcess_run. rewrite Hrun. cbn [isError].
  rewrite Hin. cbn [negb]. unfold writeToPipe. rewrite Hwrite, Z.eqb_refl.
  cbn [negb isError]. cbv beta iota zeta.
  rewrite (readFromPipe_chunks_eof _ _ _ _ _ Houts Hout). cbv beta iota zeta.
  cbn [isError negb].
  rewrite (readFromPipe_chunks_eof _ _ _ _ _ Herrs Herr). cbv beta iota zeta.
  unfold wait_outcome.
  destruct (os_waitpid os (Pid this)) as [errno|[result status]].
  - destruct (errno =? ECHILD); reflexivity.
  - reflexivity.
Qed.

Lemma synchronous_run_collects_output_witness :
  exists t,
    SyncChildProcess_run 1 (sample_os (inr 302)) (sample_process EmptyString)
      (mkProcessResult EmptyString EmptyString 7) =
    Returned (Success, sample_launched, mkProcessResult "hello" EmptyString 0, t).
Proof.
  eexists.
  refine (eq_trans (synchronous_run_collects_output 1 (sample_os (inr 302))
                      (sample_process EmptyString) sample_launched _
                      (mkProcessResult EmptyString EmptyString 7) ["hello"] [] [] []
                      _ _ _ _ _ _ _) _).
  - vm_compute. reflexivity.
  - reflexivity.
  - vm_compute. reflexivity.
  - repeat constructor; discriminate.
  - constructor.
  - reflexivity.
  - reflexivity.
  - reflexivity.
Defined.

(** A read of the output pipe that fails is not returned: the data read
    before the failure is kept, the error pipe is not read, the wait still
    takes place, and the return value and the exit code are those of the
    wait. *)
Theorem synchronous_run_swallows_read_error :
  forall (fuel : nat) (os : OS) (this0 this : Impl) (t0 : trace)
         (out_result : ProcessResult) (outs : list string) (errno : Z)
         (rest : list (Z + string)),
    AbstractChildProcess_run fuel os this0 = Returned (Success, this, t0) ->
    string_empty (StandardInput this) = false ->
    os_write os (StdInFd this) (StandardInput this) = inr (size (StandardInput this)) ->
    Forall (fun chunk => chunk <> EmptyString) outs ->
    os_read os (StdOutFd this) = List.map inr outs ++ inl errno :: rest ->
    errno <> EAGAIN ->
    SyncChildProcess_run fuel os this0 out_result =
      Returned
        (fst (wait_outcome os (Pid this)), this,
         mkProcessResult (StdOut out_result +:+ String.concat EmptyString outs)
           (StdError out_result) (snd (wait_outcome os (Pid this))),
         t0 ++ (call_write (StdInFd this) (StandardInput this) :: closePipe os (StdInFd this))
            ++ repeat (call_read (StdOutFd this)) (S (List.length outs))
            ++ [call_waitpid (Pid this)]).
Proof.
  intros fuel os this0 this t0 out_result outs errno rest
    Hrun Hin Hwrite Houts Hout Herrno.
  unfold SyncChildProcess_run. rewrite Hrun. cbn [isError].
  rewrite Hin. cbn [negb]. unfold writeToPipe. rewrite Hwrite, Z.eqb_refl.
  cbn [negb isError]. cbv beta iota zeta.
  rewrite (readFromPipe_chunks_error _ _ _ _ _ _ Houts Hout).
  destruct (Z.eqb_spec errno EAGAIN) as [E|_]; [contradiction|].
  cbv beta iota zeta. cbn [isError negb]. cbv beta iota zeta. cbn [app].
  unfold wait_outcome.
  destruct (os_waitpid os (Pid this)) as [e|[result status]].
  - destruct (e =? ECHILD); reflexivity.
  - reflexivity.
Qed.

Lemma synchronous_run_swallows_read_error_witness :
  exists t,
    SyncChildProcess_run 1
      (mkOS (inr (mkRlimit 1024 4096)) [inr (3, 4); inr (5, 6); inr (7, 8); inr (9, 10)]
         (inr 4242) (fun _ => inr tt) (fun _ => inr [0; 1; 2])
         (fun _ _ => inr 4) (fun _ _ => inr 302)
         (fun fd => if fd =? 5 then [inr "par"; inl 5] else [inr "lost"; inr EmptyString])
         (fun _ _ => inr tt) (fun _ => inr (4242, 256)))
      (sample_process EmptyString) (mkProcessResult EmptyString EmptyString 0) =
    Returned (Success, sample_launched, mkProcessResult "par" EmptyString 1, t).
Proof.
  eexists.
  refine (eq_trans (synchronous_run_swallows_read_error 1 _
                      (sample_process EmptyString) sample_launched _
                      (mkProcessResult EmptyString EmptyString 0) ["par"] 5 []
                      _ _ _ _ _ _) _).
  - vm_compute. reflexivity.
  - reflexivity.
  - vm_compute. reflexivity.
  - repeat constructor; discriminate.
  - reflexivity.
  - discriminate.
  - reflexivity.
Defined.




(** The exit code that the wait leaves: for a child that left with
    [exit(code)] it is [code]; for a child that a signal ended it is the
    wait status as it is, which is the number of the signal.  So the exit
    code does not tell the death by signal [n] from [exit(n)]. *)
Theorem exit_code_of_wait_status :
  forall (os : OS) (pid child : Z),
    (forall code : Z,
       0 <= code < 256 ->
       os_waitpid os pid = inr (child, status_exited code) ->
       wait_outcome os pid = (Success, code)) /\
    (forall sig : Z,
       1 <= sig < 128 ->
       os_waitpid os pid = inr (child, status_signaled sig) ->
       wait_outcome os pid = (Success, sig)).
Proof.
  intros os pid child.
  assert (Hall : forall (f : Z -> bool) (lo n : Z),
            forallb f (seqZ lo n) = true -> forall z, lo <= z < lo + n -> f z = true).
  { intros f lo n H z Hz. rewrite forallb_forall in H. apply H.
    apply list_elem_of_In, elem_of_seqZ. lia. }
  split.
  - intros code Hcode Hwait. unfold wait_outcome. rewrite Hwait.
    pose proof (Hall (fun c => WIFEXITED (status_exited c)
                               && (WEXITSTATUS (status_exited c) =? c)) 0 256) as H.
    specialize (H ltac:(vm_compute; reflexivity) code ltac:(lia)). cbv beta in H.
    apply andb_prop in H as [H1 H2]. apply Z.eqb_eq in H2. now rewrite H1, H2.
  - intros sig Hsig Hwait. unfold wait_outcome. rewrite Hwait.
    pose proof (Hall (fun s => negb (WIFEXITED (status_signaled s))) 1 127) as H.
    specialize (H ltac:(vm_compute; reflexivity) sig ltac:(lia)). cbv beta in H.
    apply negb_true_iff in H. now rewrite H.
Qed.

Lemma exit_code_of_wait_status_witness :
  wait_outcome (mkOS (inr (mkRlimit 1024 4096)) [] (inr 4242) (fun _ => inr tt)
                  (fun _ => inr []) (fun _ _ => inr 4) (fun _ _ => inr 0) (fun _ => [])
                  (fun _ _ => inr tt) (fun _ => inr (4242, status_signaled 15))) (-1) =
    (Success, 15) /\
  wait_outcome (mkOS (inr (mkRlimit 1024 4096)) [] (inr 4242) (fun _ => inr tt)
                  (fun _ => inr []) (fun _ _ => inr 4) (fun _ _ => inr 0) (fun _ => [])
                  (fun _ _ => inr tt) (fun _ => inr (4242, status_exited 15))) (-1) =
    (Success, 15).
Proof.
  split.
  - apply (proj2 (exit_code_of_wait_status _ (-1) 4242) 15); [lia | reflexivity].
  - apply (proj1 (exit_code_of_wait_status _ (-1) 4242) 15); [lia | reflexivity].
Defined.


End SynchronousRun.

(** ** The log entry of a launch *)

Section LoggedProfile.
Import Process.

Lemma substring_all b : String.substring 0 (String.length b) b = b.
Proof.
  induction b as [|x b IH]; [reflexivity|].
  cbn [String.length String.substring]. now rewrite IH.
Qed.

Lemma substring_append_l a b : String.substring 0 (String.length a) (a +:+ b) = a.
Proof.
  induction a as [|x a IH]; rewrite ?append_nil, ?append_cons;
    cbn [String.length String.substring].
  - now destruct b.
  - now rewrite IH.
Qed.

Lemma substring_append_r a b :
  String.substring (String.length a) (String.length b) (a +:+ b) = b.
Proof.
  induction a as [|x a IH]; rewrite ?append_nil, ?append_cons;
    cbn [String.length String.substring]; [apply substring_all | exact IH].
Qed.

Lemma substr_from_append a b :
  substr_from (a +:+ b) (Z.of_nat (String.length a)) = b.
Proof.
  unfold substr_from. rewrite Nat2Z.id, length_append.
  replace (String.length a + String.length b - String.length a)%nat
    with (String.length b) by lia.
  apply substring_append_r.
Qed.

(** In a plain text followed by an escaped quote, the first quote is the
    escaped one. *)
Lemma find_char_from_plain_escaped pw post :
  plain pw = true ->
  find_char_from json.dquote (pw +:+ String json.backslash (String json.dquote post)) 0 =
    Some (S (String.length pw)).
Proof.
  induction pw as [|x pw IH]; intros Hp.
  - reflexivity.
  - cbn in Hp. apply andb_prop in Hp as [Hx Hp].
    apply plain_char_not_quote in Hx as [Hq _].
    rewrite append_cons. cbn [find_char_from String.length]. rewrite Hq, (IH Hp). reflexivity.
Qed.

(** The scan over an empty value ends in its first turn and nothing is
    replaced. *)
Lemma stripPassword_empty_value pre post fuel :
  let s := pre +:+ password_key +:+ String json.dquote post in
  String.index 0 password_key s = Some (String.length pre) ->
  size s < 2 ^ 31 ->
  stripPassword (S fuel) s = Returned s.
Proof.
  intros s Hidx Hsize.
  assert (Hs : s = (pre +:+ password_key) +:+ (EmptyString +:+ String json.dquote post)).
  { unfold s. now rewrite append_assoc, append_nil. }
  assert (Hl : Z.of_nat (String.length (pre +:+ password_key)) =
               Z.of_nat (String.length pre) + beforeLen).
  { rewrite length_append. change (String.length password_key) with 12%nat.
    unfold beforeLen. lia. }
  assert (Hlen : size s = Z.of_nat (String.length pre) + beforeLen + 1
                          + Z.of_nat (String.length post)).
  { unfold size. rewrite Hs, length_append, append_nil. cbn [String.length]. lia. }
  unfold stripPassword. cbv zeta. unfold string_find. rewrite Hidx.
  rewrite to_int32_small by (unfold beforeLen in Hlen; lia).
  rewrite to_uint64_small by (unfold uint64_modulus, beforeLen in *; lia).
  destruct (Z.eqb_spec (Z.of_nat (String.length pre)) npos) as [E|_];
    [unfold npos, uint64_modulus, beforeLen in *; lia|].
  cbn [negb scan_loop]. unfold scan_step. cbv zeta.
  assert (Hfind : string_find_char s json.dquote
                    (to_uint64 (Z.of_nat (String.length pre) + beforeLen)) =
                  Z.of_nat (String.length pre) + beforeLen).
  { rewrite to_uint64_small by (unfold uint64_modulus, beforeLen in *; lia).
    unfold string_find_char.
    destruct (Z.leb_spec (size s) (Z.of_nat (String.length pre) + beforeLen)); [lia|].
    rewrite <- Hl, Nat2Z.id.
    replace (String.length (pre +:+ password_key))
      with (String.length (pre +:+ password_key) + 0)%nat at 1 by lia.
    rewrite Hs, find_char_from_append, (find_char_from_plain EmptyString post eq_refl).
    cbn [option_map String.length]. lia. }
  rewrite Hfind.
  rewrite to_int32_small by (unfold beforeLen in *; lia).
  rewrite to_uint64_small by (unfold uint64_modulus, beforeLen in *; lia).
  destruct (Z.eqb_spec (Z.of_nat (String.length pre) + beforeLen) npos) as [E|_];
    [unfold npos, uint64_modulus, beforeLen in *; lia|].
  now rewrite Z.eqb_refl.
Qed.

(** The scan over a plain text followed by an escaped quote ends at that
    quote: one backslash is counted, the distance 2 is even. *)
Lemma stripPassword_escaped_quote pre pw post fuel :
  let s := pre +:+ password_key +:+ pw
             +:+ String json.backslash (String json.dquote post) in
  String.index 0 password_key s = Some (String.length pre) ->
  pw <> EmptyString ->
  plain pw = true ->
  size s < 2 ^ 31 ->
  stripPassword (S fuel) s =
    Returned (pre +:+ password_key +:+ redaction_marker +:+ String json.dquote post).
Proof.
  intros s Hidx Hne Hp Hsize.
  set (before := pre +:+ password_key).
  set (P := Z.of_nat (String.length pre) + beforeLen).
  set (n := Z.of_nat (String.length pw)).
  assert (Hs : s = before +:+ (pw +:+ String json.backslash (String json.dquote post))).
  { unfold s, before. now rewrite append_assoc. }
  assert (Hs' : s = (before +:+ pw +:+ String json.backslash EmptyString)
                      +:+ String json.dquote post).
  { rewrite Hs. now rewrite !append_assoc, append_cons, append_nil. }
  assert (Hl : Z.of_nat (String.length before) = P).
  { unfold before, P. rewrite length_append. change (String.length password_key) with 12%nat.
    unfold beforeLen. lia. }
  assert (Hl' : Z.of_nat (String.length (before +:+ pw +:+ String json.backslash EmptyString))
                = P + n + 1).
  { rewrite !length_append. cbn [String.length]. unfold n. lia. }
  assert (Hlen : size s = P + n + 2 + Z.of_nat (String.length post)).
  { unfold size. rewrite Hs, !length_append. cbn [String.length]. unfold n. lia. }
  assert (Hn : 0 < n).
  { unfold n. destruct pw; [contradiction | cbn [String.length]; lia]. }
  assert (HP : 12 <= P) by (unfold P, beforeLen; lia).
  unfold stripPassword. cbv zeta. unfold string_find. rewrite Hidx.
  rewrite to_int32_small by (unfold P, beforeLen in *; lia).
  rewrite to_uint64_small by (unfold uint64_modulus, P, beforeLen in *; lia).
  destruct (Z.eqb_spec (Z.of_nat (String.length pre)) npos) as [E|_];
    [unfold npos, uint64_modulus, P, beforeLen in *; lia|].
  cbn [negb scan_loop]. unfold scan_step. cbv zeta. fold P.
  assert (Hfind : string_find_char s json.dquote (to_uint64 P) = P + n + 1).
  { rewrite to_uint64_small by (unfold uint64_modulus; lia).
    unfold string_find_char. destruct (Z.leb_spec (size s) P); [lia|].
    rewrite <- Hl, Nat2Z.id.
    replace (String.length before) with (String.length before + 0)%nat at 1 by lia.
    rewrite Hs, find_char_from_append, (find_char_from_plain_escaped _ _ Hp).
    cbn [option_map]. unfold n. lia. }
  rewrite Hfind.
  rewrite to_int32_small by lia.
  rewrite to_uint64_small by (unfold uint64_modulus; lia).
  destruct (Z.eqb_spec (P + n + 1) npos) as [E|_];
    [unfold npos, uint64_modulus in E; lia|].
  destruct (Z.eqb_spec (P + n + 1) P) as [E|_]; [lia|].
  assert (Hat1 : string_at s (P + n) = json.backslash).
  { unfold string_at.
    replace (Z.to_nat (P + n)) with (String.length before + (String.length pw + 0))%nat
      by (unfold n in *; lia).
    now rewrite Hs, !get_append_r. }
  assert (Hlast : lastSlash_loop (Z.to_nat (P + n + 1 - 1 - P)) s P (P + n + 1 - 1)
                  = P + n - 1).
  { replace (P + n + 1 - 1) with (P + n) by lia.
    replace (Z.to_nat (P + n - P)) with (S (Z.to_nat (n - 1))) by lia.
    cbn [lastSlash_loop].
    destruct (Z.gtb_spec (P + n) P) as [_|Hle]; [|lia].
    rewrite Hat1, Ascii.eqb_refl.
    destruct (Z.to_nat (n - 1)) as [|k] eqn:Ek; [reflexivity|].
    cbn [lastSlash_loop].
    destruct (Z.gtb_spec (P + n - 1) P) as [_|Hle]; [|reflexivity].
    unfold string_at.
    replace (Z.to_nat (P + n - 1))
      with (String.length before + (String.length pw - 1))%nat by (unfold n in *; lia).
    rewrite Hs, get_append_r, get_append_l by (unfold n in *; lia).
    destruct (get_in_range pw (String.length pw - 1) ltac:(unfold n in *; lia)) as [ch Hch].
    rewrite Hch. apply (plain_get _ _ _ Hp) in Hch.
    apply plain_char_not_quote in Hch as [_ Hb]. now rewrite Hb. }
  rewrite Hlast.
  replace (P + n + 1 - (P + n - 1)) with 2 by lia.
  cbn [Z.rem Z.eqb]. change (Z.rem 2 2 =? 0) with true. cbv iota.
  f_equal.
  assert (Hhead : substr s 0 P = before).
  { unfold substr. rewrite <- Hl, Nat2Z.id, Hs. apply substring_append_l. }
  assert (Htail : substr_from s (P + n + 1) = String json.dquote post).
  { rewrite <- Hl', Hs'. apply substr_from_append. }
  rewrite Hhead, Htail. unfold before. now rewrite append_assoc.
Qed.

(** The scan of [logProcessSpawn] is settled in its first turn: a turn that
    does not leave the loop searches again from the quote it found, so that
    further turns change nothing. *)
Theorem password_scan_first_turn_decides :
  forall (this : Impl) (fuel : nat),
    size (StandardInput this) < 2 ^ 31 ->
    logProcessSpawn (S fuel) this = logProcessSpawn 1 this.
Proof.
  intros this fuel Hsize.
  assert (Hloop : forall p1 p2,
            scan_loop (S fuel) (StandardInput this) p1 p2 =
            scan_loop 1 (StandardInput this) p1 p2).
  { intros p1 p2. cbn [scan_loop].
    destruct (scan_step (StandardInput this) p1 p2) as [p e| |q] eqn:Hstep;
      try reflexivity.
    apply (scan_step_again_fixed _ _ _ _ Hsize) in Hstep.
    now rewrite (scan_loop_stuck _ _ _ _ Hsize Hstep fuel). }
  unfold logProcessSpawn, stripPassword. cbv zeta. now rewrite Hloop.
Qed.

Lemma password_scan_first_turn_decides_witness :
  logProcessSpawn 7 (sample_process password_with_quote) =
  logProcessSpawn 1 (sample_process password_with_quote).
Proof.
  apply (password_scan_first_turn_decides (sample_process password_with_quote) 6).
  vm_compute. reflexivity.
Defined.

(** *** The password member in the profile of any user *)

Lemma rejects_prefix pattern : forall text rest,
  rejects pattern text = true -> String.prefix pattern (text +:+ rest) = false.
Proof.
  induction pattern as [|x pattern IH]; intros text rest H; [discriminate H|].
  destruct text as [|c text]; [discriminate H|].
  rewrite append_cons. cbn [rejects] in H. cbn [String.prefix].
  destruct (ascii_dec x c) as [<-|Hne].
  - rewrite Ascii.eqb_refl in H. now apply IH.
  - reflexivity.
Qed.

Lemma index_step pattern c text :
  String.prefix pattern (String c text) = false ->
  String.index 0 pattern (String c text) = option_map S (String.index 0 pattern text).
Proof. intros H. cbn [String.index]. now rewrite H. Qed.

Lemma option_map_add {a b : nat} (o : option nat) :
  option_map (Nat.add a) (option_map (Nat.add b) o) = option_map (Nat.add (a + b)) o.
Proof. destruct o as [n|]; [cbn; f_equal; lia | reflexivity]. Qed.

(** The search for the key goes through a text that is free of it. *)
Lemma index_key_free text : forall rest,
  key_free text = true ->
  String.index 0 password_key (text +:+ rest) =
    option_map (Nat.add (String.length text)) (String.index 0 password_key rest).
Proof.
  induction text as [|c text IH]; intros rest H.
  - rewrite append_nil. now destruct (String.index 0 password_key rest).
  - cbn [key_free] in H. apply andb_prop in H as [Hc Ht].
    pose proof (rejects_prefix _ _ rest Hc) as Hp. rewrite append_cons in Hp |- *.
    rewrite (index_step _ _ _ Hp), (IH _ Ht).
    now destruct (String.index 0 password_key rest).
Qed.

Lemma hex_digit_not_quote n : Ascii.eqb json.dquote (json.hex_digit n) = false.
Proof.
  unfold json.hex_digit.
  do 16 (destruct n as [|n]; [reflexivity|]). now destruct n.
Qed.

(** What the JSON writer makes of a character: the escaped quote, or a
    text without a quote. *)
Lemma escape_char_cases c :
  json.escape_char c = String json.backslash (String json.dquote EmptyString) \/
  (key_free (json.escape_char c) = true /\
   ((Ascii.eqb c json.dquote = false /\ json.escape_char c = String c EmptyString) \/
    exists r, json.escape_char c = String json.backslash r)).
Proof.
  unfold json.escape_char.
  destruct (Ascii.eqb c json.dquote) eqn:Eq; [now left | right].
  destruct (Ascii.eqb c json.backslash); [split; [reflexivity | right; eauto]|].
  destruct (Nat.eqb (nat_of_ascii c) 8); [split; [reflexivity | right; eauto]|].
  destruct (Nat.eqb (nat_of_ascii c) 9); [split; [reflexivity | right; eauto]|].
  destruct (Nat.eqb (nat_of_ascii c) 10); [split; [reflexivity | right; eauto]|].
  destruct (Nat.eqb (nat_of_ascii c) 12); [split; [reflexivity | right; eauto]|].
  destruct (Nat.eqb (nat_of_ascii c) 13); [split; [reflexivity | right; eauto]|].
  destruct (Nat.ltb (nat_of_ascii c) 32).
  - split; [|right; eauto].
    cbn [key_free]. unfold password_key. cbn [rejects].
    rewrite !hex_digit_not_quote. reflexivity.
  - split; [|left; now split].
    cbn [key_free]. unfold password_key. cbn [rejects].
    rewrite Ascii.eqb_sym, Eq. reflexivity.
Qed.

(** After a quote, what is left of the key does not match a written string
    followed by its closing quote and a comma. *)
Lemma key_tail_not_in_escaped (after : string) : forall (username pattern : string),
  In pattern ["password" +:+ key_end; "assword" +:+ key_end; "ssword" +:+ key_end;
              "sword" +:+ key_end; "word" +:+ key_end; "ord" +:+ key_end;
              "rd" +:+ key_end; "d" +:+ key_end; key_end] ->
  String.prefix pattern
    (json.escape_string username +:+ String json.dquote (String "," after)) = false.
Proof.
  induction username as [|c username IH]; intros pattern Hin.
  - cbn [In] in Hin. rewrite append_nil.
    repeat (destruct Hin as [<-|Hin]; [reflexivity|]). contradiction.
  - cbn [json.escape_string]. rewrite append_assoc.
    destruct (escape_char_cases c) as [->|[_ [[Hq ->]|[r ->]]]].
    + cbn [In] in Hin.
      repeat (destruct Hin as [<-|Hin]; [reflexivity|]). contradiction.
    + rewrite append_cons, append_nil. cbn [In] in Hin.
      repeat (destruct Hin as [<-|Hin];
              [unfold key_end; rewrite ?append_cons, ?append_nil; cbn [String.prefix];
               destruct (ascii_dec _ c) as [<-|_];
               [first [discriminate Hq
                      | apply IH; cbn [In]; unfold key_end;
                        rewrite ?append_cons, ?append_nil; tauto]
               | reflexivity]|]).
      contradiction.
    + rewrite append_cons. cbn [In] in Hin.
      repeat (destruct Hin as [<-|Hin]; [reflexivity|]). contradiction.
Qed.

Lemma index_through_escaped (after : string) : forall username : string,
  String.index 0 password_key
    (json.escape_string username +:+ String json.dquote (String "," after)) =
  option_map (Nat.add (String.length (json.escape_string username)))
    (String.index 0 password_key (String json.dquote (String "," after))).
Proof.
  induction username as [|c username IH].
  - rewrite append_nil. cbn [json.escape_string String.length].
    now destruct (String.index 0 password_key _).
  - cbn [json.escape_string]. rewrite append_assoc, length_append.
    destruct (escape_char_cases c) as [->|[Hfree _]].
    + rewrite !append_cons, append_nil.
      rewrite index_step by reflexivity.
      rewrite index_step.
      * rewrite IH. cbn [String.length].
        now destruct (String.index 0 password_key (String json.dquote (String "," after))).
      * unfold password_key. cbn [String.prefix].
        destruct (ascii_dec json.dquote json.dquote) as [_|Hne]; [|reflexivity].
        apply key_tail_not_in_escaped. now left.
    + rewrite (index_key_free _ _ Hfree), IH. apply option_map_add.
Qed.

Lemma prefix_append pattern rest : String.prefix pattern (pattern +:+ rest) = true.
Proof.
  induction pattern as [|x pattern IH]; [rewrite append_nil; now destruct rest|].
  rewrite append_cons. cbn [String.prefix].
  destruct (ascii_dec x x) as [_|Hne]; [exact IH | contradiction].
Qed.

Lemma index_at_start rest : String.index 0 password_key (password_key +:+ rest) = Some 0%nat.
Proof.
  pose proof (prefix_append password_key rest) as Hp.
  remember (password_key +:+ rest) as text eqn:Htext. destruct text as [|c text].
  - unfold password_key in Htext. rewrite append_cons in Htext. discriminate Htext.
  - cbn [String.index]. now rewrite Hp.
Qed.

Lemma profile_head_of_split username :
  profile_head_of username =
  profile_open +:+ String json.dquote
                     (json.escape_string username +:+ String json.dquote profile_rest).
Proof.
  unfold profile_head_of, profile_open, profile_rest. cbn. unfold json.write_string.
  repeat (rewrite ?append_assoc, ?append_cons, ?append_nil). reflexivity.
Qed.

(** The first occurrence of the key in a launch profile is the password
    member, whatever the user is called: inside the written user name every
    quote follows a backslash, and the quote that closes the name is followed
    by a comma. *)
Lemma profile_key_index_of username rest :
  String.index 0 password_key (profile_head_of username +:+ password_key +:+ rest) =
  Some (String.length (profile_head_of username)).
Proof.
  rewrite profile_head_of_split.
  assert (Hrest : forall tail,
            String.index 0 password_key
              (String json.dquote profile_rest +:+ password_key +:+ tail) =
            Some (String.length (String json.dquote profile_rest))).
  { intros tail.
    assert (Hfree : key_free (String json.dquote profile_rest) = true)
      by (vm_compute; reflexivity).
    rewrite (index_key_free _ _ Hfree), index_at_start.
    cbn [option_map]. f_equal; lia. }
  assert (Hopen : key_free profile_open = true) by (vm_compute; reflexivity).
  rewrite !append_assoc, (index_key_free _ _ Hopen), append_cons.
  rewrite index_step.
  - rewrite append_assoc.
    change (String json.dquote profile_rest +:+ password_key +:+ rest)
      with (String json.dquote (String "," (String.substring 1 24 profile_rest
                                               +:+ password_key +:+ rest))).
    rewrite index_through_escaped.
    change (String json.dquote (String "," (String.substring 1 24 profile_rest
                                              +:+ password_key +:+ rest)))
      with (String json.dquote profile_rest +:+ password_key +:+ rest).
    rewrite Hrest. cbn [option_map]. f_equal.
    rewrite !length_append. cbn [String.length]. rewrite length_append.
    cbn [String.length]. lia.
  - unfold password_key at 1. cbn [String.prefix].
    destruct (ascii_dec json.dquote json.dquote) as [_|Hne]; [|reflexivity].
    rewrite append_assoc.
    change (String json.dquote profile_rest +:+ password_key +:+ rest)
      with (String json.dquote (String "," (String.substring 1 24 profile_rest
                                               +:+ password_key +:+ rest))).
    apply key_tail_not_in_escaped. now left.
Qed.

(** The launch profile of any options around the password. *)
Lemma createLaunchProfile_shape_of options :
  createLaunchProfile options =
  profile_head_of (launch_username options) +:+ password_key
    +:+ json.escape_string (ProcessOptions.Password options)
    +:+ String json.dquote (profile_tail (ProcessOptions.Executable options)
                              (ProcessOptions.StandardInput options)).
Proof.
  destruct options as [executable password user stdInput].
  unfold createLaunchProfile, launchProfile, launch_username, profile_head_of, profile_tail,
    password_key.
  cbn. unfold json.write_string.
  repeat (rewrite ?append_assoc, ?append_cons, ?append_nil). reflexivity.
Qed.

(** A launch without a password is logged with its profile as it is,
    whoever the user and whatever the arguments are: the scan meets the
    closing quote at once and redacts nothing. *)
Theorem empty_password_profile_is_logged_whole :
  forall (options : ProcessOptions.t) (this : Impl) (fuel : nat),
    StandardInput this = createLaunchProfile options ->
    ProcessOptions.Password options = EmptyString ->
    size (StandardInput this) < 2 ^ 31 ->
    logProcessSpawn (S fuel) this =
      Returned ("Launching rsandbox. " +:+ newline +:+ "Args "
                  +:+ String.concat " " (Arguments this)
                  +:+ newline +:+ "Launch Profile: " +:+ StandardInput this).
Proof.
  intros options this fuel Hin Hpw Hsize.
  unfold logProcessSpawn.
  rewrite Hin, createLaunchProfile_shape_of, Hpw in Hsize |- *.
  cbn [json.escape_string] in Hsize |- *. rewrite append_nil in Hsize |- *.
  now rewrite (stripPassword_empty_value _ _ fuel (profile_key_index_of _ _) Hsize).
Qed.

Lemma empty_password_profile_is_logged_whole_witness :
  logProcessSpawn 1 (sample_constructed EmptyString) =
    Returned ("Launching rsandbox. " +:+ newline +:+ "Args "
                +:+ "/usr/lib/rstudio-server/bin/rsandbox --username bob /bin/sh -c /bin/ls"
                +:+ newline +:+ "Launch Profile: "
                +:+ createLaunchProfile (sample_options EmptyString)).
Proof.
  apply (empty_password_profile_is_logged_whole (sample_options EmptyString)
           (sample_constructed EmptyString) 0).
  - reflexivity.
  - reflexivity.
  - vm_compute. reflexivity.
Defined.

(** A password with a quote in it is redacted up to that quote only,
    whoever the user and whatever the arguments are: when plain characters
    come before the first quote, the scan ends at the escaped quote, and the
    log entry shows the quote and all of the password that follows it. *)
Theorem password_is_logged_from_its_first_quote :
  forall (options : ProcessOptions.t) (this : Impl) (before after : string)
         (fuel : nat),
    StandardInput this = createLaunchProfile options ->
    ProcessOptions.Password options = before +:+ String json.dquote after ->
    before <> EmptyString ->
    plain before = true ->
    size (StandardInput this) < 2 ^ 31 ->
    logProcessSpawn (S fuel) this =
      Returned ("Launching rsandbox. " +:+ newline +:+ "Args "
                  +:+ String.concat " " (Arguments this)
                  +:+ newline +:+ "Launch Profile: "
                  +:+ profile_head_of (launch_username options) +:+ password_key
                  +:+ redaction_marker
                  +:+ String json.dquote
                        (json.escape_string after
                           +:+ String json.dquote
                                 (profile_tail (ProcessOptions.Executable options)
                                    (ProcessOptions.StandardInput options)))).
Proof.
  intros options this before after fuel Hin Hpw Hne Hp Hsize.
  assert (Hesc : json.escape_string (before +:+ String json.dquote after) =
                 before +:+ String json.backslash
                              (String json.dquote (json.escape_string after))).
  { clear Hsize Hne Hpw. induction before as [|x b IH].
    - reflexivity.
    - cbn in Hp. apply andb_prop in Hp as [Hx Hp].
      rewrite append_cons. cbn [json.escape_string]. rewrite (IH Hp).
      replace (json.escape_char x) with (String x EmptyString);
        [now rewrite append_cons, append_nil, append_cons|].
      pose proof (escape_string_plain (String x EmptyString)) as H.
      cbn [plain json.escape_string] in H. rewrite Hx in H. specialize (H eq_refl).
      destruct (json.escape_char x) as [|c r]; [discriminate H|].
      rewrite append_cons in H. injection H as -> Hr.
      destruct r; [reflexivity | discriminate Hr]. }
  unfold logProcessSpawn.
  rewrite Hin, createLaunchProfile_shape_of, Hpw, Hesc in Hsize |- *.
  rewrite !append_assoc, !append_cons in Hsize |- *.
  now rewrite (stripPassword_escaped_quote _ before _ fuel
                 (profile_key_index_of _ _) Hne Hp Hsize).
Qed.

Lemma password_is_logged_from_its_first_quote_witness :
  logProcessSpawn 1 (sample_constructed password_with_quote) =
    Returned ("Launching rsandbox. " +:+ newline +:+ "Args "
                +:+ "/usr/lib/rstudio-server/bin/rsandbox --username bob /bin/sh -c /bin/ls"
                +:+ newline +:+ "Launch Profile: "
                +:+ profile_head_of "bob" +:+ password_key +:+ redaction_marker
                +:+ String json.dquote ("c" +:+ String json.dquote
                                          (profile_tail "/bin/ls" EmptyString))).
Proof.
  apply (password_is_logged_from_its_first_quote (sample_options password_with_quote)
           (sample_constructed password_with_quote) "ab" "c" 0).
  - reflexivity.
  - reflexivity.
  - discriminate.
  - reflexivity.
  - vm_compute. reflexivity.
Defined.

End LoggedProfile.

(** * Further properties of the response documents *)

Section ResponseDocuments.
Import Response.

Variable Type_to_int : Type_ -> Z.
Variables API_VERSION_MAJOR API_VERSION_MINOR API_VERSION_PATCH : Z.
Context {ErrorType : Type}.
Variable ErrorType_to_int : ErrorType -> Z.
Context {JobConfig PlacementConstraint ResourceLimit : Type}.
Context `{!json.ToJson JobConfig, !json.ToJson PlacementConstraint,
          !json.ToJson ResourceLimit}.

(** The three encoders of the subclasses extend the document of the base
    class and never overwrite it: the document begins with the members
    messageType, requestId and responseId of [Response::toJson], in that
    order, and no member name occurs twice. *)
Theorem subclass_documents_extend_the_base :
  (forall this : Impl,
     let doc := BootstrapResponse_toJson Type_to_int API_VERSION_MAJOR API_VERSION_MINOR
                  API_VERSION_PATCH this in
     firstn 3 doc = Response_toJson Type_to_int this /\ NoDup (List.map fst doc)) /\
  (forall this : ErrorResponse,
     let doc := ErrorResponse_toJson Type_to_int this in
     firstn 3 doc = Response_toJson Type_to_int (err_responseImpl this) /\
     NoDup (List.map fst doc)) /\
  (forall this : ClusterInfoResponse,
     let doc := ClusterInfoResponse_toJson Type_to_int this in
     firstn 3 doc = Response_toJson Type_to_int (m_responseImpl this) /\
     NoDup (List.map fst doc)).
Proof.
  split; [|split].
  - intros this doc. split; [reflexivity|].
    apply (bool_decide_unpack _). vm_compute. exact I.
  - intros this doc. split; [reflexivity|].
    apply (bool_decide_unpack _). vm_compute. exact I.
  - intros [base [allow config images default constraints queues limits supports]] doc.
    destruct supports, default as [|c default], queues as [|q queues];
      (split; [reflexivity | apply (bool_decide_unpack _); vm_compute; exact I]).
Qed.

(** An error response never takes an id: whatever the counter holds, the
    constructor leaves it as it is, and the document carries the request's
    id, the response id 0, the error type as an integer and the message. *)
Theorem error_response_document :
  forall (in_requestId : Z) (in_errorType : ErrorType) (in_errorMessage : string)
         (NEXT_RESPONSE_ID : Z),
    let made := ErrorResponse_construct ErrorType_to_int in_requestId in_errorType
                  in_errorMessage NEXT_RESPONSE_ID in
    snd made = NEXT_RESPONSE_ID /\
    ErrorResponse_toJson Type_to_int (fst made) =
      [(FIELD_MESSAGE_TYPE, json.Int (Type_to_int ERROR));
       (FIELD_REQUEST_ID, json.Int in_requestId);
       (FIELD_RESPONSE_ID, json.Int 0);
       (FIELD_ERROR_CODE, json.Int (ErrorType_to_int in_errorType));
       (FIELD_ERROR_MESSAGE, json.Str in_errorMessage)].
Proof. intros. split; reflexivity. Qed.

(** The document of a cluster-info response carries the value the counter
    held when the response was constructed, and the construction moves the
    counter on by one, back to 0 after [2^64 - 1]. *)
Theorem cluster_info_document_carries_the_drawn_id :
  forall (in_requestId : Z) (in_queues : list string)
         (in_resourceLimits : list ResourceLimit)
         (in_placementConstraints : list PlacementConstraint)
         (in_config : list JobConfig) (NEXT_RESPONSE_ID : Z),
    0 <= NEXT_RESPONSE_ID < uint64_modulus ->
    let made := ClusterInfoResponse_new in_requestId in_queues in_resourceLimits
                  in_placementConstraints in_config NEXT_RESPONSE_ID in
    json.find FIELD_RESPONSE_ID (ClusterInfoResponse_toJson Type_to_int (fst made)) =
      Some (json.Int NEXT_RESPONSE_ID) /\
    json.find FIELD_REQUEST_ID (ClusterInfoResponse_toJson Type_to_int (fst made)) =
      Some (json.Int in_requestId) /\
    snd made = (if NEXT_RESPONSE_ID =? uint64_modulus - 1 then 0 else NEXT_RESPONSE_ID + 1).
Proof.
  intros in_requestId in_queues in_resourceLimits in_placementConstraints in_config
    NEXT_RESPONSE_ID Hrange made.
  split; [|split].
  - destruct in_queues; reflexivity.
  - destruct in_queues; reflexivity.
  - unfold made, ClusterInfoResponse_new, Response_new, Impl_new, fetch_add, to_uint64.
    cbn [is_heartbeat_or_error snd].
    destruct (Z.eqb_spec NEXT_RESPONSE_ID (uint64_modulus - 1)) as [->|Hne].
    + reflexivity.
    + apply Z.mod_small. lia.
Qed.

End ResponseDocuments.

Lemma cluster_info_document_carries_the_drawn_id_witness :
  json.find Response.FIELD_RESPONSE_ID
    (@Response.ClusterInfoResponse_toJson (fun _ => 3) unit unit unit
       (fun _ => json.Null) (fun _ => json.Null) (fun _ => json.Null)
       (fst (@Response.ClusterInfoResponse_new unit unit unit
               7 ["batch"] [] [] [] (uint64_modulus - 1)))) =
    Some (json.Int (uint64_modulus - 1)) /\
  snd (@Response.ClusterInfoResponse_new unit unit unit
         7 ["batch"] [] [] [] (uint64_modulus - 1)) = 0.
Proof.
  pose proof (@cluster_info_document_carries_the_drawn_id (fun _ => 3) unit unit unit
                (fun _ => json.Null) (fun _ => json.Null) (fun _ => json.Null)
                7 ["batch"] [] [] [] (uint64_modulus - 1)) as H2.
  specialize (H2 ltac:(unfold uint64_modulus; lia)).
  destruct H2 as [Hid [_ Hnext]]. split; [exact Hid | exact Hnext].
Defined.

(** * The child at the replacement of its image *)

Section ChildAtExec.
Import Process.

#[local] Set Warnings "-clear-no-such-hyp".

(** Neither path of [closeParentFds] touches a descriptor below the first
    user descriptor. *)
Lemma closeParentFds_keeps_streams in_pipeFd in_maxFd reads w w' :
  0 <= in_pipeFd < 2 ^ 31 ->
  Forall (fun r => - 2 ^ 31 <= buffer_after r < 2 ^ 31) reads ->
  closeParentFds in_pipeFd in_maxFd reads w = Some w' ->
  forall fd, fd ∈ open_fds w -> fd < startFd -> fd ∈ open_fds w'.
Proof.
  intros Hpipe Hreads H fd Hin Hfd.
  unfold closeParentFds in H.
  destruct (closeParentFds_read in_pipeFd in_maxFd reads false w)
    as [[[error fdsRead] w1]|] eqn:E; [|discriminate].
  destruct (closeParentFds_read_spares _ _ _ Hpipe Hreads _ _ _ _ _ E)
    as [closed [_ [Ho Hf]]].
  assert (Hin1 : fd ∈ open_fds w1).
  { rewrite Ho. apply elem_of_difference. split; [exact Hin|].
    intros Hcl. apply elem_of_list_to_set in Hcl.
    rewrite List.Forall_forall in Hf. apply list_elem_of_In in Hcl.
    specialize (Hf _ Hcl). lia. }
  destruct (error || negb fdsRead).
  - injection H as <-.
    pose proof (to_uint32_range (if in_maxFd =? RLIM_INFINITY then 1024 else in_maxFd)) as Hm.
    fold (sweep_maxFd in_maxFd) in Hm.
    destruct (closeParentFds_sweep_spec (sweep_maxFd in_maxFd) in_pipeFd ltac:(lia)
                (Z.to_nat (sweep_maxFd in_maxFd)) startFd w1) as [_ Hso].
    + unfold startFd, STDERR_FILENO. lia.
    + unfold startFd, STDERR_FILENO. lia.
    + apply Hso. split; [exact Hin1 | lia].
  - now injection H as <-.
Qed.

Lemma execChild_connect_streams in_fds setup w w0 :
  execChild_connect in_fds setup w = inl w0 ->
  forall fd, 0 <= fd < startFd -> fd ∈ open_fds w0.
Proof.
  unfold execChild_connect. intros H fd Hfd.
  destruct (setpgid_result setup =? -1); [discriminate|].
  destruct (negb (clearSignalMask_result setup =? 0)); [discriminate|].
  destruct (dup2_stdin_result setup =? -1); [discriminate|].
  destruct (dup2_stdout_result setup =? -1); [discriminate|].
  destruct (dup2_stderr_result setup =? -1); [discriminate|].
  injection H as <-.
  unfold startFd, STDERR_FILENO, STDOUT_FILENO, STDIN_FILENO in *.
  cbn [sys_dup2 sys_close open_fds].
  assert (Hcases : fd = 0 \/ fd = 1 \/ fd = 2) by lia.
  destruct Hcases as [->|[->| ->]]; set_solver.
Qed.

(** Whenever the child reaches the replacement of its image, by the list
    of the parent or by the sweep, its standard input, output and error are
    open and the control pipe is closed. *)
Theorem child_reaches_exec_with_streams_open :
  forall (in_fds : FileDescriptors) (in_maxFd : Z) (setup : child_setup)
         (reads : list read_outcome) (w w' : Child),
    startFd <= s_readPipe (CloseFd in_fds) < 2 ^ 31 ->
    Forall (fun r => - 2 ^ 31 <= buffer_after r < 2 ^ 31) reads ->
    execChild in_fds in_maxFd setup reads w = ChildExec w' ->
    (forall fd, 0 <= fd < startFd -> fd ∈ open_fds w') /\
    s_readPipe (CloseFd in_fds) ∉ open_fds w'.
Proof.
  intros in_fds in_maxFd setup reads w w' Hpipe Hreads H.
  unfold execChild in H.
  destruct (execChild_connect in_fds setup w) as [w0|code] eqn:Hconnect; [|discriminate].
  destruct (closeParentFds (s_readPipe (CloseFd in_fds)) in_maxFd reads w0)
    as [w1|] eqn:Hclose; [|discriminate].
  injection H as <-. cbn [sys_close open_fds]. split.
  - intros fd Hfd.
    assert (Hin : fd ∈ open_fds w1).
    { assert (Hpipe' : 0 <= s_readPipe (CloseFd in_fds) < 2 ^ 31).
      { unfold startFd, STDERR_FILENO in Hpipe. lia. }
      apply (closeParentFds_keeps_streams _ _ _ _ _ Hpipe' Hreads Hclose); [|lia].
      now apply (execChild_connect_streams _ _ _ _ Hconnect). }
    apply elem_of_difference. split; [exact Hin|].
    intros Heq. apply elem_of_singleton in Heq. lia.
  - set_solver.
Qed.

Lemma child_reaches_exec_with_streams_open_witness :
  exists w',
    execChild four_pipes 32 setup_succeeds pipe_closed_early inherited_table = ChildExec w' /\
    (1 ∈ open_fds w') /\
    (9 ∉ open_fds w').
Proof.
  assert (Hrun : exists w',
            execChild four_pipes 32 setup_succeeds pipe_closed_early inherited_table =
              ChildExec w').
  { eexists. unfold execChild, pipe_closed_early, closeParentFds. cbn. reflexivity. }
  destruct Hrun as [w' Hrun]. exists w'. split; [exact Hrun|].
  destruct (child_reaches_exec_with_streams_open four_pipes 32 setup_succeeds
              pipe_closed_early inherited_table w') as [Hstreams Hpipe];
    [unfold startFd, STDERR_FILENO; cbn; lia | repeat constructor; cbn; lia | exact Hrun |].
  split; [apply Hstreams; unfold startFd, STDERR_FILENO; lia | exact Hpipe].
Defined.

End ChildAtExec.
